(** * Passport / ID-card scanner: a shallow embedding of the MRZ parser
      (src/lib/mrz-parser.js) and of the scan orchestration of the Electron
      main process (src/main.js), followed by the scanner client, the USB
      monitor and the DLL wrapper (src/lib/scanner.js).

    JavaScript strings are sequences of UTF-16 code units; they are modelled
    as lists of code units ([N]), so that every string the device boundary
    can hand over (Korean names decoded from CP949 included) is an input of
    the model.  String literals of the source are written [js "..."]. *)

From Stdlib Require Import ZArith NArith Ascii String DecimalString DecimalN DecimalPos.
From stdpp Require Import base decidable option list gmap.

Local Open Scope N_scope.

(* ===================================================================== *)
(** ** JavaScript string primitives used by the sources                   *)
(* ===================================================================== *)

Module JS.

(** A string value: its UTF-16 code units. *)
Definition str := list N.

(** The code units of an ASCII literal. *)
Definition js (s : string) : str := N_of_ascii <$> list_ascii_of_string s.

Definition ch (a : ascii) : N := N_of_ascii a.

(** Character classes of the regular expressions of the sources. *)
Definition is_digit (c : N) : bool := (48 <=? c) && (c <=? 57).      (* \d, [0-9] *)
Definition is_upper (c : N) : bool := (65 <=? c) && (c <=? 90).      (* [A-Z]     *)
Definition is_ctrl (c : N) : bool := c <=? 31.                       (* [\u0000-\u001F] *)

(** WhiteSpace and LineTerminator code units: what [String.prototype.trim]
    strips and what [\s] matches. *)
Definition is_space (c : N) : bool :=
  ((9 <=? c) && (c <=? 13)) || (c =? 32) || (c =? 160) || (c =? 5760)
  || ((8192 <=? c) && (c <=? 8202)) || (c =? 8232) || (c =? 8233)
  || (c =? 8239) || (c =? 8287) || (c =? 12288) || (c =? 65279).

(** [s.replace(/[class]/g, '')]: drop every code unit of the class. *)
Fixpoint remove (p : N -> bool) (s : str) : str :=
  match s with
  | [] => []
  | c :: s' => if p c then remove p s' else c :: remove p s'
  end.

(** [s.replace(/x/g, 'y')] for single code units. *)
Definition replace_char (x y : N) (s : str) : str :=
  (fun c => if c =? x then y else c) <$> s.

Fixpoint trimStart (s : str) : str :=
  match s with
  | [] => []
  | c :: s' => if is_space c then trimStart s' else s
  end.

Definition trimEnd (s : str) : str := rev (trimStart (rev s)).

Definition trim (s : str) : str := trimEnd (trimStart s).

(** [s.padEnd(n, c)] with a one-unit filler. *)
Definition padEnd (n : nat) (c : N) (s : str) : str :=
  s ++ replicate (n - length s)%nat c.

(** [s.substring(a, b)] for [0 <= a <= b]; indices past the end are clamped. *)
Definition substring (a b : nat) (s : str) : str := take (b - a)%nat (drop a s).

(** [s.substring(a)]. *)
Definition substring_from (a : nat) (s : str) : str := drop a s.

(** [s[i]]: [None] stands for [undefined]. *)
Definition at_ (i : nat) (s : str) : option N := s !! i.

(** [s.startsWith(p)]. *)
Fixpoint startsWith (p s : str) : bool :=
  match p, s with
  | [], _ => true
  | _ :: _, [] => false
  | a :: p', b :: s' => (a =? b) && startsWith p' s'
  end.

(** [s.split(sep)] for a non-empty separator: cut at every occurrence,
    scanning left to right; [acc] holds the current piece reversed. *)
Fixpoint split_go (sep : str) (acc : str) (s : str) : list str :=
  match s with
  | [] => [rev acc]
  | c :: s' =>
      if startsWith sep s
      then rev acc :: split_skip sep (length sep - 1) s'
      else split_go sep (c :: acc) s'
  end
with split_skip (sep : str) (k : nat) (s : str) : list str :=
  match s with
  | [] => [[]]
  | c :: s' =>
      match k with
      | O => if startsWith sep s
             then [] :: split_skip sep (length sep - 1) s'
             else split_go sep [c] s'
      | S k' => split_skip sep k' s'
      end
  end.

Definition split (sep : str) (s : str) : list str := split_go sep [] s.

(** Decimal digits of a natural number, as [Number.prototype.toString]
    prints a non-negative integer. *)
Definition of_N (n : N) : str := js (NilZero.string_of_uint (N.to_uint n)).

(** A number as [parseInt] and integer arithmetic produce it here:
    [None] is NaN. *)
Definition num := option Z.

Definition num_to_str (x : num) : str :=
  match x with
  | None => js "NaN"
  | Some z => if (z <? 0)%Z then ch "-" :: of_N (Z.abs_N z) else of_N (Z.to_N z)
  end.

(** Value of the longest prefix of decimal digits; [None] when it is empty. *)
Fixpoint digits_prefix (acc : option Z) (s : str) : option Z :=
  match s with
  | [] => acc
  | c :: s' =>
      if is_digit c
      then digits_prefix (Some (10 * default 0%Z acc + Z.of_N (c - 48))%Z) s'
      else acc
  end.

(** [parseInt(s, 10)]: leading white space is skipped, one sign is read,
    then the longest run of digits; NaN when there is none. *)
Definition parseInt (s : str) : num :=
  match trimStart s with
  | c :: s' =>
      if c =? 45 then Z.opp <$> digits_prefix None s'
      else if c =? 43 then digits_prefix None s'
      else digits_prefix None (c :: s')
  | [] => None
  end.

(** [s.toUpperCase()] on the code units a..z; the other units the parser
    can hold at that point (A-Z, 0-9, <) are fixed by it. *)
Definition toUpperCase (s : str) : str :=
  (fun c => if (97 <=? c) && (c <=? 122) then c - 32 else c) <$> s.

End JS.

(* ===================================================================== *)
(** ** src/lib/mrz-parser.js                                              *)
(* ===================================================================== *)

Module MrzParser.
Import JS.

(** The value [normalizeMrz] returns on success: [{ line1, line2 }]. *)
Record lines := Lines { line1 : str; line2 : str }.

Definition FILLER : N := 60.   (* '<' *)
Definition NL : N := 10.       (* '\n' *)

(** The class [A-Z0-9<\n] of the filter of [normalizeMrz]. *)
Definition mrz_allowed (c : N) : bool :=
  is_upper c || is_digit c || (c =? FILLER) || (c =? NL).

(** Does the pattern [\d{k,}] match at the head of [s]: [k] digits. *)
Fixpoint digits_at (k : nat) (s : str) : bool :=
  match k with
  | O => true
  | S k' => match s with
            | c :: s' => is_digit c && digits_at k' s'
            | [] => false
            end
  end.

(** Does [/[A-Z]{1,2}\d{5,}/] match at the head of [s]: one capital and
    five digits, or two capitals and five digits. *)
Definition signature_at (s : str) : bool :=
  match s with
  | c :: s' =>
      is_upper c &&
      (digits_at 5 s' ||
       match s' with
       | d :: s'' => is_upper d && digits_at 5 s''
       | [] => false
       end)
  | [] => false
  end.

(** [s.search(/[A-Z]{1,2}\d{5,}/)]: index of the first match, -1 if none. *)
Fixpoint search_from (i : Z) (s : str) : Z :=
  match s with
  | [] => (-1)%Z
  | _ :: s' => if signature_at s then i else search_from (i + 1)%Z s'
  end.

Definition search_signature (s : str) : Z := search_from 0%Z s.

(** The cleaning steps of [normalizeMrz], lines 15-22. *)
Definition clean (mrzRaw : str) : str :=
  let cleaned := remove is_ctrl mrzRaw in
  let cleaned := trim (remove (N.eqb 13) cleaned) in
  let cleaned := replace_char 32 FILLER cleaned in
  remove (fun c => negb (mrz_allowed c)) cleaned.

(** [normalizeMrz(mrzRaw)] for a string argument; [None] is [null].
    (A non-string argument gives [null] as well.) *)
Definition normalizeMrz (mrzRaw : str) : option lines :=
  match mrzRaw with
  | [] => None
  | _ =>
    let cleaned := clean mrzRaw in
    let parts := List.filter (fun s => (0 <? length s)%nat) (split [NL] cleaned) in
    match parts with
    | p0 :: p1 :: _ =>
        let l1 := padEnd 44 FILLER p0 in
        let l2 := padEnd 44 FILLER p1 in
        Some (Lines (substring 0 44 l1) (substring 0 44 l2))
    | _ =>
        let cleaned := remove (N.eqb NL) cleaned in
        if (88 <=? length cleaned)%nat then
          Some (Lines (substring 0 44 cleaned) (substring 44 88 cleaned))
        else if (44 <=? length cleaned)%nat then
          let line2Start := search_signature cleaned in
          if (0 <? line2Start)%Z then
            Some (Lines (padEnd 44 FILLER (substring 0 (Z.to_nat line2Start) cleaned))
                        (padEnd 44 FILLER (substring_from (Z.to_nat line2Start) cleaned)))
          else
            Some (Lines (padEnd 44 FILLER (substring 0 44 cleaned))
                        (padEnd 44 FILLER (substring_from 44 cleaned)))
        else None
    end
  end.

(** [mrzCharValue(char)]. *)
Definition mrzCharValue (c : N) : N :=
  if is_digit c then c - 48
  else if is_upper c then c - 65 + 10
  else 0.

(** [mrzChecksum(str)]: weights 7, 3, 1 cycling. *)
Definition weight (i : nat) : N :=
  match (i mod 3)%nat with O => 7 | 1%nat => 3 | _ => 1 end.

Fixpoint checksum_from (i : nat) (s : str) : N :=
  match s with
  | [] => 0
  | c :: s' => mrzCharValue c * weight i + checksum_from (S i) s'
  end.

Definition mrzChecksum (s : str) : N := checksum_from 0 s mod 10.

(** [extractPassportNo(mrzRaw)]; the check-digit comparison only logs. *)
Definition extractPassportNo (mrzRaw : str) : option str :=
  match normalizeMrz mrzRaw with
  | None => None
  | Some n =>
      let passportField := substring 0 9 (line2 n) in
      let passportNo := toUpperCase (remove (N.eqb FILLER) passportField) in
      match passportNo with
      | [] => None
      | _ => Some passportNo
      end
  end.

(** [formatMrzDate(dateStr)]: YYMMDD to YYYY-MM-DD. *)
Definition formatMrzDate (dateStr : str) : str :=
  if negb (length dateStr =? 6)%nat then []
  else
    let year := parseInt (substring 0 2 dateStr) in
    let month := substring 2 4 dateStr in
    let day := substring 4 6 dateStr in
    let year := match year with
                | Some y => if (50 <? y)%Z then Some (1900 + y)%Z else Some (2000 + y)%Z
                | None => None
                end in
    num_to_str year ++ js "-" ++ month ++ js "-" ++ day.

(** The object [parseMrzFull] returns. *)
Record parsed := Parsed {
  documentType : str;
  issuingCountry : str;
  surname : str;
  givenNames : str;
  fullName : str;
  passportNo : str;
  nationality : str;
  birthDate : str;
  sex : str;
  expiryDate : str;
  personalNo : str;
  raw : lines
}.

Definition unfill (s : str) : str := remove (N.eqb FILLER) s.

(** [parseMrzFull(mrzRaw)]; nothing inside the [try] can throw. *)
Definition parseMrzFull (mrzRaw : str) : option parsed :=
  match normalizeMrz mrzRaw with
  | None => None
  | Some n =>
      let l1 := line1 n in
      let l2 := line2 n in
      let namePart := substring 5 44 l1 in
      let nameSplit := split (js "<<") namePart in
      let piece i := default [] (nameSplit !! i) in
      let surname := trim (replace_char FILLER 32 (piece 0%nat)) in
      let givenNames := trim (replace_char FILLER 32 (piece 1%nat)) in
      let sex := at_ 20 l2 in
      Some {|
        documentType := unfill (substring 0 2 l1);
        issuingCountry := unfill (substring 2 5 l1);
        surname := surname;
        givenNames := givenNames;
        fullName := trim (surname ++ js " " ++ givenNames);
        passportNo := unfill (substring 0 9 l2);
        nationality := unfill (substring 10 13 l2);
        birthDate := formatMrzDate (substring 13 19 l2);
        sex := if bool_decide (sex = Some (ch "M")) then js "Male"
               else if bool_decide (sex = Some (ch "F")) then js "Female"
               else js "Unknown";
        expiryDate := formatMrzDate (substring 21 27 l2);
        personalNo := unfill (substring 28 42 l2);
        raw := n
      |}
  end.

End MrzParser.

(* ===================================================================== *)
(** ** src/main.js: the scan orchestration of the main process            *)
(* ===================================================================== *)

Module Main.
Import JS MrzParser.

Local Open Scope Z_scope.

(** *** Settings (lines 15-17) *)

Definition SAVE_FOLDER : str := js "C:" ++ [92%N] ++ js "passport-scan".
Definition SCAN_INTERVAL : Z := 500.
Definition FAIL_BACKOFF_MS : Z := 2500.

(** *** Recognition heuristics (lines 223-260) *)

(** [isValidPassportMRZ(mrz)]; [cleaned.startsWith('P<')] implies
    [cleaned.startsWith('P')], both are kept as written. *)
Definition isValidPassportMRZ (mrz : str) : bool :=
  match mrz with
  | [] => false
  | _ =>
      let cleaned := remove is_space mrz in
      (startsWith (js "P") cleaned || startsWith (js "P<") cleaned)
      && (60 <=? length cleaned)%nat
  end.

(** [isValidOCRString(str)]: defined at lines 231-236, called nowhere. *)
Definition isValidOCRString (s : option str) : bool :=
  match s with
  | None | Some [] => false
  | Some s => if existsb is_ctrl s then false else (2 <=? length (trim s))%nat
  end.

(** A regular expression [^c1 c2 ... cn$] given by the class of each
    position: the subject matches when it has exactly [n] code units,
    each in its class. *)
Fixpoint matches (pat : list (N -> bool)) (s : str) : bool :=
  match pat, s with
  | [], [] => true
  | p :: pat', c :: s' => p c && matches pat' s'
  | _, _ => false
  end.

Definition dash (c : N) : bool := (c =? 45)%N.
Definition digit58 (c : N) : bool := ((53 <=? c) && (c <=? 56))%N.   (* [5-8] *)

Definition digits (n : nat) : list (N -> bool) := replicate n is_digit.

(** [looksLikeKoreanRRN(idNo)]; [None] is [undefined] (the getter gave
    [null]), the empty string is falsy as well. *)
Definition looksLikeKoreanRRN (idNo : option str) : bool :=
  match idNo with
  | None | Some [] => false
  | Some idNo =>
      let s := trim idNo in
      matches (digits 6 ++ [dash] ++ digits 7) s || matches (digits 13) s
  end.

(** [looksLikeDriverLicenseNo(licenseNo)]. *)
Definition looksLikeDriverLicenseNo (licenseNo : option str) : bool :=
  match licenseNo with
  | None | Some [] => false
  | Some licenseNo =>
      let s := trim licenseNo in
      matches (digits 2 ++ [dash] ++ digits 2 ++ [dash] ++ digits 6 ++ [dash] ++ digits 2) s
  end.

(** [looksLikeAlienRegNo(alienNo)]. *)
Definition looksLikeAlienRegNo (alienNo : option str) : bool :=
  match alienNo with
  | None | Some [] => false
  | Some alienNo =>
      let s := trim alienNo in
      if matches (digits 6 ++ [dash; digit58] ++ digits 6) s then true
      else if matches (digits 13) s
              && match at_ 6 s with Some c => digit58 c | None => false end
      then true
      else false
  end.

(** *** Values crossing the device boundary (src/lib/scanner.js) *)

Inductive ScanType := passport | card | none.

(** What [scanAuto] resolves to, with the delay after which the driver
    has written [base.bmp] and [base_IR.bmp] ([None]: never written). *)
Record ScanResult := {
  success : bool;
  type : ScanType;
  cardType : option Z;
  bmp_after : option Z;
  ir_after : option Z
}.

Record DocType := { dt_type : Z; dt_name : str }.

(** The field maps of [readIDCard], [readDriverLicense], [readAlienCard]. *)
Record IDCard := {
  id_idNo : str; id_name : str; id_address : str; id_issuedDate : str
}.
Record DriverLicense := {
  dl_idNo : str; dl_name : str; dl_licenseNo : str; dl_issuedDate : str;
  dl_address : str; dl_licenseType : str; dl_validPeriod : str
}.
Record AlienCard := {
  al_alienNo : str; al_name : str; al_area : str; al_visaType : str
}.

(** [documentData] once it carries a [documentType]: the parsed MRZ
    retagged 'PASSPORT', or an OCR field map spread with its tag. *)
Inductive DocumentData :=
| PASSPORT (p : parsed)
| ID_CARD (c : IDCard)
| DRIVER_LICENSE (l : DriverLicense)
| ALIEN_CARD (a : AlienCard).

(** How a call into the worker settles: resolved or rejected after a
    delay, or never (a wedged native call). *)
Inductive Reply (A : Type) :=
| Resolve (after : Z) (v : A)
| Reject (after : Z) (message : str)
| Never.
Arguments Resolve {A}.
Arguments Reject {A}.
Arguments Never {A}.

(** The device boundary ([ScannerClient]): the reply to each call, given
    the number of calls issued before it. *)
Record Device := {
  dev_init : nat -> Reply bool;
  dev_open : nat -> Reply bool;
  dev_close : nat -> Reply unit;
  dev_destroy : nat -> Reply unit;
  dev_scanAuto : nat -> Reply ScanResult;
  dev_getDocumentType : nat -> Reply (option DocType);
  dev_readMRZ : nat -> Reply (option str);
  dev_readIDCard : nat -> Reply (option IDCard);
  dev_readDriverLicense : nat -> Reply (option DriverLicense);
  dev_readAlienCard : nat -> Reply (option AlienCard)
}.

Inductive Call :=
| init | open | close | destroy
| scanAuto (outputPath : str)
| getDocumentType | readMRZ | readIDCard | readDriverLicense | readAlienCard.

(** A call that was issued, with the deadline [withTimeout] put on it
    ([None]: awaited bare). *)
Definition Issued : Type := Call * option Z.

(** Messages to the renderer. *)
Record ScanResultMsg := {
  msg_documentId : str;
  msg_documentType : str;
  msg_mrz : str;
  msg_parsed : option DocumentData;
  msg_imagePath : option str;
  msg_images : list str;
  msg_timestamp : str
}.

Inductive Message :=
| scanner_status (connected : bool) (error : option str)
| scan_result (m : ScanResultMsg).

(** *** The state the main process acts on *)

Record World := {
  (* globals, lines 20-26; [scanner] holds the generation of the
     ScannerClient, [scanLoopTimer] whether the interval is set *)
  scanner : option nat;
  scannerOpened : bool;
  scanLoopTimer : bool;
  isScanning : bool;
  lastFailedAt : Z;
  (* environment *)
  now : Z;                      (* Date.now() *)
  files : gmap str Z;           (* path |-> time from which it exists *)
  calls : list Issued;          (* calls into the worker, oldest first *)
  sent : list Message;          (* sendToRenderer, oldest first *)
  written : list (str * str)    (* writeUtf8BomFileSync: path, content *)
}.

Definition set_scanner v w := {| scanner := v; scannerOpened := scannerOpened w; scanLoopTimer := scanLoopTimer w; isScanning := isScanning w; lastFailedAt := lastFailedAt w; now := now w; files := files w; calls := calls w; sent := sent w; written := written w |}.
Definition set_scannerOpened v w := {| scanner := scanner w; scannerOpened := v; scanLoopTimer := scanLoopTimer w; isScanning := isScanning w; lastFailedAt := lastFailedAt w; now := now w; files := files w; calls := calls w; sent := sent w; written := written w |}.
Definition set_scanLoopTimer v w := {| scanner := scanner w; scannerOpened := scannerOpened w; scanLoopTimer := v; isScanning := isScanning w; lastFailedAt := lastFailedAt w; now := now w; files := files w; calls := calls w; sent := sent w; written := written w |}.
Definition set_isScanning v w := {| scanner := scanner w; scannerOpened := scannerOpened w; scanLoopTimer := scanLoopTimer w; isScanning := v; lastFailedAt := lastFailedAt w; now := now w; files := files w; calls := calls w; sent := sent w; written := written w |}.
Definition set_lastFailedAt v w := {| scanner := scanner w; scannerOpened := scannerOpened w; scanLoopTimer := scanLoopTimer w; isScanning := isScanning w; lastFailedAt := v; now := now w; files := files w; calls := calls w; sent := sent w; written := written w |}.
Definition set_now v w := {| scanner := scanner w; scannerOpened := scannerOpened w; scanLoopTimer := scanLoopTimer w; isScanning := isScanning w; lastFailedAt := lastFailedAt w; now := v; files := files w; calls := calls w; sent := sent w; written := written w |}.
Definition set_files v w := {| scanner := scanner w; scannerOpened := scannerOpened w; scanLoopTimer := scanLoopTimer w; isScanning := isScanning w; lastFailedAt := lastFailedAt w; now := now w; files := v; calls := calls w; sent := sent w; written := written w |}.
Definition set_calls v w := {| scanner := scanner w; scannerOpened := scannerOpened w; scanLoopTimer := scanLoopTimer w; isScanning := isScanning w; lastFailedAt := lastFailedAt w; now := now w; files := files w; calls := v; sent := sent w; written := written w |}.
Definition set_sent v w := {| scanner := scanner w; scannerOpened := scannerOpened w; scanLoopTimer := scanLoopTimer w; isScanning := isScanning w; lastFailedAt := lastFailedAt w; now := now w; files := files w; calls := calls w; sent := v; written := written w |}.
Definition set_written v w := {| scanner := scanner w; scannerOpened := scannerOpened w; scanLoopTimer := scanLoopTimer w; isScanning := isScanning w; lastFailedAt := lastFailedAt w; now := now w; files := files w; calls := calls w; sent := sent w; written := v |}.

(** *** Asynchronous code as a computation over the world

    An [async] function either returns, throws (its promise rejects) or
    stays pending for ever on an [await] that never settles. *)

Inductive Res (A : Type) :=
| Ret (a : A) (w : World)
| Throw (message : str) (w : World)
| Hang (w : World).
Arguments Ret {A}.
Arguments Throw {A}.
Arguments Hang {A}.

Definition M (A : Type) : Type := World -> Res A.

Definition ret {A} (a : A) : M A := fun w => Ret a w.

Definition bind {A B} (m : M A) (k : A -> M B) : M B :=
  fun w => match m w with
           | Ret a w' => k a w'
           | Throw e w' => Throw e w'
           | Hang w' => Hang w'
           end.

Definition throw {A} (e : str) : M A := fun w => Throw e w.

(** [try { m } catch (err) { h(err.message) }]. *)
Definition try_catch {A} (m : M A) (h : str -> M A) : M A :=
  fun w => match m w with
           | Ret a w' => Ret a w'
           | Throw e w' => h e w'
           | Hang w' => Hang w'
           end.

Definition get {A} (f : World -> A) : M A := fun w => Ret (f w) w.
Definition modify (f : World -> World) : M unit := fun w => Ret tt (f w).

(** The world a computation leaves behind, however it ends. *)
Definition final {A} (r : Res A) : World :=
  match r with Ret _ w | Throw _ w | Hang w => w end.

Notation "'let*' x ':=' m 'in' k" := (bind m (fun x => k))
  (at level 10, x name, m at level 100, k at level 200).
Notation "m ';;' k" := (bind m (fun _ => k))
  (at level 100, k at level 200, right associativity).

(** *** Clock, timers and the file system *)

Definition Date_now : M Z := get now.

(** [await sleep(ms)]. *)
Definition sleep (ms : Z) : M unit := modify (fun w => set_now (now w + ms) w).

Definition exists_at (w : World) (p : str) : bool :=
  match files w !! p with
  | Some t => t <=? now w
  | None => false
  end.

Definition existsSync (p : str) : M bool := get (fun w => exists_at w p).

(** [fs.unlinkSync(p)]: throws on a missing file. *)
Definition unlinkSync (p : str) : M unit :=
  fun w => if exists_at w p then Ret tt (set_files (delete p (files w)) w)
           else Throw (js "ENOENT") w.

(** [fs.renameSync(src, dst)]. *)
Definition renameSync (src dst : str) : M unit :=
  fun w => if exists_at w src
           then Ret tt (set_files (<[dst := now w]> (delete src (files w))) w)
           else Throw (js "ENOENT") w.

(** [writeUtf8BomFileSync(filePath, content)], lines 196-200. *)
Definition writeUtf8BomFileSync (filePath content : str) : M unit :=
  modify (fun w => set_written (written w ++ [(filePath, 65279%N :: content)])
                     (set_files (<[filePath := now w]> (files w)) w)).

(** [path.join(dir, name)] for a plain file name, on Windows. *)
Definition path_join (dir name : str) : str := dir ++ [92%N] ++ name.

(** The loop of [waitForFileExists], lines 204-208; every round that does
    not return sleeps [intervalMs], so [fuel] rounds carry the clock
    [fuel * intervalMs] further. *)
Fixpoint waitLoop (fuel : nat) (filePath : str) (start timeoutMs intervalMs : Z) : M bool :=
  match fuel with
  | O => fun w => Hang w
  | S fuel' =>
      let* t := Date_now in
      if t - start <? timeoutMs then
        let* e := existsSync filePath in
        if e then ret true
        else sleep intervalMs ;; waitLoop fuel' filePath start timeoutMs intervalMs
      else existsSync filePath
  end.

(** [waitForFileExists(filePath, timeoutMs, intervalMs)]. *)
Definition waitForFileExists (filePath : str) (timeoutMs intervalMs : Z) : M bool :=
  let* start := Date_now in
  waitLoop (S (Z.to_nat (timeoutMs / intervalMs + 1))) filePath start timeoutMs intervalMs.

(** The loop of [uniqueFilePath], lines 216-219, for [fileName = base ++ ext]
    where [ext] is the extension [path.extname] finds. *)
Fixpoint uniqueLoop (fuel : nat) (dir base ext candidate : str) (i : N) : M str :=
  match fuel with
  | O => fun w => Hang w
  | S fuel' =>
      let* e := existsSync candidate in
      if e then
        uniqueLoop fuel' dir base ext (path_join dir (base ++ js "_" ++ of_N i ++ ext)) (i + 1)%N
      else ret candidate
  end.

Definition uniqueFilePath (dir base ext : str) : M str :=
  let* n := get (fun w => size (files w)) in
  uniqueLoop (S (S n)) dir base ext (path_join dir (base ++ ext)) 1%N.

(** [sendToRenderer(channel, data)], lines 498-502. *)
Definition sendToRenderer (m : Message) : M unit :=
  modify (fun w => set_sent (sent w ++ [m]) w).

(** *** Calls into the worker *)

Definition delay (d : Z) (w : World) : World := set_now (now w + Z.max 0 d) w.

(** The rejection message of [withTimeout], line 31. *)
Definition timed_out (label : str) (ms : Z) : str :=
  label ++ js " timed out after " ++ of_N (Z.to_N ms) ++ js "ms".

(** How the awaited promise settles: bare, or raced against the timer of
    [withTimeout(promise, ms, label)] (lines 28-36); the call wins the
    race when it settles strictly before the deadline. *)
Definition settle {A} (deadline : option Z) (label : str) (r : Reply A) : M A :=
  fun w =>
    match deadline, r with
    | None, Resolve d v => Ret v (delay d w)
    | None, Reject d e => Throw e (delay d w)
    | None, Never => Hang w
    | Some ms, Resolve d v =>
        if Z.max 0 d <? ms then Ret v (delay d w) else Throw (timed_out label ms) (delay ms w)
    | Some ms, Reject d e =>
        if Z.max 0 d <? ms then Throw e (delay d w) else Throw (timed_out label ms) (delay ms w)
    | Some ms, Never => Throw (timed_out label ms) (delay ms w)
    end.

(** The driver writes [base.bmp] and [base_IR.bmp] as the scan tells. *)
Definition materialize (p : str) (t : Z) (fs : gmap str Z) : gmap str Z :=
  <[p := match fs !! p with Some t' => Z.min t' t | None => t end]> fs.

Definition stage (base : str) (t0 : Z) (r : Reply ScanResult) (fs : gmap str Z) : gmap str Z :=
  match r with
  | Resolve _ sr =>
      let fs := match bmp_after sr with
                | Some d => materialize (base ++ js ".bmp") (t0 + Z.max 0 d) fs
                | None => fs
                end in
      match ir_after sr with
      | Some d => materialize (base ++ js "_IR.bmp") (t0 + Z.max 0 d) fs
      | None => fs
      end
  | _ => fs
  end.

(** The device boundary and the host functions the model does not look
    into. *)
Record Host := {
  device : Device;
  (* lines 268-277: yyyyMMdd_HHmmss_mmm of the local time *)
  scanStampOf : Z -> str;
  (* formatFileTimestamp(date), lines 504-512 (local time) *)
  formatFileTimestamp : Z -> str;
  (* String(date.getMilliseconds()).padStart(3, '0') *)
  milliseconds : Z -> str;
  (* new Date().toISOString() *)
  toISOString : Z -> str;
  (* JSON.stringify(documentData, null, 2) *)
  stringify : DocumentData -> str
}.

Section Orchestrator.

Variable host : Host.

(** [await scanner.method(...)], optionally inside [withTimeout]. *)
Definition issue {A} (c : Call) (reply : Device -> nat -> Reply A)
    (deadline : option Z) (label : str) : M A :=
  fun w =>
    match scanner w with
    | None => Throw (js "Cannot read properties of null") w
    | Some _ =>
        let r := reply (device host) (length (calls w)) in
        settle deadline label r (set_calls (calls w ++ [(c, deadline)]) w)
    end.

(** [await scanner.scanAuto(tempBase)], line 281: awaited bare.  The
    driver writes the images the reply tells of. *)
Definition call_scanAuto (tempBase : str) : M ScanResult :=
  fun w =>
    match scanner w with
    | None => issue (scanAuto tempBase) dev_scanAuto None [] w
    | Some _ =>
        let r := dev_scanAuto (device host) (length (calls w)) in
        issue (scanAuto tempBase) dev_scanAuto None []
              (set_files (stage tempBase (now w) r (files w)) w)
    end.

(** *** [tryOpenDevice] and [closeDevice], lines 95-129 *)

Definition tryOpenDevice : M bool :=
  let* s := get scanner in
  match s with
  | None => ret false
  | Some _ =>
      let* success :=
        try_catch (issue open dev_open (Some 3000) (js "scanner.open"))
                  (fun _ => ret false) in
      modify (set_scannerOpened success) ;;
      sendToRenderer (scanner_status success None) ;;
      ret success
  end.

Definition closeDevice : M unit :=
  let* s := get scanner in
  match s with
  | None => ret tt
  | Some _ =>
      try_catch (issue close dev_close (Some 2000) (js "scanner.close"))
                (fun _ => ret tt) ;;
      modify (set_scannerOpened false) ;;
      sendToRenderer (scanner_status false None)
  end.

(** *** [performScan], lines 262-493 *)

(** Which exit of [performScan] was taken (the function itself returns
    [undefined] at each of them). *)
Inductive Outcome :=
| Busy             (* line 263 *)
| NoDocument       (* lines 485-488 *)
| Unrecognized     (* lines 376-385 *)
| Saved            (* lines 387-484 *)
| Failed.          (* lines 489-492 *)

(** The [for] loop of lines 318-332: the first valid candidate. *)
Fixpoint mrz_loop (n : nat) : M (option str) :=
  match n with
  | O => ret None
  | S n' =>
      let* r := issue readMRZ dev_readMRZ None [] in
      let candidate := default [] r in
      if isValidPassportMRZ candidate then ret (Some candidate)
      else sleep 300 ;; mrz_loop n'
  end.

(** Lines 346-365: which OCR result is adopted, with its documentId. *)
Definition adopt (license : option DriverLicense) (idCard : option IDCard)
    (alien : option AlienCard) : option (str * DocumentData) :=
  if looksLikeKoreanRRN (id_idNo <$> idCard) then
    c ← idCard; Some (substring 0 6 (remove dash (id_idNo c)), ID_CARD c)
  else if looksLikeDriverLicenseNo (dl_licenseNo <$> license) then
    l ← license; Some (remove dash (dl_licenseNo l), DRIVER_LICENSE l)
  else if looksLikeAlienRegNo (al_alienNo <$> alien) then
    a ← alien; Some (substring 0 6 (remove dash (al_alienNo a)), ALIEN_CARD a)
  else None.

(** The [for] loop of lines 338-368. *)
Fixpoint ocr_loop (n : nat) : M (option (str * DocumentData)) :=
  match n with
  | O => ret None
  | S n' =>
      let* license := issue readDriverLicense dev_readDriverLicense None [] in
      let* idCard := issue readIDCard dev_readIDCard None [] in
      let* alien := issue readAlienCard dev_readAlienCard None [] in
      match adopt license idCard alien with
      | Some r => ret (Some r)
      | None => sleep 250 ;; ocr_loop n'
      end
  end.

(** The variables of lines 309-316 after extraction. *)
Record Extracted := {
  documentId : str;
  documentData : option DocumentData;
  mrzText : str;
  isPassportConfirmed : bool
}.

(** Lines 309-372: MRZ for a passport scan, OCR for a card scan. *)
Definition extract (scanResult : ScanResult) : M Extracted :=
  let* t := Date_now in
  let x := {| documentId := js "UNKNOWN_" ++ of_N (Z.to_N t);
              documentData := None; mrzText := []; isPassportConfirmed := false |} in
  let* x :=
    match type scanResult with
    | passport =>
        let* found := mrz_loop 10 in
        match found with
        | Some candidate =>
            ret {| documentId := default (documentId x) (extractPassportNo candidate);
                   documentData := PASSPORT <$> parseMrzFull candidate;
                   mrzText := candidate;
                   isPassportConfirmed := true |}
        | None => ret x
        end
    | _ => ret x
    end in
  match documentData x, type scanResult, isPassportConfirmed x with
  | None, card, false =>
      let* found := ocr_loop 10 in
      match found with
      | Some (id, data) =>
          ret {| documentId := id; documentData := Some data;
                 mrzText := mrzText x; isPassportConfirmed := isPassportConfirmed x |}
      | None => ret x
      end
  | _, _, _ => ret x
  end.

(** Line 375. *)
Definition recognized (x : Extracted) : bool :=
  (match mrzText x with [] => false | _ => (10 <? length (mrzText x))%nat end)
  || bool_decide (is_Some (documentData x)).

(** Lines 377-384: the silent failure. *)
Definition fail_unrecognized (expectedBmpPath expectedIRPath : str) : M Outcome :=
  let* t := Date_now in
  modify (set_lastFailedAt t) ;;
  try_catch (let* e := existsSync expectedBmpPath in
             if e then unlinkSync expectedBmpPath else ret tt) (fun _ => ret tt) ;;
  try_catch (let* e := existsSync expectedIRPath in
             if e then unlinkSync expectedIRPath else ret tt) (fun _ => ret tt) ;;
  modify (set_isScanning false) ;;
  ret Unrecognized.

(** The class of line 390: control characters, DEL, and the nine
    characters a Windows file name cannot hold (listed by code unit). *)
Definition forbidden (c : N) : bool :=
  is_ctrl c || (c =? 127)%N
  || bool_decide (c ∈ [60; 62; 58; 34; 47; 92; 124; 63; 42]%N).

(** [s.includes(p)]. *)
Fixpoint includes (p s : str) : bool :=
  startsWith p s || match s with [] => false | _ :: s' => includes p s' end.

(** Lines 415-424: rename the staged images found. *)
Fixpoint rename_all (baseFileName : str) (idx : N) (newFiles : list str) : M (list str) :=
  match newFiles with
  | [] => ret []
  | file :: rest =>
      let srcPath := path_join SAVE_FOLDER file in
      let suffix := if includes (js "_IR") file then js "_IR"
                    else if (0 <? idx)%N then js "_" ++ of_N idx else [] in
      let* destPath := uniqueFilePath SAVE_FOLDER (baseFileName ++ suffix) (js ".bmp") in
      renameSync srcPath destPath ;;
      let* saved := rename_all baseFileName (idx + 1)%N rest in
      ret (destPath :: saved)
  end.

Definition text_line (label value : str) : list str :=
  match value with [] => [] | _ => [label ++ value] end.

Fixpoint join_lines (ls : list str) : str :=
  match ls with
  | [] => []
  | [l] => l
  | l :: ls' => l ++ [NL] ++ join_lines ls'
  end.

(** Lines 438-452: the text written for an OCR result. *)
Definition describe (d : DocumentData) : str :=
  join_lines
    match d with
    | PASSPORT _ => [js "[PASSPORT]"]
    | ID_CARD c =>
        [js "[ID_CARD]"]
        ++ text_line [51060; 47492; 58; 32]%N (id_name c)
        ++ text_line [51452; 48124; 48264; 54840; 58; 32]%N (id_idNo c)
        ++ text_line [51452; 49548; 58; 32]%N (id_address c)
        ++ text_line [48156; 44553; 51068; 58; 32]%N (id_issuedDate c)
    | DRIVER_LICENSE l =>
        [js "[DRIVER_LICENSE]"]
        ++ text_line [51060; 47492; 58; 32]%N (dl_name l)
        ++ text_line [51452; 48124; 48264; 54840; 58; 32]%N (dl_idNo l)
        ++ text_line [47732; 54728; 48264; 54840; 58; 32]%N (dl_licenseNo l)
        ++ text_line [47732; 54728; 51333; 47448; 58; 32]%N (dl_licenseType l)
        ++ text_line [51201; 49457; 44592; 44036; 58; 32]%N (dl_validPeriod l)
        ++ text_line [51452; 49548; 58; 32]%N (dl_address l)
        ++ text_line [48156; 44553; 51068; 58; 32]%N (dl_issuedDate l)
    | ALIEN_CARD a =>
        [js "[ALIEN_CARD]"]
        ++ text_line [51060; 47492; 58; 32]%N (al_name a)
        ++ text_line [50808; 44397; 51064; 48264; 54840; 58; 32]%N (al_alienNo a)
        ++ text_line [52404; 47448; 51088; 44201; 58; 32]%N (al_visaType a)
        ++ text_line [51648; 50669; 58; 32]%N (al_area a)
    end.

(** Lines 431-456. *)
Definition textContent (x : Extracted) : str :=
  if match mrzText x with [] => false | _ => (10 <? length (mrzText x))%nat end
  then mrzText x
  else match documentData x with
       | Some d => describe d
       | None => [91; 51064; 49885; 32; 49892; 54056; 93; 10; 47928; 49436; 47484; 32;
                  51064; 49885; 54616; 51648; 32; 47803; 54664; 49845; 45768; 45796; 46]%N
       end.

(** Lines 387-483: store the images and the transcript, notify, pause. *)
Definition save_files (expectedBmp expectedIR : str) (docType : option DocType)
    (x : Extracted) : M unit :=
  let expectedBmpPath := path_join SAVE_FOLDER expectedBmp in
  let expectedIRPath := path_join SAVE_FOLDER expectedIR in
  let documentId := trim (remove forbidden (documentId x)) in
  let* t := Date_now in
  let documentId := if (length documentId <? 2)%nat
                    then js "UNKNOWN_" ++ of_N (Z.to_N t) else documentId in
  let baseFileName :=
    documentId ++ js "_" ++ formatFileTimestamp host t ++ js "_" ++ milliseconds host t in
  let* hasBmp := existsSync expectedBmpPath in
  let* hasIR := existsSync expectedIRPath in
  let newFiles := (if hasBmp then [expectedBmp] else [])
                  ++ (if hasIR then [expectedIR] else []) in
  let* savedImages := rename_all baseFileName 0%N newFiles in
  let* txtPath := uniqueFilePath SAVE_FOLDER baseFileName (js ".txt") in
  writeUtf8BomFileSync txtPath (textContent x) ;;
  match documentData x with
   | Some d =>
       let* jsonPath := uniqueFilePath SAVE_FOLDER baseFileName (js ".json") in
       writeUtf8BomFileSync jsonPath (stringify host d)
   | None => ret tt
   end ;;
  sendToRenderer (scan_result {|
    msg_documentId := documentId;
    msg_documentType := match docType with
                        | Some {| dt_name := (_ :: _) as n |} => n
                        | _ => js "UNKNOWN"
                        end;
    msg_mrz := mrzText x;
    msg_parsed := documentData x;
    msg_imagePath := head savedImages;
    msg_images := savedImages;
    msg_timestamp := toISOString host t |}) ;;
  sleep 1500.

(** Lines 387-484. *)
Definition save (expectedBmp expectedIR : str) (docType : option DocType)
    (x : Extracted) : M Outcome :=
  save_files expectedBmp expectedIR docType x ;;
  modify (set_isScanning false) ;;
  ret Saved.

(** Lines 289-372: wait for the staged images, ask the document type,
    extract. *)
Definition examine (scanStamp : str) (scanResult : ScanResult)
    : M (option DocType * Extracted) :=
  waitForFileExists (path_join SAVE_FOLDER (scanStamp ++ js ".bmp")) 8000 250 ;;
  waitForFileExists (path_join SAVE_FOLDER (scanStamp ++ js "_IR.bmp")) 1500 250 ;;
  sleep 600 ;;
  let* docType := issue getDocumentType dev_getDocumentType None [] in
  let* x := extract scanResult in
  ret (docType, x).

(** Lines 283-488: what follows the scan. *)
Definition after_scan (scanStamp : str) (scanResult : ScanResult) : M Outcome :=
  if success scanResult then
    let expectedBmp := scanStamp ++ js ".bmp" in
    let expectedIR := scanStamp ++ js "_IR.bmp" in
    let* dx := examine scanStamp scanResult in
    if recognized dx.2 then save expectedBmp expectedIR dx.1 dx.2
    else fail_unrecognized (path_join SAVE_FOLDER expectedBmp)
                           (path_join SAVE_FOLDER expectedIR)
  else
    modify (set_isScanning false) ;; ret NoDocument.

(** Lines 267-488: the [try] block. *)
Definition try_block : M Outcome :=
  let* t := Date_now in
  let scanStamp := scanStampOf host t in
  let tempBase := path_join SAVE_FOLDER scanStamp in
  let* scanResult := call_scanAuto tempBase in
  after_scan scanStamp scanResult.

(** Lines 266-492: the [try] block with its [catch]. *)
Definition attempt : M Outcome :=
  try_catch try_block (fun _ => modify (set_isScanning false) ;; ret Failed).

(** Lines 263-264: the guard; tells whether the caller got through. *)
Definition enter : M bool :=
  let* busy := get isScanning in
  if busy then ret false
  else modify (set_isScanning true) ;; ret true.

Definition performScan : M Outcome :=
  let* entered := enter in
  if entered then attempt else ret Busy.

(** *** The automatic loop, lines 162-188 *)

(** The two early returns of the interval callback, lines 168-169. *)
Definition tick_passes (w : World) : bool :=
  negb (bool_decide (scanner w = None) || negb (scannerOpened w) || isScanning w)
  && negb (now w - lastFailedAt w <? FAIL_BACKOFF_MS).

(** The interval callback; [performScan] never rejects, so the [catch]
    of line 172 has nothing to handle.  [None]: returned early. *)
Definition tick : M (option Outcome) :=
  let* pass := get tick_passes in
  if pass then (let* o := performScan in ret (Some o)) else ret None.

Definition startScanLoop : M unit :=
  let* timer := get scanLoopTimer in
  if timer then ret tt else modify (set_scanLoopTimer true).

Definition stopScanLoop : M unit :=
  let* timer := get scanLoopTimer in
  if timer then modify (set_scanLoopTimer false) else ret tt.

(** *** IPC handlers, lines 525-575 *)

(** 'manual-scan': [ok], and the scan it set off; the handler does not
    await it. *)
Definition manual_scan : M (bool * option Outcome) :=
  let* s := get scanner in
  let* opened := get scannerOpened in
  match s with
  | Some _ =>
      if opened then (let* o := performScan in ret (true, Some o))
      else ret (false, None)
  | None => ret (false, None)
  end.

(** [scanner = new ScannerClient()]. *)
Definition new_ScannerClient : M unit :=
  modify (fun w => set_scanner (Some (match scanner w with Some g => S g | None => O end)) w).

(** 'reconnect-scanner', lines 534-562; the result is [ok]. *)
Definition reconnect_scanner : M bool :=
  try_catch closeDevice (fun _ => ret tt) ;;
  sleep 250 ;;
  let* success := try_catch tryOpenDevice (fun _ => ret false) in
  if success then ret true
  else
    try_catch
      (let* s := get scanner in
       match s with
       | Some _ => issue destroy dev_destroy (Some 1500) (js "scanner.destroy")
       | None => ret tt
       end)
      (fun _ => ret tt) ;;
    new_ScannerClient ;;
    let* inited := try_catch (issue init dev_init (Some 3000) (js "scanner.init"))
                             (fun _ => ret false) in
    if inited then try_catch tryOpenDevice (fun _ => ret false)
    else
      modify (set_scannerOpened false) ;;
      sendToRenderer (scanner_status false (Some [68; 76; 76; 32; 47196; 46300; 32; 49892; 54056]%N)) ;;
      ret false.

(** 'start-scan-loop' and 'stop-scan-loop'; the result is [ok]. *)
Definition start_scan_loop : M bool :=
  let* s := get scanner in
  let* opened := get scannerOpened in
  match s with
  | Some _ => if opened then startScanLoop ;; ret true else ret false
  | None => ret false
  end.

Definition stop_scan_loop : M bool := stopScanLoop ;; ret true.

End Orchestrator.

(** *** Interleavings of the event loop

    The main process is single-threaded: a handler runs until it returns
    or reaches an [await].  A scan set off by the timer or by a manual
    request runs [enter] at once and then stays in flight across its
    awaits; other handlers run meanwhile.  Of the globals it writes only
    [isScanning] and [lastFailedAt], and only in the synchronous code of
    its exit, which is one event here. *)

Inductive Event :=
| timer_fires                     (* the interval callback, if the timer is set *)
| manual_scan_requested           (* ipc 'manual-scan' *)
| attempt_ends (o : Outcome)      (* a scan in flight reaches an exit *)
| time_passes (ms : Z)
| loop_started | loop_stopped     (* startScanLoop, stopScanLoop *)
| device_opened (ok : bool)       (* tryOpenDevice settles *)
| device_closed                   (* closeDevice settles *)
| scanner_replaced.               (* new ScannerClient() of the reconnect *)

(** The globals with the scans the event loop holds: [in_flight] counts
    the activations of [performScan] past the guard and not yet at an
    exit, [started] those that ever got past it. *)
Record Sys := { world : World; in_flight : nat; started : nat }.

(** [performScan()] called from a handler: lines 263-264 run at once. *)
Definition call_performScan (s : Sys) : Sys :=
  if isScanning (world s) then s
  else {| world := set_isScanning true (world s);
          in_flight := S (in_flight s); started := S (started s) |}.

(** The writes of each exit of [performScan]. *)
Definition exit_writes (o : Outcome) (w : World) : World :=
  match o with
  | Busy => w
  | Unrecognized => set_isScanning false (set_lastFailedAt (now w) w)
  | NoDocument | Saved | Failed => set_isScanning false w
  end.

Definition on_world (f : World -> World) (s : Sys) : Sys :=
  {| world := f (world s); in_flight := in_flight s; started := started s |}.

Definition step (s : Sys) (e : Event) : Sys :=
  let w := world s in
  match e with
  | timer_fires =>
      if scanLoopTimer w && tick_passes w then call_performScan s else s
  | manual_scan_requested =>
      if bool_decide (scanner w = None) || negb (scannerOpened w) then s
      else call_performScan s
  | attempt_ends o =>
      match in_flight s, o with
      | O, _ | _, Busy => s
      | S n, _ => {| world := exit_writes o w; in_flight := n; started := started s |}
      end
  | time_passes ms => on_world (fun w => set_now (now w + Z.max 0 ms) w) s
  | loop_started => on_world (fun w => if scanLoopTimer w then w else set_scanLoopTimer true w) s
  | loop_stopped => on_world (set_scanLoopTimer false) s
  | device_opened ok => on_world (set_scannerOpened ok) s
  | device_closed => on_world (set_scannerOpened false) s
  | scanner_replaced =>
      on_world (fun w => set_scanner (Some (match scanner w with Some g => S g | None => O end)) w) s
  end.

Definition run (s : Sys) (es : list Event) : Sys := foldl step s es.

(** The main process once the scanner is initialised and the loop set
    (lines 588-595), nothing in flight. *)
Definition idle (w : World) : Sys := {| world := w; in_flight := 0; started := 0 |}.

End Main.

(* ===================================================================== *)
(** ** The scanner client (scanner-client.js, src/lib/mrz-parser.js       *)
(**    lines 212-334): requests to the worker thread                      *)
(* ===================================================================== *)

Module ScannerClient.
Import JS.

(** The commands posted to the worker. *)
Inductive Cmd :=
| c_init | c_open | c_close | c_scanAuto | c_scanCardWithType
| c_getDocumentType | c_readMRZ | c_readIDCard | c_readDriverLicense | c_readAlienCard.

(** The methods of the class; each awaits one [_call]. *)
Inductive Method :=
| m_init | m_open | m_close | m_scanAuto | m_scanCardWithType
| m_getDocumentType | m_readMRZ | m_readIDCard | m_readDriverLicense | m_readAlienCard
| m_destroy.

(** [destroy] starts with [this.close()]. *)
Definition cmd_of (m : Method) : Cmd :=
  match m with
  | m_init => c_init | m_open => c_open | m_close | m_destroy => c_close
  | m_scanAuto => c_scanAuto | m_scanCardWithType => c_scanCardWithType
  | m_getDocumentType => c_getDocumentType | m_readMRZ => c_readMRZ
  | m_readIDCard => c_readIDCard | m_readDriverLicense => c_readDriverLicense
  | m_readAlienCard => c_readAlienCard
  end.

(** What the message handler reads of a worker message: [id] ([None]:
    no message or no id), [__error] with [message] ([Some]: the flag is
    set), [opened] when it is a boolean, and the truth value of [ok]. *)
Record WorkerMsg := {
  msg_id : option N;
  msg_error : option str;
  msg_opened : option bool;
  msg_ok : bool
}.

(** How the promise of a [_call] settled. *)
Inductive Settlement :=
| Resolved (m : WorkerMsg)
| Rejected (message : str).

(** An entry of [_pending]: the promise (numbered in the order of the
    calls) and the method that awaits it. *)
Record Entry := { promise : nat; method : Method }.

(** A [Map] keeps its entries in insertion order, one per key. *)
Definition MapN (V : Type) : Type := list (N * V).

Definition map_get {V} (k : N) (m : MapN V) : option V :=
  snd <$> List.find (fun e => fst e =? k) m.

Fixpoint map_set {V} (k : N) (v : V) (m : MapN V) : MapN V :=
  match m with
  | [] => [(k, v)]
  | (k', v') :: m' => if k' =? k then (k, v) :: m' else (k', v') :: map_set k v m'
  end.

Definition map_delete {V} (k : N) (m : MapN V) : MapN V :=
  List.filter (fun e => negb (fst e =? k)) m.

Record Client := {
  reqId : N;                          (* this._reqId *)
  pending : MapN Entry;               (* this._pending *)
  opened : bool;                      (* this._opened *)
  terminating : bool;                 (* worker.terminate() was called *)
  made : nat;                         (* promises created by _call *)
  posted : list (N * Cmd);            (* postMessage, oldest first *)
  settled : list (nat * Settlement)   (* resolve / reject, oldest first *)
}.

(** [new ScannerClient()]. *)
Definition new : Client := {|
  reqId := 1; pending := []; opened := false; terminating := false;
  made := 0; posted := []; settled := [] |}.

(** [n + 1] on an integer held in a double: exact below 2^53, where the
    sum rounds back to 2^53. *)
Definition succ_double (n : N) : N := if n <? 2 ^ 53 then n + 1 else n.

(** [_call(cmd, args)] as a method issues it. *)
Definition invoke (m : Method) (c : Client) : Client :=
  let id := reqId c in
  {| reqId := succ_double id;
     pending := map_set id {| promise := made c; method := m |} (pending c);
     opened := opened c; terminating := terminating c;
     made := S (made c);
     posted := posted c ++ [(id, cmd_of m)];
     settled := settled c |}.

(** What runs after the awaited [_call] in each method: [open] and
    [close] write [_opened] when it resolved; [destroy] goes on to
    [worker.terminate()] whether its [close] resolved or threw. *)
Definition continue (e : Entry) (s : Settlement) (c : Client) : Client :=
  let opened' :=
    match s, method e with
    | Resolved r, m_open => msg_ok r
    | Resolved _, (m_close | m_destroy) => false
    | _, _ => opened c
    end in
  {| reqId := reqId c; pending := pending c; opened := opened';
     terminating := match method e with m_destroy => true | _ => terminating c end;
     made := made c; posted := posted c;
     settled := settled c ++ [(promise e, s)] |}.

(** The ['message'] listener. *)
Definition on_message (msg : WorkerMsg) (c : Client) : Client :=
  match msg_id msg with
  | None => c
  | Some id =>
      match map_get id (pending c) with
      | None => c
      | Some e =>
          let c := {| reqId := reqId c; pending := map_delete id (pending c);
                      opened := opened c; terminating := terminating c;
                      made := made c; posted := posted c; settled := settled c |} in
          match msg_error msg with
          | Some text =>
              continue e (Rejected (match text with [] => js "Worker error" | _ => text end)) c
          | None =>
              let c := {| reqId := reqId c; pending := pending c;
                          opened := default (opened c) (msg_opened msg);
                          terminating := terminating c;
                          made := made c; posted := posted c; settled := settled c |} in
              continue e (Resolved msg) c
          end
      end
  end.

(** Reject every pending request, in the order of the map, and clear it. *)
Definition fail_all (message : str) (c : Client) : Client :=
  foldl (fun c e => continue e.2 (Rejected message) c)
        {| reqId := reqId c; pending := []; opened := opened c;
           terminating := terminating c; made := made c; posted := posted c;
           settled := settled c |}
        (pending c).

(** The ['error'] and ['exit'] listeners. *)
Definition on_error (message : str) (c : Client) : Client := fail_all message c.

Definition on_exit (code : Z) (c : Client) : Client :=
  if (code =? 0)%Z then c
  else fail_all (js "Scanner worker exited with code " ++ num_to_str (Some code)) c.

Inductive Event :=
| invoked (m : Method)
| message (msg : WorkerMsg)
| worker_error (message : str)
| worker_exit (code : Z).

Definition step (c : Client) (e : Event) : Client :=
  match e with
  | invoked m => invoke m c
  | message msg => on_message msg c
  | worker_error t => on_error t c
  | worker_exit code => on_exit code c
  end.

Definition run (es : list Event) : Client := foldl step new es.

End ScannerClient.

(* ===================================================================== *)
(** ** The USB monitor (usb-monitor.js, src/lib/scanner.js lines          *)
(**    698-871), polling path                                             *)
(* ===================================================================== *)

Module UsbMonitor.

(** The events the monitor emits. *)
Inductive Emitted := connected | disconnected.

(** The monitor as src/main.js builds it: no [vendorId], so [start]
    takes the polling path whether or not usb-detection is installed.
    [has_checkDevice] tells whether a [checkDevice] callback was given. *)
Record Options := { has_checkDevice : bool }.

Record Monitor := {
  isMonitoring : bool;
  pollInterval : bool;            (* the interval is set *)
  lastConnected : bool;
  emitted : list Emitted          (* oldest first *)
}.

(** [new UsbMonitor(options)]. *)
Definition new : Monitor :=
  {| isMonitoring := false; pollInterval := false; lastConnected := false; emitted := [] |}.

(** [start()] with [_startPollingMonitoring()]. *)
Definition start (o : Options) (m : Monitor) : Monitor :=
  if isMonitoring m then m
  else
    {| isMonitoring := true;
       pollInterval := if has_checkDevice o then true else pollInterval m;
       lastConnected := lastConnected m; emitted := emitted m |}.

(** [stop()]. *)
Definition stop (m : Monitor) : Monitor :=
  if isMonitoring m then
    {| isMonitoring := false; pollInterval := false;
       lastConnected := lastConnected m; emitted := emitted m |}
  else m.

(** One round of the interval callback of [_startPollingMonitoring], with
    the boolean [checkDevice()] gave. *)
Definition poll (isConnected : bool) (m : Monitor) : Monitor :=
  if bool_decide (isConnected <> lastConnected m) then
    {| isMonitoring := isMonitoring m; pollInterval := pollInterval m;
       lastConnected := isConnected;
       emitted := emitted m ++ [if isConnected then connected else disconnected] |}
  else m.

Inductive Event :=
| started
| stopped
| interval_fires (checkDevice : bool).

(** The interval callback runs only while the interval is set. *)
Definition step (o : Options) (m : Monitor) (e : Event) : Monitor :=
  match e with
  | started => start o m
  | stopped => stop m
  | interval_fires b => if pollInterval m then poll b m else m
  end.

Definition run (o : Options) (es : list Event) : Monitor := foldl (step o) new es.

(** The readings of the rounds of [es]. *)
Definition readings (es : list Event) : list bool :=
  omap (fun e => match e with interval_fires b => Some b | _ => None end) es.

End UsbMonitor.

(* ===================================================================== *)
(** ** The DLL wrapper (src/lib/scanner.js, lines 1-599)                  *)
(* ===================================================================== *)

Module Scanner.
Import JS.

(** *** Strings the DLL hands over *)

(** [for (i...) if (buffer[i] === 0) { nullIndex = i; break; }], -1 when
    no byte is null. *)
Fixpoint nullIndex_from (i : Z) (buffer : list N) : Z :=
  match buffer with
  | [] => (-1)%Z
  | b :: rest => if b =? 0 then i else nullIndex_from (i + 1)%Z rest
  end.

Section Decode.

(** [iconv.decode(data, 'cp949')]; [None]: it throws. *)
Variable iconv_decode : list N -> option str.

(** [decodeCP949(buffer)]; [None] is a missing buffer. *)
Definition decodeCP949 (buffer : option (list N)) : str :=
  match buffer with
  | None => []
  | Some [] => []
  | Some buffer =>
      let nullIndex := nullIndex_from 0 buffer in
      if (nullIndex =? 0)%Z then []
      else
        let data := if (0 <? nullIndex)%Z then take (Z.to_nat nullIndex) buffer else buffer in
        match data with
        | [] => []
        | _ =>
            match iconv_decode data with
            | Some decoded => remove (N.eqb 0) (trim decoded)
            | None => []
            end
        end
  end.

End Decode.

(** *** The device *)

(** A call into the DLL returns or throws. *)
Inductive Native (A : Type) :=
| Returns (a : A)
| Raises.
Arguments Returns {A}.
Arguments Raises {A}.

(** The bytes [QuantA6_GetSensorValueExt] leaves: its result and the four
    flags it wrote. *)
Record SensorBytes := {
  sb_result : N; sb_left : N; sb_mid : N; sb_right : N; sb_cover : N
}.

(** The DLL as the wrapper sees it: whether [lib] is loaded, and what each
    bound function does, given the number of native calls made before
    ([None]: [safeFunc] gave [null]). *)
Record Dll := {
  loaded : bool;
  DeviceOpen : option (nat -> Native N);
  DeviceClose : option (nat -> Native bool);
  SetDpi : option (nat -> Native bool);
  SetBits : option (nat -> Native bool);
  GetSensorValueExt : option (nat -> Native SensorBytes);
  DefaultSetting : option (nat -> Native unit);
  ScanCard : option (nat -> Native N);
  Scan : option (nat -> Native N)
}.

Inductive NativeCall :=
| call_DeviceOpen
| call_DeviceClose
| call_SetDpi (nDpi : N)
| call_SetBits (nBits : N)
| call_GetSensorValueExt
| call_DefaultSetting
| call_ScanCard (pImageFileName : str) (nType : N)
| call_Scan (pImageFileName : str) (nType : N).

Record State := {
  isOpen : bool;                 (* this.isOpen *)
  trace : list NativeCall        (* native calls made, oldest first *)
}.

(** [functions.f(...)]: [functions] is empty until the DLL is loaded, and
    calling what is not a function throws before anything is called. *)
Definition native {A} (d : Dll) (f : Dll -> option (nat -> Native A)) (c : NativeCall)
    (s : State) : Native A * State :=
  match (if loaded d then f d else None) with
  | None => (Raises, s)
  | Some g => (g (length (trace s)), {| isOpen := isOpen s; trace := trace s ++ [c] |})
  end.

Definition set_isOpen (b : bool) (s : State) : State :=
  {| isOpen := b; trace := trace s |}.

(** [new Scanner()]. *)
Definition new : State := {| isOpen := false; trace := [] |}.

(** [open(hwnd)]: 0x00 and 0xC7 are failures, any other code is a
    success.  The window handle is handed to the DLL as it is. *)
Definition open (d : Dll) (s : State) : bool * State :=
  if negb (loaded d) then (false, s)
  else
    match native d DeviceOpen call_DeviceOpen s with
    | (Returns result, s) =>
        if negb (result =? 0) && negb (result =? 199) then
          let s := set_isOpen true s in
          match native d SetDpi (call_SetDpi 3) s with
          | (Returns _, s) =>
              match native d SetBits (call_SetBits 32) s with
              | (Returns _, s) => (true, s)
              | (Raises, s) => (false, s)
              end
          | (Raises, s) => (false, s)
          end
        else (false, set_isOpen false s)
    | (Raises, s) => (false, s)
    end.

(** [close()]. *)
Definition close (d : Dll) (s : State) : State :=
  if negb (isOpen s) then s
  else
    match native d DeviceClose call_DeviceClose s with
    | (Returns _, s) => set_isOpen false s
    | (Raises, s) => s
    end.

(** [resetState()]. *)
Definition resetState (d : Dll) (s : State) : State :=
  if negb (loaded d) then s
  else (native d DefaultSetting call_DefaultSetting s).2.

(** [scan(outputPath)]. *)
Definition scan (d : Dll) (outputPath : str) (s : State) : bool * State :=
  if negb (isOpen s) then (false, s)
  else
    match native d Scan (call_Scan outputPath 0) s with
    | (Returns result, s) => (result =? 0, s)
    | (Raises, s) => (false, s)
    end.

(** [scanCard(outputPath)]. *)
Definition scanCard (d : Dll) (outputPath : str) (s : State) : bool * State :=
  if negb (isOpen s) then (false, s)
  else
    match native d ScanCard (call_ScanCard outputPath 0) s with
    | (Returns result, s) => (result =? 0, s)
    | (Raises, s) => (false, s)
    end.

Record Sensors := { left : bool; mid : bool; right : bool; cover : bool }.

(** [getSensorValue()]; [None] is [null]. *)
Definition getSensorValue (d : Dll) (s : State) : option Sensors * State :=
  match (if loaded d then GetSensorValueExt d else None) with
  | None => (None, s)
  | Some _ =>
      match native d GetSensorValueExt call_GetSensorValueExt s with
      | (Returns b, s') =>
          if sb_result b =? 0 then (None, s')
          else (Some {| left := negb (sb_left b =? 0); mid := negb (sb_mid b =? 0);
                        right := negb (sb_right b =? 0); cover := negb (sb_cover b =? 0) |},
                s')
      | (Raises, s') => (None, s')
      end
  end.

Inductive DocKind := passport | card | none.

Record Detection := { hasDocument : bool; det_type : DocKind; det_cover : bool }.

(** [detectDocumentType()]. *)
Definition detectDocumentType (d : Dll) (s : State) : Detection * State :=
  match getSensorValue d s with
  | (None, s') => ({| hasDocument := false; det_type := none; det_cover := false |}, s')
  | (Some sensors, s') =>
      if cover sensors then
        ({| hasDocument := false; det_type := none; det_cover := true |}, s')
      else if left sensors && mid sensors then
        if right sensors then
          ({| hasDocument := true; det_type := passport; det_cover := false |}, s')
        else
          ({| hasDocument := true; det_type := card; det_cover := false |}, s')
      else ({| hasDocument := false; det_type := none; det_cover := false |}, s')
  end.

(** What [scanAuto] returns: [{ success, type, cardType }]. *)
Record AutoResult := { success : bool; type : DocKind; cardType : option N }.

Definition failed : AutoResult := {| success := false; type := none; cardType := None |}.

(** [scanAuto(outputPath)]. *)
Definition scanAuto (d : Dll) (outputPath : str) (s : State) : AutoResult * State :=
  if negb (isOpen s) then (failed, s)
  else
    let (detection, s) := detectDocumentType d s in
    if det_cover detection || negb (hasDocument detection) then (failed, s)
    else
      (* try { functions.DefaultSetting(); } catch (_) { } *)
      let (_, s) := native d DefaultSetting call_DefaultSetting s in
      match det_type detection with
      | card =>
          match native d ScanCard (call_ScanCard outputPath 0) s with
          | (Returns result, s) =>
              if result =? 0 then ({| success := true; type := card; cardType := Some 0 |}, s)
              else (failed, s)
          | (Raises, s) => (failed, s)
          end
      | _ =>
          match native d Scan (call_Scan outputPath 0) s with
          | (Returns result, s) =>
              if result =? 0 then ({| success := true; type := passport; cardType := None |}, s)
              else (failed, s)
          | (Raises, s) => (failed, s)
          end
      end.

(** [scanCardWithType(outputPath, nType)]: the code the DLL gave, 0xf8
    when the device is not open; [Raises]: it throws. *)
Definition scanCardWithType (d : Dll) (outputPath : str) (nType : N) (s : State)
    : Native N * State :=
  if negb (isOpen s) then (Returns 248, s)
  else native d ScanCard (call_ScanCard outputPath nType) s.

(** The methods that read or write [isOpen] or call the functions above.
    The readers of MRZ and OCR text ([readMRZ], [readIDCard], ...) are left
    out: they neither read nor write [isOpen] and call none of these
    functions. *)
Inductive Method :=
| m_open
| m_close
| m_resetState
| m_scan (outputPath : str)
| m_scanCard (outputPath : str)
| m_scanCardWithType (outputPath : str) (nType : N)
| m_getSensorValue
| m_detectDocumentType
| m_scanAuto (outputPath : str).

Definition step (d : Dll) (s : State) (m : Method) : State :=
  match m with
  | m_open => (open d s).2
  | m_close => close d s
  | m_resetState => resetState d s
  | m_scan p => (scan d p s).2
  | m_scanCard p => (scanCard d p s).2
  | m_scanCardWithType p n => (scanCardWithType d p n s).2
  | m_getSensorValue => (getSensorValue d s).2
  | m_detectDocumentType => (detectDocumentType d s).2
  | m_scanAuto p => (scanAuto d p s).2
  end.

Definition run (d : Dll) (ms : list Method) : State := foldl (step d) new ms.

End Scanner.

(* ===================================================================== *)
(** ** Notions the properties are stated with                             *)
(* ===================================================================== *)

Module Notions.
Import JS MrzParser Main.

Local Open Scope Z_scope.

(** *** MRZ *)

(** Right-pad to 44 and truncate to 44. *)
Definition fit44 (s : str) : str := take 44 (padEnd 44 FILLER s).

(** The first position at which "1-2 letters followed by 5 or more
    digits" matches. *)
Fixpoint first_signature (s : str) : option nat :=
  match s with
  | [] => None
  | _ :: s' => if signature_at s then Some 0%nat else S <$> first_signature s'
  end.

(** normalize as the specification words it, on the cleaned
    newline-delimited segments: with two or more segments the first two,
    padded and truncated to 44; else the concatenation is split at 44/88
    when it has 88 characters or more, at the first match of the signature
    when it has 44 to 87 and a match is found, else at a naive 44-character
    boundary; under 44 characters it fails.  Every line has exactly 44
    characters. *)
Definition normalize_as_specified (segments : list str) : option lines :=
  match segments with
  | s1 :: s2 :: _ => Some (Lines (fit44 s1) (fit44 s2))
  | _ =>
      let c := concat segments in
      if (88 <=? length c)%nat then Some (Lines (take 44 c) (take 44 (drop 44 c)))
      else if (44 <=? length c)%nat then
        match first_signature c with
        | Some k => Some (Lines (fit44 (take k c)) (fit44 (drop k c)))
        | None => Some (Lines (fit44 (take 44 c)) (fit44 (drop 44 c)))
        end
      else None
  end.

(** The two characters of a two-digit year. *)
Definition two_digits (y : N) : str := [48 + y / 10; 48 + y mod 10]%N.

(** *** Validators *)

(** A resident registration number: thirteen digits, with or without one
    '-' after the sixth. *)
Definition rrn_shape (s : str) : Prop :=
  exists a b, length a = 6%nat /\ length b = 7%nat /\
    forallb is_digit a = true /\ forallb is_digit b = true /\
    (s = a ++ b \/ s = a ++ [45%N] ++ b).

(** The number test that let an OCR result through (lines 347-361). *)
Definition validator_accepts (d : DocumentData) : bool :=
  match d with
  | PASSPORT _ => false
  | ID_CARD c => looksLikeKoreanRRN (Some (id_idNo c))
  | DRIVER_LICENSE l => looksLikeDriverLicenseNo (Some (dl_licenseNo l))
  | ALIEN_CARD a => looksLikeAlienRegNo (Some (al_alienNo a))
  end.

(** *** What a computation changes *)

(** The calls a scan issues, each awaited bare. *)
Definition attempt_call (c : Issued) : Prop :=
  c.2 = None /\
  match c.1 with
  | scanAuto _ | getDocumentType | readMRZ
  | readIDCard | readDriverLicense | readAlienCard => True
  | _ => False
  end.

Definition is_scan_result (m : Message) : Prop :=
  match m with scan_result _ => True | _ => False end.

(** What a scan may touch from start to end: the clock, the trace of calls
    (by calls of its own only) and the messages (by results only); never
    the worker, the connection flag or the loop timer. *)
Record footprint (w w' : World) : Prop := {
  fp_scanner : scanner w' = scanner w;
  fp_opened : scannerOpened w' = scannerOpened w;
  fp_timer : scanLoopTimer w' = scanLoopTimer w;
  fp_now : now w <= now w';
  fp_calls : exists cs, calls w' = calls w ++ cs /\ Forall attempt_call cs;
  fp_sent : exists ms, sent w' = sent w ++ ms /\ Forall is_scan_result ms
}.

(** ... before an exit: the busy flag and the backoff stamp stay. *)
Definition track (w w' : World) : Prop :=
  footprint w w' /\ lastFailedAt w' = lastFailedAt w /\ isScanning w' = isScanning w.

(** ... while it only talks to the device and waits. *)
Definition quiet (w w' : World) : Prop :=
  track w w' /\ files w' = files w /\ sent w' = sent w /\ written w' = written w.

(** Only the clock moved. *)
Definition later (w w' : World) : Prop := exists t, now w <= t /\ w' = set_now t w.

(** The [n]-th call, an [open], yields [true] within its 3 s. *)
Definition opens (h : Host) (n : nat) : bool :=
  match dev_open (device h) n with
  | Resolve d true => Z.max 0 d <? 3000
  | _ => false
  end.

(** [m] relates every world to the one it leaves, however it ends. *)
Definition preserves (R : World -> World -> Prop) {A} (m : M A) : Prop :=
  forall w, R w (final (m w)).

Definition returns {A} (m : M A) : Prop :=
  forall w, exists a w', m w = Ret a w'.

(** [m] ends, by returning or by throwing: it is never left pending. *)
Definition ends {A} (m : M A) : Prop :=
  forall w, match m w with Hang _ => False | _ => True end.

(** The device settles each of the calls a scan awaits. *)
Record responsive (d : Device) : Prop := {
  settles_scanAuto : forall n, dev_scanAuto d n <> Never;
  settles_getDocumentType : forall n, dev_getDocumentType d n <> Never;
  settles_readMRZ : forall n, dev_readMRZ d n <> Never;
  settles_readDriverLicense : forall n, dev_readDriverLicense d n <> Never;
  settles_readIDCard : forall n, dev_readIDCard d n <> Never;
  settles_readAlienCard : forall n, dev_readAlienCard d n <> Never
}.

(** The name [uniqueFilePath] tries with counter [i], line 218. *)
Definition numbered (dir base ext : str) (i : N) : str :=
  path_join dir (base ++ js "_" ++ of_N i ++ ext).

(** The world in which a computation that does not return is left. *)
Definition stuck {A} (r : Res A) : option World :=
  match r with Ret _ _ => None | Throw _ w | Hang w => Some w end.

(** The trace of calls [m] leaves begins with [pre]. *)
Definition reaches {A} (pre : list Issued) (m : M A) (w : World) : Prop :=
  exists cs, calls (final (m w)) = pre ++ cs.

(** The busy flag mirrors the scans in flight. *)
Definition busy_matches (s : Sys) : Prop :=
  in_flight s = (if isScanning (world s) then 1 else 0)%nat.

(** *** The MRZ alphabet and the fields of a parsed MRZ *)

Local Open Scope N_scope.

(** The MRZ alphabet: A-Z, 0-9 and the filler. *)
Definition mrz_char (c : N) : bool := is_upper c || is_digit c || (c =? FILLER).

(** A letter or a digit of the MRZ alphabet. *)
Definition alnum (c : N) : bool := is_upper c || is_digit c.

(** A letter, a digit or a space. *)
Definition name_char (c : N) : bool := alnum c || (c =? 32).

(** The year [formatMrzDate] prints for a field that starts with [c]:
    NaN when [c] is no digit, else a year from 1951 to 2050. *)
Definition year_text (c : N) (y : str) : Prop :=
  (is_digit c = false /\ y = js "NaN") \/
  (is_digit c = true /\ exists n, 1951 <= n <= 2050 /\ y = of_N n).

Local Open Scope Z_scope.

(** *** The shapes of the card numbers *)

(** A driving-licence number: dd-dd-dddddd-dd. *)
Definition licence_shape (s : str) : Prop :=
  exists a b c d,
    length a = 2%nat /\ length b = 2%nat /\ length c = 6%nat /\ length d = 2%nat /\
    forallb is_digit a = true /\ forallb is_digit b = true /\
    forallb is_digit c = true /\ forallb is_digit d = true /\
    s = a ++ [45%N] ++ b ++ [45%N] ++ c ++ [45%N] ++ d.

(** An alien registration number: a resident registration number whose
    seventh digit is 5, 6, 7 or 8. *)
Definition alien_shape (s : str) : Prop :=
  exists a e b,
    length a = 6%nat /\ length b = 6%nat /\
    forallb is_digit a = true /\ digit58 e = true /\ forallb is_digit b = true /\
    (s = a ++ e :: b \/ s = a ++ [45%N] ++ e :: b).

(** *** File names and device calls *)

(** The [k]-th name tried: the plain one, then the numbered ones from 1. *)
Definition candidate (dir base ext : str) (k : nat) : str :=
  match k with
  | O => path_join dir (base ++ ext)
  | S k' => numbered dir base ext (1 + N.of_nat k')
  end.

(** [m] issues at most [n] calls, all awaited bare and all in the class
    [P], however it ends. *)
Definition within (P : Call -> Prop) (n : nat) {A} (m : M A) : Prop :=
  forall w, exists cs, calls (final (m w)) = calls w ++ cs /\
    Forall (fun c : Issued => P c.1 /\ c.2 = None) cs /\ (length cs <= n)%nat.

(** The three OCR getters. *)
Definition ocr_getter (c : Call) : Prop :=
  c = readDriverLicense \/ c = readIDCard \/ c = readAlienCard.

(** What a scan of each type may call once the images are staged. *)
Definition extraction_call (t : ScanType) (c : Call) : Prop :=
  c = getDocumentType \/
  match t with
  | passport => c = readMRZ
  | card => ocr_getter c
  | none => False
  end.

End Notions.

(* ===================================================================== *)
(** ** Notions for the scanner client, the USB monitor and the wrapper    *)
(* ===================================================================== *)

Module ScannerClientNotions.
Import ScannerClient.

(** The promises of the pending requests, in map order. *)
Definition pending_promises (c : Client) : list nat := (fun e => promise e.2) <$> pending c.

(** The promises settled so far, oldest first. *)
Definition settled_promises (c : Client) : list nat := fst <$> settled c.

(** The methods invoked by a sequence of events, in order: the [k]-th is
    the one that awaits promise [k]. *)
Definition methods (es : list Event) : list Method :=
  omap (fun e => match e with invoked m => Some m | _ => None end) es.

Definition is_destroy (m : Method) : bool :=
  match m with m_destroy => true | _ => false end.

(** What holds of the client after any sequence of events that stays
    below 2^53 requests. *)
Record inv (es : list Event) (c : Client) : Prop := {
  inv_reqId : reqId c = N.of_nat (made c) + 1;
  inv_made : made c = length (methods es);
  inv_keys : Forall (fun e => e.1 = N.of_nat (promise e.2) + 1) (pending c);
  inv_methods : Forall (fun e => methods es !! promise e.2 = Some (method e.2)) (pending c);
  inv_posted : posted c = imap (fun k m => (N.of_nat k + 1, cmd_of m)) (methods es);
  inv_account : pending_promises c ++ settled_promises c ≡ₚ seq 0 (made c);
  inv_term : terminating c = true <->
             exists k, methods es !! k = Some m_destroy /\ k ∈ settled_promises c
}.

End ScannerClientNotions.

Module UsbMonitorNotions.
Import UsbMonitor.

(** The [i]-th event of an alternating sequence that starts with
    [connected]. *)
Definition turn (i : nat) : Emitted := if Nat.even i then connected else disconnected.

(** What holds of the monitor after any sequence of events. *)
Record alternating (m : Monitor) : Prop := {
  alt_turn : forall i e, emitted m !! i = Some e -> e = turn i;
  alt_last : lastConnected m = Nat.odd (length (emitted m));
  alt_poll : pollInterval m = true -> isMonitoring m = true
}.

End UsbMonitorNotions.

Module ScannerNotions.
Import Scanner.

Definition is_scan (c : NativeCall) : bool :=
  match c with
  | call_ScanCard _ _ | call_Scan _ _ => true
  | _ => false
  end.

(** The bound function a scan call goes to. *)
Definition scan_function (d : Dll) (c : NativeCall) : option (nat -> Native N) :=
  match c with
  | call_ScanCard _ _ => ScanCard d
  | call_Scan _ _ => Scan d
  | _ => None
  end.

Definition kind_of (c : NativeCall) : DocKind :=
  match c with
  | call_ScanCard _ _ => card
  | call_Scan _ _ => passport
  | _ => none
  end.

(** What the [i]-th native call, [c], did to the device: [Some true]
    when it opened it ([QuantA6_DeviceOpen] gave a code other than 0x00
    and 0xC7), [Some false] when it left it closed ([QuantA6_DeviceOpen]
    gave one of these, or [QuantA6_DeviceClose] returned), [None] when it
    is another call or it threw. *)
Definition effect (d : Dll) (i : nat) (c : NativeCall) : option bool :=
  match c with
  | call_DeviceOpen =>
      match DeviceOpen d with
      | Some f =>
          match f i with
          | Returns result => Some (negb (result =? 0) && negb (result =? 199))
          | Raises => None
          end
      | None => None
      end
  | call_DeviceClose =>
      match DeviceClose d with
      | Some f => match f i with Returns _ => Some false | Raises => None end
      | None => None
      end
  | _ => None
  end.

(** Whether the device is open after the calls [tr], the first of which
    is the [i]-th, when it was [b] before. *)
Fixpoint opened_from (d : Dll) (i : nat) (b : bool) (tr : list NativeCall) : bool :=
  match tr with
  | [] => b
  | c :: tr => opened_from d (S i) (default b (effect d i c)) tr
  end.

Definition opened_by (d : Dll) (tr : list NativeCall) : bool := opened_from d 0 false tr.

(** [isOpen] tells what the DLL was last told, and every scan call was
    made on an open device. *)
Record guarded (d : Dll) (s : State) : Prop := {
  guarded_isOpen : isOpen s = opened_by d (trace s);
  guarded_scans : forall pre c post,
    trace s = pre ++ c :: post -> is_scan c = true -> opened_by d pre = true
}.

End ScannerNotions.

(* ===================================================================== *)
(** ** Concrete inputs                                                     *)
(* ===================================================================== *)

Module Examples.
Import JS MrzParser Main.

Local Open Scope Z_scope.

(** The ICAO 9303 specimen. *)
Definition specimen_line1 : str := js "P<UTOERIKSSON<<ANNA<MARIA<<<<<<<<<<<<<<<<<<<".
Definition specimen_line2 : str := js "L898902C<3UTO6908061F9406236ZE184226B<<<<<10".

(** 57 characters, the signature matching at position 0. *)
Definition signature_first : str := js "AB12345" ++ replicate 50 FILLER.
(** 58 characters, the signature matching at position 2. *)
Definition signature_third : str := js "P<A12345" ++ replicate 50 FILLER.
(** Two short lines. *)
Definition two_short_lines : str := js "ABC" ++ [NL] ++ js "DEF".

(** An ID card read with a name and no number. *)
Definition kim : IDCard :=
  {| id_idNo := []; id_name := js "KIM"; id_address := []; id_issuedDate := [] |}.

Definition card_scanned : ScanResult :=
  {| success := true; type := card; cardType := Some 0;
     bmp_after := Some 500; ir_after := Some 700 |}.

Definition UNKNOWN : DocType := {| dt_type := 0; dt_name := js "UNKNOWN" |}.

(** A card lies on the scanner; its type is not detected and OCR reads
    nothing. *)
Definition unknown_card : Device := {|
  dev_init := fun _ => Resolve 10 true;
  dev_open := fun _ => Resolve 10 true;
  dev_close := fun _ => Resolve 10 tt;
  dev_destroy := fun _ => Resolve 10 tt;
  dev_scanAuto := fun _ => Resolve 1000 card_scanned;
  dev_getDocumentType := fun _ => Resolve 5 (Some UNKNOWN);
  dev_readMRZ := fun _ => Resolve 5 None;
  dev_readIDCard := fun _ => Resolve 5 None;
  dev_readDriverLicense := fun _ => Resolve 5 None;
  dev_readAlienCard := fun _ => Resolve 5 None
|}.

(** Every scan is rejected with a timeout message after 12 s. *)
Definition timing_out : Device := {|
  dev_init := fun _ => Resolve 10 true;
  dev_open := fun _ => Resolve 10 true;
  dev_close := fun _ => Resolve 10 tt;
  dev_destroy := fun _ => Resolve 10 tt;
  dev_scanAuto := fun _ => Reject 12000 (timed_out (js "scanner.scanAuto") 12000);
  dev_getDocumentType := fun _ => Resolve 5 None;
  dev_readMRZ := fun _ => Resolve 5 None;
  dev_readIDCard := fun _ => Resolve 5 None;
  dev_readDriverLicense := fun _ => Resolve 5 None;
  dev_readAlienCard := fun _ => Resolve 5 None
|}.

(** The native scan call never comes back. *)
Definition wedged : Device := {|
  dev_init := fun _ => Resolve 10 true;
  dev_open := fun _ => Resolve 10 true;
  dev_close := fun _ => Resolve 10 tt;
  dev_destroy := fun _ => Resolve 10 tt;
  dev_scanAuto := fun _ => Never;
  dev_getDocumentType := fun _ => Never;
  dev_readMRZ := fun _ => Never;
  dev_readIDCard := fun _ => Never;
  dev_readDriverLicense := fun _ => Never;
  dev_readAlienCard := fun _ => Never
|}.

Definition decimal (t : Z) : str := of_N (Z.to_N t).

Definition host_of (d : Device) : Host := {|
  device := d;
  scanStampOf := decimal; formatFileTimestamp := decimal;
  milliseconds := decimal; toISOString := decimal;
  stringify := fun _ => js "{}"
|}.

(** The scanner is open, nothing is in flight; the loop is off, or on. *)
Definition w_open : World := {|
  scanner := Some 0%nat; scannerOpened := true; scanLoopTimer := false;
  isScanning := false; lastFailedAt := 0; now := 100000;
  files := ∅; calls := []; sent := []; written := [] |}.

Definition w_loop : World := set_scanLoopTimer true w_open.

(** Three rounds of the automatic loop, half a second apart. *)
Definition three_ticks (h : Host) : M (option Outcome) :=
  tick h ;; sleep 500 ;; tick h ;; sleep 500 ;; tick h.

(** Two reconnect requests, one right after the other. *)
Definition two_reconnects (h : Host) : M bool :=
  reconnect_scanner h ;; reconnect_scanner h.

Definition is_scanAuto (c : Issued) : bool :=
  match c with (scanAuto _, None) => true | _ => false end.

Definition is_ocr_getter (c : Issued) : bool :=
  match c with
  | (readIDCard, _) | (readDriverLicense, _) | (readAlienCard, _) => true
  | _ => false
  end.

(** A scan is in flight. *)
Definition w_busy : World := set_isScanning true w_loop.

(** The card has just been scanned: the driver is writing the images. *)
Definition stamp0 : str := decimal 100000.
Definition w_scanned : World :=
  final (call_scanAuto (host_of unknown_card) (path_join SAVE_FOLDER stamp0) w_busy).

(** Ticks and manual requests around one scan. *)
Definition some_events : list Event :=
  [timer_fires; manual_scan_requested; timer_fires; time_passes 700;
   manual_scan_requested; attempt_ends Saved; timer_fires; manual_scan_requested].

(** Two manual requests while the first scan is in flight. *)
Definition two_requests_in_flight : list Event :=
  [manual_scan_requested; manual_scan_requested; manual_scan_requested;
   attempt_ends Saved; time_passes 50; time_passes 1000].

(** The specimen as a device hands it over, the lines ended by CR LF. *)
Definition specimen_raw : str := specimen_line1 ++ [13%N; NL] ++ specimen_line2.

(** An ID card read with a resident registration number. *)
Definition hong : IDCard :=
  {| id_idNo := js "900101-1234567"; id_name := js "HONG"; id_address := [];
     id_issuedDate := [] |}.

(** Nothing was read. *)
Definition nothing_read : Extracted :=
  {| documentId := []; documentData := None; mrzText := []; isPassportConfirmed := false |}.

(** A scan that failed. *)
Definition scan_failed : ScanResult :=
  {| success := false; type := none; cardType := None;
     bmp_after := None; ir_after := None |}.

End Examples.

Module ScannerClientExamples.
Import JS ScannerClient.

(** The worker answers request [id]. *)
Definition answer (id : N) : WorkerMsg :=
  {| msg_id := Some id; msg_error := None; msg_opened := None; msg_ok := true |}.

(** The device is opened, then the client is destroyed while a scan is
    still awaited. *)
Definition client_events : list Event :=
  [invoked m_open; message (answer 1); invoked m_scanAuto; invoked m_destroy;
   message (answer 3)].

End ScannerClientExamples.

Module UsbMonitorExamples.
Import UsbMonitor.

(** No [checkDevice] callback was given. *)
Definition no_callback : Options := {| has_checkDevice := false |}.

End UsbMonitorExamples.

Module ScannerExamples.
Import JS Scanner.

(** A card lies on the glass, the cover is closed and every call
    succeeds. *)
Definition card_on_glass : Dll := {|
  loaded := true;
  DeviceOpen := Some (fun _ => Returns 1);
  DeviceClose := Some (fun _ => Returns true);
  SetDpi := Some (fun _ => Returns true);
  SetBits := Some (fun _ => Returns true);
  GetSensorValueExt := Some (fun _ =>
    Returns {| sb_result := 1; sb_left := 1; sb_mid := 1; sb_right := 0; sb_cover := 0 |});
  DefaultSetting := Some (fun _ => Returns tt);
  ScanCard := Some (fun _ => Returns 0);
  Scan := Some (fun _ => Returns 0)
|}.

Definition device_open : State := {| isOpen := true; trace := [] |}.

(** The DLL could not be loaded. *)
Definition not_loaded : Dll := {|
  loaded := false;
  DeviceOpen := None; DeviceClose := None; SetDpi := None; SetBits := None;
  GetSensorValueExt := None; DefaultSetting := None; ScanCard := None; Scan := None
|}.

(** A decoder for buffers of ASCII bytes. *)
Definition ascii_only (data : list N) : option str := Some data.

End ScannerExamples.

(* ===================================================================== *)
(** ** Properties of the MRZ parser                                       *)
(* ===================================================================== *)

Module MrzParserProofs.
Import JS MrzParser Notions Examples.

Local Open Scope N_scope.

(** *** String primitives *)

Lemma length_remove p s : (length (remove p s) <= length s)%nat.
Proof. induction s as [|c s IH]; simpl; [lia|]. destruct (p c); simpl; lia. Qed.

Lemma remove_Forall p s : Forall (fun c => p c = false) (remove p s).
Proof.
  induction s as [|c s IH]; simpl; [constructor|].
  destruct (p c) eqn:E; [assumption|]. constructor; assumption.
Qed.

Lemma remove_preserves (P : N -> Prop) p s : Forall P s -> Forall P (remove p s).
Proof.
  induction 1 as [|c s Hc Hs IH]; simpl; [constructor|].
  destruct (p c); [assumption|constructor; assumption].
Qed.

Lemma remove_id p s : Forall (fun c => p c = false) s -> remove p s = s.
Proof.
  induction 1 as [|c s Hc Hs IH]; simpl; [reflexivity|]. rewrite Hc, IH. reflexivity.
Qed.

Lemma trimStart_preserves (P : N -> Prop) s : Forall P s -> Forall P (trimStart s).
Proof.
  induction 1 as [|c s Hc Hs IH]; simpl; [constructor|].
  destruct (is_space c); [assumption|constructor; assumption].
Qed.

Lemma trim_preserves (P : N -> Prop) s : Forall P s -> Forall P (trim s).
Proof.
  intros H. unfold trim, trimEnd.
  apply Forall_rev, trimStart_preserves, Forall_rev, trimStart_preserves, H.
Qed.

Lemma js_inj s t : js s = js t -> s = t.
Proof.
  unfold js. intros H.
  rewrite <- (string_of_list_ascii_of_string s), <- (string_of_list_ascii_of_string t).
  f_equal. revert H. generalize (list_ascii_of_string s) (list_ascii_of_string t).
  intros l. induction l as [|a l IH]; intros [|b l']; simpl; try discriminate; [reflexivity|].
  intros [= H1 H2]. f_equal; [|apply IH, H2].
  rewrite <- (ascii_N_embedding a), <- (ascii_N_embedding b). f_equal. exact H1.
Qed.

(** Two numbers with the same decimal numeral are equal. *)
Lemma of_N_inj m n : of_N m = of_N n -> m = n.
Proof.
  unfold of_N. intros H. apply js_inj in H.
  assert (Hn : forall x, N.to_uint x <> Decimal.Nil)
    by (intros [|p]; [discriminate|apply DecimalPos.Unsigned.to_uint_nonnil]).
  apply (f_equal NilZero.uint_of_string) in H.
  rewrite !NilZero.usu in H by apply Hn. injection H as H.
  apply (f_equal N.of_uint) in H.
  rewrite !DecimalN.Unsigned.of_to in H. exact H.
Qed.

Lemma length_trimStart s : (length (trimStart s) <= length s)%nat.
Proof. induction s as [|c s IH]; simpl; [lia|]. destruct (is_space c); simpl; lia. Qed.

Lemma length_trim s : (length (trim s) <= length s)%nat.
Proof.
  unfold trim, trimEnd. rewrite length_rev.
  etransitivity; [apply length_trimStart|]. rewrite length_rev. apply length_trimStart.
Qed.

Lemma length_padEnd n c s : length (padEnd n c s) = Nat.max n (length s).
Proof. unfold padEnd. rewrite length_app, length_replicate. lia. Qed.

Lemma padEnd_ge n c s : (n <= length s)%nat -> padEnd n c s = s.
Proof.
  intros H. unfold padEnd. replace (n - length s)%nat with 0%nat by lia.
  simpl. apply app_nil_r.
Qed.

Lemma split_go_no_sep c acc s :
  Forall (fun x => (c =? x) = false) s -> split_go [c] acc s = [rev acc ++ s].
Proof.
  revert acc. induction s as [|x s IH]; intros acc H; simpl.
  - rewrite app_nil_r. reflexivity.
  - inversion H as [|? ? Hx Hs]; subst. rewrite Hx. simpl.
    rewrite IH by assumption. simpl. rewrite <- app_assoc. reflexivity.
Qed.

Lemma split_no_sep c s :
  Forall (fun x => (c =? x) = false) s -> split [c] s = [s].
Proof. intros H. unfold split. rewrite split_go_no_sep by assumption. reflexivity. Qed.

(** *** [normalizeMrz] *)

Lemma clean_not_ctrl raw : Forall (fun c => is_ctrl c = false) (clean raw).
Proof.
  unfold clean. apply remove_preserves.
  unfold replace_char. apply Forall_fmap.
  eapply Forall_impl.
  - apply trim_preserves, remove_preserves, remove_Forall.
  - intros c Hc. simpl. destruct (N.eqb_spec c 32); [reflexivity|assumption].
Qed.

Lemma clean_no_NL raw : Forall (fun c => (c =? NL) = false) (clean raw).
Proof.
  eapply Forall_impl; [apply clean_not_ctrl|].
  intros c Hc. unfold is_ctrl in Hc. unfold NL.
  apply N.eqb_neq. apply N.leb_gt in Hc. lia.
Qed.

(** The line feed is a control character: it is gone before the text is
    split into lines, so the two-line branch of [normalizeMrz] is never
    taken and every input is handled as one concatenated segment. *)
Lemma normalizeMrz_concatenated raw :
  normalizeMrz raw =
    let cleaned := clean raw in
    if (88 <=? length cleaned)%nat then
      Some (Lines (take 44 cleaned) (take 44 (drop 44 cleaned)))
    else if (44 <=? length cleaned)%nat then
      let line2Start := search_signature cleaned in
      if (0 <? line2Start)%Z then
        Some (Lines (padEnd 44 FILLER (take (Z.to_nat line2Start) cleaned))
                    (padEnd 44 FILLER (drop (Z.to_nat line2Start) cleaned)))
      else
        Some (Lines (padEnd 44 FILLER (take 44 cleaned))
                    (padEnd 44 FILLER (drop 44 cleaned)))
    else None.
Proof.
  destruct raw as [|c raw]; [reflexivity|].
  unfold normalizeMrz. set (cl := clean (c :: raw)). cbv zeta.
  assert (Hnl : Forall (fun x => (NL =? x) = false) cl).
  { eapply Forall_impl; [apply clean_no_NL|].
    intros x Hx. cbv beta in *. rewrite N.eqb_sym. exact Hx. }
  rewrite split_no_sep by assumption.
  assert (Hrm : remove (N.eqb NL) cl = cl) by (apply remove_id; assumption).
  assert (Hsub : forall k, substring 0 k cl = take k cl).
  { intros k. unfold substring. rewrite Nat.sub_0_r. reflexivity. }
  rewrite Hrm. unfold substring_from. rewrite !Hsub. unfold substring.
  cbn [List.filter]. destruct (0 <? length cl)%nat; reflexivity.
Qed.

Lemma search_from_first_signature i s :
  search_from i s =
    match first_signature s with
    | Some k => (i + Z.of_nat k)%Z
    | None => (-1)%Z
    end.
Proof.
  revert i. induction s as [|c s IH]; intros i; [reflexivity|].
  change (search_from i (c :: s)) with
    (if signature_at (c :: s) then i else search_from (i + 1)%Z s).
  change (first_signature (c :: s)) with
    (if signature_at (c :: s) then Some 0%nat else S <$> first_signature s).
  destruct (signature_at (c :: s)); [simpl; lia|].
  rewrite IH. destruct (first_signature s); simpl; lia.
Qed.

(** [first_signature] is the first match indeed. *)
Lemma first_signature_first s k :
  first_signature s = Some k ->
  signature_at (drop k s) = true /\
  forall j, (j < k)%nat -> signature_at (drop j s) = false.
Proof.
  revert k. induction s as [|c s IH]; intros k; [discriminate|].
  change (first_signature (c :: s)) with
    (if signature_at (c :: s) then Some 0%nat else S <$> first_signature s).
  destruct (signature_at (c :: s)) eqn:E.
  - intros [= <-]. split; [exact E|]. intros j Hj. lia.
  - destruct (first_signature s) as [k'|]; [|discriminate]. intros [= <-].
    destruct (IH k' eq_refl) as [H1 H2]. split; [exact H1|].
    intros [|j] Hj; [exact E|]. apply H2. lia.
Qed.

(** C8, as amended.  For an input of one segment (no line feed),
    [normalizeMrz] fails when the cleaned text has fewer than 44
    characters; with 88 or more it splits at 44/88 into two lines of
    exactly 44 characters; with 44 to 87 it splits at the first match of
    the signature "1-2 letters followed by 5 or more digits" when that
    match lies after position 0 (the first 44 characters of either line
    are the part, right-padded to 44), and otherwise, a match at position 0
    included, at a naive 44-character boundary into two lines of exactly 44
    characters. *)
Theorem normalizeMrz_one_segment (raw : str) :
  (NL ∉ raw) ->
  let cleaned := clean raw in
  ((length cleaned < 44)%nat -> normalizeMrz raw = None) /\
  ((88 <= length cleaned)%nat ->
     exists n, normalizeMrz raw = Some n /\
       line1 n = take 44 cleaned /\ line2 n = take 44 (drop 44 cleaned) /\
       length (line1 n) = 44%nat /\ length (line2 n) = 44%nat) /\
  ((44 <= length cleaned < 88)%nat ->
     exists n, normalizeMrz raw = Some n /\
       match first_signature cleaned with
       | Some (S k) =>
           take 44 (line1 n) = fit44 (take (S k) cleaned) /\
           take 44 (line2 n) = fit44 (drop (S k) cleaned)
       | _ =>
           line1 n = take 44 cleaned /\ line2 n = fit44 (drop 44 cleaned) /\
           length (line1 n) = 44%nat /\ length (line2 n) = 44%nat
       end).
Proof.
  intros _ cleaned. rewrite normalizeMrz_concatenated. fold cleaned. cbv zeta.
  split; [|split].
  - intros H. destruct (Nat.leb_spec 88 (length cleaned)); [lia|].
    destruct (Nat.leb_spec 44 (length cleaned)); [lia|reflexivity].
  - intros H. destruct (Nat.leb_spec 88 (length cleaned)); [|lia].
    eexists; split; [reflexivity|]. simpl.
    rewrite !length_take, length_drop. repeat split; lia.
  - intros [H1 H2]. destruct (Nat.leb_spec 88 (length cleaned)); [lia|].
    destruct (Nat.leb_spec 44 (length cleaned)); [|lia].
    unfold search_signature. rewrite search_from_first_signature.
    destruct (first_signature cleaned) as [[|k]|] eqn:E.
    + change (0 <? 0 + Z.of_nat 0)%Z with false. cbv iota.
      eexists; split; [reflexivity|]. cbn [line1 line2].
      rewrite padEnd_ge by (rewrite length_take; lia).
      unfold fit44.
      rewrite (take_ge (padEnd _ _ _)) by (rewrite length_padEnd, length_drop; lia).
      rewrite length_take, length_padEnd, length_drop.
      repeat split; lia.
    + replace (0 <? 0 + Z.of_nat (S k))%Z with true by (symmetry; apply Z.ltb_lt; lia).
      replace (Z.to_nat (0 + Z.of_nat (S k))) with (S k) by lia.
      eexists; split; [reflexivity|]. split; reflexivity.
    + change (0 <? -1)%Z with false. cbv iota.
      eexists; split; [reflexivity|]. cbn [line1 line2].
      rewrite padEnd_ge by (rewrite length_take; lia).
      unfold fit44.
      rewrite (take_ge (padEnd _ _ _)) by (rewrite length_padEnd, length_drop; lia).
      rewrite length_take, length_padEnd, length_drop.
      repeat split; lia.
Qed.

(** The amended C8 at the specimen, 88 characters on one line. *)
Lemma normalizeMrz_one_segment_witness :
  (NL ∉ specimen_line1 ++ specimen_line2) /\
  (88 <= length (clean (specimen_line1 ++ specimen_line2)))%nat /\
  exists n, normalizeMrz (specimen_line1 ++ specimen_line2) = Some n /\
    line1 n = take 44 (clean (specimen_line1 ++ specimen_line2)) /\
    line2 n = take 44 (drop 44 (clean (specimen_line1 ++ specimen_line2))) /\
    length (line1 n) = 44%nat /\ length (line2 n) = 44%nat.
Proof.
  assert (H : NL ∉ specimen_line1 ++ specimen_line2)
    by (apply (bool_decide_unpack _); vm_compute; exact I).
  assert (L : (88 <= length (clean (specimen_line1 ++ specimen_line2)))%nat)
    by (vm_compute; lia).
  split; [exact H|]. split; [exact L|].
  exact (proj1 (proj2 (normalizeMrz_one_segment (specimen_line1 ++ specimen_line2) H)) L).
Defined.

(** C8 as stated fails: on a 57-character segment whose signature matches
    at position 0 the split is the naive one, not the one at the match. *)
Lemma normalizeMrz_signature_at_start :
  (NL ∉ signature_first) /\
  length (clean signature_first) = 57%nat /\
  first_signature (clean signature_first) = Some 0%nat /\
  normalizeMrz signature_first <> normalize_as_specified [clean signature_first] /\
  normalizeMrz signature_first =
    Some (Lines (take 44 signature_first) (replicate 44 FILLER)).
Proof.
  split; [|split; [|split; [|split]]].
  - apply (bool_decide_unpack _). vm_compute. exact I.
  - vm_compute. reflexivity.
  - vm_compute. reflexivity.
  - vm_compute. discriminate.
  - vm_compute. reflexivity.
Qed.

(** Two short lines are not taken as two lines: the line feed is dropped
    with the control characters and six characters are too few. *)
Lemma normalizeMrz_two_short_lines :
  normalizeMrz two_short_lines = None /\
  normalize_as_specified [js "ABC"; js "DEF"] =
    Some (Lines (js "ABC" ++ replicate 41 FILLER) (js "DEF" ++ replicate 41 FILLER)).
Proof. split; vm_compute; reflexivity. Qed.

(** The part after a signature match is padded but not cut: 56 characters
    here. *)
Lemma normalizeMrz_long_second_line :
  exists n, normalizeMrz signature_third = Some n /\
    length (line1 n) = 44%nat /\ length (line2 n) = 56%nat.
Proof. eexists. split; [vm_compute; reflexivity|]. split; reflexivity. Qed.

(** *** [parseMrzFull] and [formatMrzDate] *)

Lemma formatMrzDate_pivot (y : N) (mm dd : str) :
  y < 100 -> length mm = 2%nat -> length dd = 2%nat ->
  formatMrzDate (two_digits y ++ mm ++ dd) =
    of_N (if 50 <? y then 1900 + y else 2000 + y) ++ js "-" ++ mm ++ js "-" ++ dd.
Proof.
  intros Hy Hm Hd.
  destruct mm as [|m1 [|m2 [|]]]; try discriminate.
  destruct dd as [|d1 [|d2 [|]]]; try discriminate.
  rewrite <- (N2Nat.id y). assert (Hn : (N.to_nat y < 100)%nat) by lia.
  generalize dependent (N.to_nat y). clear. intros n Hn.
  do 100 (destruct n as [|n]; [reflexivity|]). lia.
Qed.

(** C9.  On every input whose normalised second line is the specimen
    "L898902C<3UTO6908061F9406236ZE184226B<<<<<10", [parseMrzFull] yields
    document number L898902C, nationality UTO, birth date 1969-08-06, sex
    Female and expiry date 1994-06-23; a two-digit year above 50 is taken
    in the 1900s, any other in the 2000s: 51 gives 1951, 05 gives 2005, 50
    gives 2050. *)
Theorem parseMrzFull_specimen :
  (forall raw n,
     normalizeMrz raw = Some n -> line2 n = specimen_line2 ->
     exists p, parseMrzFull raw = Some p /\
       passportNo p = js "L898902C" /\ nationality p = js "UTO" /\
       birthDate p = js "1969-08-06" /\ sex p = js "Female" /\
       expiryDate p = js "1994-06-23") /\
  (forall y mm dd,
     y < 100 -> length mm = 2%nat -> length dd = 2%nat ->
     formatMrzDate (two_digits y ++ mm ++ dd) =
       of_N (if 50 <? y then 1900 + y else 2000 + y) ++ js "-" ++ mm ++ js "-" ++ dd) /\
  formatMrzDate (js "510101") = js "1951-01-01" /\
  formatMrzDate (js "050101") = js "2005-01-01" /\
  formatMrzDate (js "500101") = js "2050-01-01".
Proof.
  split; [|split; [exact formatMrzDate_pivot|repeat split; reflexivity]].
  intros raw n Hn H2. unfold parseMrzFull. rewrite Hn.
  eexists; split; [reflexivity|]. cbn [passportNo nationality birthDate sex expiryDate].
  rewrite H2. repeat split; reflexivity.
Qed.

(** C9 at the ICAO specimen and at the year 51. *)
Lemma parseMrzFull_specimen_witness :
  (exists p, parseMrzFull (specimen_line1 ++ specimen_line2) = Some p /\
     passportNo p = js "L898902C" /\ nationality p = js "UTO" /\
     birthDate p = js "1969-08-06" /\ sex p = js "Female" /\
     expiryDate p = js "1994-06-23") /\
  formatMrzDate (two_digits 51 ++ js "12" ++ js "31") = js "1951-12-31".
Proof.
  split.
  - apply (proj1 parseMrzFull_specimen (specimen_line1 ++ specimen_line2)
             (Lines specimen_line1 specimen_line2)); reflexivity.
  - apply (proj1 (proj2 parseMrzFull_specimen) 51 (js "12") (js "31")); reflexivity.
Defined.

(** *** What the parser guarantees on every input *)

Lemma remove_app p s t : remove p (s ++ t) = remove p s ++ remove p t.
Proof.
  induction s as [|c s IH]; simpl; [reflexivity|].
  destruct (p c); simpl; rewrite IH; reflexivity.
Qed.

Lemma remove_all p s : Forall (fun c => p c = true) s -> remove p s = [].
Proof. induction 1 as [|c s Hc Hs IH]; simpl; [reflexivity|]. rewrite Hc. exact IH. Qed.

Lemma trimStart_id s :
  Forall (fun c => is_space c = false) s -> trimStart s = s.
Proof. destruct 1 as [|c s Hc Hs]; simpl; [reflexivity|]. rewrite Hc. reflexivity. Qed.

Lemma trim_id s : Forall (fun c => is_space c = false) s -> trim s = s.
Proof.
  intros H. unfold trim, trimEnd. rewrite (trimStart_id s H).
  rewrite trimStart_id by (apply Forall_rev, H). apply rev_involutive.
Qed.

Lemma mrz_char_plain c :
  mrz_char c = true ->
  is_ctrl c = false /\ is_space c = false /\ (c =? 13) = false /\ (c =? 32) = false /\
  mrz_allowed c = true.
Proof.
  unfold mrz_char, mrz_allowed, is_upper, is_digit, is_ctrl, is_space, FILLER, NL.
  intros H.
  assert (Hc : 48 <= c <= 57 \/ 65 <= c <= 90 \/ c = 60).
  { apply orb_true_iff in H as [H|H]; [apply orb_true_iff in H as [H|H]|].
    - apply andb_true_iff in H as [H1 H2]. apply N.leb_le in H1, H2. lia.
    - apply andb_true_iff in H as [H1 H2]. apply N.leb_le in H1, H2. lia.
    - apply N.eqb_eq in H. lia. }
  repeat split.
  - apply N.leb_gt. lia.
  - repeat (apply orb_false_iff; split);
      try (apply N.eqb_neq; lia);
      try (apply andb_false_iff; (left; apply N.leb_gt; lia) || (right; apply N.leb_gt; lia)).
  - apply N.eqb_neq. lia.
  - apply N.eqb_neq. lia.
  - rewrite H. reflexivity.
Qed.

Lemma clean_id s : Forall (fun c => mrz_char c = true) s -> clean s = s.
Proof.
  intros H. unfold clean. cbv zeta.
  rewrite (remove_id is_ctrl s)
    by (eapply Forall_impl; [exact H|]; intros c Hc; apply (mrz_char_plain c Hc)).
  rewrite (remove_id (N.eqb 13) s).
  2:{ eapply Forall_impl; [exact H|]. intros c Hc. cbv beta.
      rewrite N.eqb_sym. apply (mrz_char_plain c Hc). }
  rewrite trim_id
    by (eapply Forall_impl; [exact H|]; intros c Hc; apply (mrz_char_plain c Hc)).
  assert (Hr : replace_char 32 FILLER s = s).
  { unfold replace_char. induction H as [|c s Hc Hs IH]; simpl; [reflexivity|].
    rewrite (proj1 (proj2 (proj2 (proj2 (mrz_char_plain c Hc))))). f_equal. exact IH. }
  rewrite Hr. apply remove_id.
  eapply Forall_impl; [exact H|]. intros c Hc. cbv beta.
  rewrite (proj2 (proj2 (proj2 (proj2 (mrz_char_plain c Hc))))). reflexivity.
Qed.

Lemma clean_mrz_char raw : Forall (fun c => mrz_char c = true) (clean raw).
Proof.
  pose proof (clean_no_NL raw) as Hn.
  assert (Ha : Forall (fun c => negb (mrz_allowed c) = false) (clean raw))
    by (unfold clean; apply remove_Forall).
  rewrite Forall_forall in *. intros c Hc.
  specialize (Hn c Hc). specialize (Ha c Hc). cbv beta in *.
  apply negb_false_iff in Ha. unfold mrz_allowed in Ha. unfold mrz_char.
  rewrite Hn, orb_false_r in Ha. exact Ha.
Qed.

Lemma clean_clean raw : clean (clean raw) = clean raw.
Proof. apply clean_id, clean_mrz_char. Qed.

Lemma padEnd_mrz_char n s :
  Forall (fun c => mrz_char c = true) s -> Forall (fun c => mrz_char c = true) (padEnd n FILLER s).
Proof.
  intros H. unfold padEnd. apply Forall_app. split; [exact H|].
  apply Forall_replicate. reflexivity.
Qed.

Lemma unfill_app s t : unfill (s ++ t) = unfill s ++ unfill t.
Proof. apply remove_app. Qed.

Lemma unfill_padEnd n s : unfill (padEnd n FILLER s) = unfill s.
Proof.
  unfold padEnd. rewrite unfill_app. unfold unfill at 2.
  rewrite remove_all; [apply app_nil_r|]. apply Forall_replicate. reflexivity.
Qed.

Lemma normalizeMrz_Some raw n :
  normalizeMrz raw = Some n ->
  (44 <= length (line1 n))%nat /\ (44 <= length (line2 n))%nat /\
  Forall (fun c => mrz_char c = true) (line1 n) /\
  Forall (fun c => mrz_char c = true) (line2 n) /\
  unfill (line1 n ++ line2 n) = unfill (take 88 (clean raw)).
Proof.
  rewrite normalizeMrz_concatenated. cbv zeta.
  pose proof (clean_mrz_char raw) as Hc. set (c := clean raw) in *.
  destruct (Nat.leb_spec 88 (length c)).
  - intros [= <-]. cbn [line1 line2].
    rewrite !length_take, length_drop.
    split; [lia|]. split; [lia|].
    split; [apply Forall_take, Hc|]. split; [apply Forall_take, Forall_drop, Hc|].
    f_equal. rewrite <- (take_drop 44 (take 88 c)).
    rewrite take_take, skipn_firstn_comm. reflexivity.
  - destruct (Nat.leb_spec 44 (length c)); [|discriminate].
    rewrite (take_ge c 88) by lia.
    destruct (0 <? _)%Z; intros [= <-]; cbn [line1 line2];
      rewrite !length_padEnd;
      (split; [lia|]); (split; [lia|]);
      (split; [apply padEnd_mrz_char, Forall_take, Hc|]);
      (split; [apply padEnd_mrz_char, Forall_drop, Hc|]);
      rewrite unfill_app, !unfill_padEnd, <- unfill_app, take_drop; reflexivity.
Qed.

Lemma normalizeMrz_None raw :
  normalizeMrz raw = None <-> (length (clean raw) < 44)%nat.
Proof.
  rewrite normalizeMrz_concatenated. cbv zeta.
  destruct (Nat.leb_spec 88 (length (clean raw))); [split; [discriminate|lia]|].
  destruct (Nat.leb_spec 44 (length (clean raw))).
  - destruct (0 <? _)%Z; (split; [discriminate|lia]).
  - split; [lia|reflexivity].
Qed.

(** X1. [normalizeMrz] (src/lib/mrz-parser.js, lines 11-66) reads its input only
    through the cleaned text (control characters removed, trimmed, spaces
    turned into fillers, everything outside A-Z, 0-9 and the filler
    dropped): it gives the same result on the raw and on the cleaned text,
    it fails exactly when fewer than 44 characters remain, and otherwise
    both lines have at least 44 characters of the MRZ alphabet and, fillers
    apart, hold the first 88 cleaned characters in order. *)
Theorem normalizeMrz_reads_the_cleaned_text (raw : str) :
  normalizeMrz raw = normalizeMrz (clean raw) /\
  (normalizeMrz raw = None <-> (length (clean raw) < 44)%nat) /\
  (forall n, normalizeMrz raw = Some n ->
     (44 <= length (line1 n))%nat /\ (44 <= length (line2 n))%nat /\
     Forall (fun c => mrz_char c = true) (line1 n) /\
     Forall (fun c => mrz_char c = true) (line2 n) /\
     unfill (line1 n ++ line2 n) = unfill (take 88 (clean raw))).
Proof.
  split; [|split].
  - rewrite (normalizeMrz_concatenated raw), (normalizeMrz_concatenated (clean raw)).
    rewrite clean_clean. reflexivity.
  - apply normalizeMrz_None.
  - apply normalizeMrz_Some.
Qed.

Lemma clean_drops_ctrl a sep b :
  Forall (fun c => is_ctrl c = true) sep -> clean (a ++ sep ++ b) = clean (a ++ b).
Proof.
  intros H. unfold clean. rewrite !remove_app, (remove_all is_ctrl sep H). reflexivity.
Qed.

(** X2. Round trip of [normalizeMrz] (src/lib/mrz-parser.js, lines 11-66): two
    lines of exactly 44 characters of the MRZ alphabet, joined by any run of
    control characters (a line feed, CR LF, or nothing), are given back
    unchanged. *)
Theorem normalizeMrz_round_trip (l1 l2 sep : str) :
  length l1 = 44%nat -> length l2 = 44%nat ->
  Forall (fun c => mrz_char c = true) l1 -> Forall (fun c => mrz_char c = true) l2 ->
  Forall (fun c => is_ctrl c = true) sep ->
  normalizeMrz (l1 ++ sep ++ l2) = Some (Lines l1 l2).
Proof.
  intros L1 L2 H1 H2 Hs. rewrite normalizeMrz_concatenated. cbv zeta.
  rewrite clean_drops_ctrl by exact Hs.
  rewrite clean_id by (apply Forall_app; split; assumption).
  rewrite length_app, L1, L2. cbn [Nat.leb Nat.add].
  rewrite take_app_length' by (symmetry; exact L1).
  rewrite drop_app_length' by (symmetry; exact L1).
  rewrite take_ge by lia. reflexivity.
Qed.

Lemma mrzCharValue_other c : alnum c = false -> mrzCharValue c = 0.
Proof.
  unfold alnum, mrzCharValue. intros H. apply orb_false_iff in H as [-> ->]. reflexivity.
Qed.

Lemma checksum_from_app i s t :
  checksum_from i (s ++ t) = checksum_from i s + checksum_from (i + length s) t.
Proof.
  revert i. induction s as [|c s IH]; intros i; simpl.
  - rewrite Nat.add_0_r. reflexivity.
  - rewrite IH. replace (S i + length s)%nat with (i + S (length s))%nat by lia. lia.
Qed.

Lemma checksum_from_zero i t :
  Forall (fun c => alnum c = false) t -> checksum_from i t = 0.
Proof.
  intros H. revert i. induction H as [|c t Hc Ht IH]; intros i; simpl; [reflexivity|].
  rewrite (mrzCharValue_other c Hc), IH. reflexivity.
Qed.

Lemma checksum_from_blank i s :
  checksum_from i ((fun c => if alnum c then c else FILLER) <$> s) = checksum_from i s.
Proof.
  revert i. induction s as [|c s IH]; intros i; [reflexivity|].
  change (checksum_from i ((fun c => if alnum c then c else FILLER) <$> c :: s)) with
    (mrzCharValue (if alnum c then c else FILLER) * weight i
     + checksum_from (S i) ((fun c => if alnum c then c else FILLER) <$> s)).
  rewrite IH. simpl. destruct (alnum c) eqn:E; [reflexivity|].
  rewrite (mrzCharValue_other c E). reflexivity.
Qed.

(** X3. [mrzChecksum] (src/lib/mrz-parser.js, lines 73-94) is a digit, and it
    counts every character that is neither A-Z nor 0-9 as a filler:
    appending such characters, or replacing them by fillers, leaves the
    checksum as it was. *)
Theorem mrzChecksum_ignores_what_is_not_alphanumeric (s : str) :
  mrzChecksum s < 10 /\
  (forall t, Forall (fun c => alnum c = false) t -> mrzChecksum (s ++ t) = mrzChecksum s) /\
  mrzChecksum ((fun c => if alnum c then c else FILLER) <$> s) = mrzChecksum s.
Proof.
  unfold mrzChecksum. split; [|split].
  - apply N.mod_lt. discriminate.
  - intros t Ht. rewrite checksum_from_app, (checksum_from_zero _ t Ht), N.add_0_r. reflexivity.
  - rewrite checksum_from_blank. reflexivity.
Qed.

Lemma weight_cases i : weight i = 7 \/ weight i = 3 \/ weight i = 1.
Proof. unfold weight. destruct (i mod 3)%nat as [|[|k]]; auto. Qed.

Lemma mrzCharValue_digit d : is_digit d = true -> mrzCharValue d = d - 48 /\ 48 <= d <= 57.
Proof.
  unfold mrzCharValue, is_digit. intros H. rewrite H. split; [reflexivity|].
  apply andb_true_iff in H as [H1 H2]. apply N.leb_le in H1, H2. lia.
Qed.

Lemma weighted_digit_mod x y w v v' :
  w = 7 \/ w = 3 \/ w = 1 -> v <= 9 -> v' <= 9 ->
  (x + (v * w + y)) mod 10 = (x + (v' * w + y)) mod 10 -> v = v'.
Proof.
  intros Hw Hv Hv' H.
  pose proof (N.mod_upper_bound (x + (v * w + y)) 10 ltac:(discriminate)).
  pose proof (N.mod_upper_bound (x + (v' * w + y)) 10 ltac:(discriminate)).
  pose proof (N.div_mod' (x + (v * w + y)) 10).
  pose proof (N.div_mod' (x + (v' * w + y)) 10).
  destruct Hw as [-> | [-> | ->]]; lia.
Qed.

(** X4. [mrzChecksum] (src/lib/mrz-parser.js, lines 85-94) detects a wrong
    digit: replacing one digit of the input by another digit always changes
    the checksum. *)
Theorem mrzChecksum_detects_a_wrong_digit (a b : str) (d d' : N) :
  is_digit d = true -> is_digit d' = true -> d <> d' ->
  mrzChecksum (a ++ d :: b) <> mrzChecksum (a ++ d' :: b).
Proof.
  intros Hd Hd' Hne. unfold mrzChecksum. rewrite !checksum_from_app. simpl.
  destruct (mrzCharValue_digit d Hd) as [-> Rd].
  destruct (mrzCharValue_digit d' Hd') as [-> Rd'].
  intros H. apply weighted_digit_mod in H; [lia|apply weight_cases|lia|lia].
Qed.

Lemma toUpperCase_id s : Forall (fun c => mrz_char c = true) s -> toUpperCase s = s.
Proof.
  unfold toUpperCase. induction 1 as [|c s Hc Hs IH]; [reflexivity|].
  cbn [fmap list_fmap]. f_equal; [|exact IH].
  assert (Hr : 48 <= c <= 57 \/ 65 <= c <= 90 \/ c = 60).
  { unfold mrz_char, is_upper, is_digit, FILLER in Hc.
    apply orb_true_iff in Hc as [Hc|Hc]; [apply orb_true_iff in Hc as [Hc|Hc]|].
    - apply andb_true_iff in Hc as [H1 H2]. apply N.leb_le in H1, H2. lia.
    - apply andb_true_iff in Hc as [H1 H2]. apply N.leb_le in H1, H2. lia.
    - apply N.eqb_eq in Hc. lia. }
  destruct (N.leb_spec 97 c); [|reflexivity]. lia.
Qed.

Lemma substring_mrz_char a b s :
  Forall (fun c => mrz_char c = true) s ->
  Forall (fun c => mrz_char c = true) (substring a b s).
Proof. intros H. unfold substring. apply Forall_take, Forall_drop, H. Qed.

Lemma length_substring a b s : (length (substring a b s) <= b - a)%nat.
Proof. unfold substring. rewrite length_take. lia. Qed.

Lemma unfill_alnum s :
  Forall (fun c => mrz_char c = true) s -> Forall (fun c => alnum c = true) (unfill s).
Proof.
  unfold unfill. induction 1 as [|c s Hc Hs IH]; [constructor|].
  cbn [remove]. destruct (N.eqb_spec FILLER c) as [E|E]; [exact IH|]. constructor; [|exact IH].
  unfold mrz_char in Hc. unfold alnum.
  apply orb_true_iff in Hc as [Hc|Hc]; [exact Hc|]. apply N.eqb_eq in Hc. congruence.
Qed.

Lemma length_unfill s : (length (unfill s) <= length s)%nat.
Proof. apply length_remove. Qed.

(** X5. [extractPassportNo] (src/lib/mrz-parser.js, lines 102-125) agrees with
    [parseMrzFull]: it is the parsed passport number when that is not
    empty, and null otherwise; a number it returns has 1 to 9 characters,
    all letters or digits. *)
Theorem extractPassportNo_is_the_parsed_number (mrzRaw : str) :
  extractPassportNo mrzRaw =
    match parseMrzFull mrzRaw with
    | Some q => match passportNo q with [] => None | p => Some p end
    | None => None
    end /\
  (forall p, extractPassportNo mrzRaw = Some p ->
     p <> [] /\ (length p <= 9)%nat /\ Forall (fun c => alnum c = true) p).
Proof.
  unfold extractPassportNo, parseMrzFull.
  destruct (normalizeMrz mrzRaw) as [n|] eqn:E; [|split; [reflexivity|discriminate]].
  destruct (normalizeMrz_Some _ _ E) as (_ & _ & _ & H2 & _).
  cbn [passportNo].
  assert (Hu : toUpperCase (remove (N.eqb FILLER) (substring 0 9 (line2 n)))
               = unfill (substring 0 9 (line2 n))).
  { apply toUpperCase_id. eapply Forall_impl; [apply unfill_alnum, substring_mrz_char, H2|].
    intros c Hc. unfold mrz_char. cbv beta in Hc. unfold alnum in Hc. rewrite Hc. reflexivity. }
  rewrite Hu. split; [destruct (unfill _); reflexivity|].
  intros p Hp. destruct (unfill (substring 0 9 (line2 n))) as [|c u] eqn:Eu; [discriminate|].
  injection Hp as <-. split; [discriminate|]. rewrite <- Eu. split.
  - etransitivity; [apply length_unfill|]. apply (length_substring 0 9).
  - apply unfill_alnum, substring_mrz_char, H2.
Qed.

Lemma split_pieces (P : N -> Prop) sep s :
  Forall P s ->
  (forall acc, Forall P acc -> Forall (Forall P) (split_go sep acc s)) /\
  (forall k, Forall (Forall P) (split_skip sep k s)).
Proof.
  induction 1 as [|c s Hc Hs [IHg IHs]].
  - split.
    + intros acc Ha. simpl. constructor; [apply Forall_rev, Ha|constructor].
    + intros k. simpl. repeat constructor.
  - split.
    + intros acc Ha. cbn [split_go]. destruct (startsWith sep (c :: s)).
      * constructor; [apply Forall_rev, Ha|apply IHs].
      * apply IHg. constructor; assumption.
    + intros [|k]; cbn [split_skip]; [|apply IHs].
      destruct (startsWith sep (c :: s)).
      * constructor; [constructor|apply IHs].
      * apply IHg. repeat constructor. exact Hc.
Qed.

Lemma split_Forall (P : N -> Prop) sep s :
  Forall P s -> Forall (Forall P) (split sep s).
Proof. intros H. apply (split_pieces P sep s H). constructor. Qed.

Lemma name_piece l i :
  Forall (fun c => mrz_char c = true) l ->
  Forall (fun c => name_char c = true)
         (trim (replace_char FILLER 32 (default [] (split (js "<<") (substring 5 44 l) !! i)))).
Proof.
  intros H. apply trim_preserves. unfold replace_char. apply Forall_fmap.
  assert (Hp : Forall (fun c => mrz_char c = true)
                 (default [] (split (js "<<") (substring 5 44 l) !! i))).
  { pose proof (split_Forall (fun c => mrz_char c = true) (js "<<") _
                  (substring_mrz_char 5 44 l H)) as Hs.
    destruct (_ !! i) as [p|] eqn:E; [|constructor].
    rewrite Forall_forall in Hs. apply Hs. eapply list_elem_of_lookup_2, E. }
  eapply Forall_impl; [exact Hp|]. intros c Hc. unfold compose. cbv beta.
  destruct (N.eqb_spec c FILLER) as [->|Hn]; [reflexivity|]. cbv iota.
  unfold name_char, alnum. unfold mrz_char in Hc.
  apply orb_true_iff in Hc as [Hc|Hc]; [rewrite Hc; reflexivity|].
  apply N.eqb_eq in Hc. contradiction.
Qed.

(** X6. [parseMrzFull] (src/lib/mrz-parser.js, lines 132-183) fails exactly when
    [normalizeMrz] does (fewer than 44 cleaned characters); otherwise the
    record carries the normalised lines, its coded fields hold only letters
    and digits within the width of their columns (2, 3, 9, 3 and 14), no
    filler is left in the names, and the sex is one of Male, Female and
    Unknown. *)
Theorem parseMrzFull_fields (mrzRaw : str) :
  (parseMrzFull mrzRaw = None <-> (length (clean mrzRaw) < 44)%nat) /\
  (forall q, parseMrzFull mrzRaw = Some q ->
     normalizeMrz mrzRaw = Some (raw q) /\
     Forall (fun c => alnum c = true) (documentType q) /\ (length (documentType q) <= 2)%nat /\
     Forall (fun c => alnum c = true) (issuingCountry q) /\ (length (issuingCountry q) <= 3)%nat /\
     Forall (fun c => alnum c = true) (passportNo q) /\ (length (passportNo q) <= 9)%nat /\
     Forall (fun c => alnum c = true) (nationality q) /\ (length (nationality q) <= 3)%nat /\
     Forall (fun c => alnum c = true) (personalNo q) /\ (length (personalNo q) <= 14)%nat /\
     Forall (fun c => name_char c = true) (surname q) /\
     Forall (fun c => name_char c = true) (givenNames q) /\
     (sex q = js "Male" \/ sex q = js "Female" \/ sex q = js "Unknown")).
Proof.
  split.
  - unfold parseMrzFull. destruct (normalizeMrz mrzRaw) as [n|] eqn:E.
    + split; [discriminate|]. intros H.
      apply normalizeMrz_None in H. congruence.
    + split; [|reflexivity]. intros _.
      apply normalizeMrz_None. exact E.
  - intros q. unfold parseMrzFull.
    destruct (normalizeMrz mrzRaw) as [n|] eqn:E; [|discriminate].
    destruct (normalizeMrz_Some _ _ E) as (_ & _ & H1 & H2 & _).
    intros [= <-]. cbn [raw documentType issuingCountry passportNo nationality personalNo
                        surname givenNames sex].
    split; [reflexivity|].
    repeat match goal with
           | |- Forall _ (unfill _) /\ _ =>
               split; [apply unfill_alnum, substring_mrz_char; assumption|]
           | |- (length (unfill (substring ?a ?b _)) <= _)%nat /\ _ =>
               split; [etransitivity; [apply length_unfill|apply (length_substring a b)]|]
           end.
    split; [apply name_piece, H1|]. split; [apply name_piece, H1|].
    destruct (bool_decide _); [auto|]. destruct (bool_decide _); auto.
Qed.

Lemma formatMrzDate_mrz c1 c2 m1 m2 d1 d2 :
  mrz_char c1 = true ->
  exists y, formatMrzDate [c1; c2; m1; m2; d1; d2]
            = y ++ js "-" ++ [m1; m2] ++ js "-" ++ [d1; d2] /\ year_text c1 y.
Proof.
  intros Hc. destruct (mrz_char_plain c1 Hc) as (_ & Hsp & _).
  assert (Hr : 48 <= c1 <= 57 \/ 65 <= c1 <= 90 \/ c1 = 60).
  { unfold mrz_char, is_upper, is_digit, FILLER in Hc.
    apply orb_true_iff in Hc as [Hc|Hc]; [apply orb_true_iff in Hc as [Hc|Hc]|].
    - apply andb_true_iff in Hc as [H1 H2]. apply N.leb_le in H1, H2. lia.
    - apply andb_true_iff in Hc as [H1 H2]. apply N.leb_le in H1, H2. lia.
    - apply N.eqb_eq in Hc. lia. }
  unfold formatMrzDate. cbn [length Nat.eqb negb]. unfold substring. cbn [drop take Nat.sub].
  unfold parseInt. cbn [trimStart]. rewrite Hsp.
  replace (c1 =? 45) with false by (symmetry; apply N.eqb_neq; lia).
  replace (c1 =? 43) with false by (symmetry; apply N.eqb_neq; lia).
  cbn [digits_prefix default from_option]. unfold id, year_text.
  destruct (is_digit c1) eqn:D1.
  - assert (R1 : 48 <= c1 <= 57).
    { unfold is_digit in D1. apply andb_true_iff in D1 as [H1 H2]. apply N.leb_le in H1, H2. lia. }
    destruct (is_digit c2) eqn:D2.
    + assert (R2 : 48 <= c2 <= 57).
      { unfold is_digit in D2. apply andb_true_iff in D2 as [H1 H2]. apply N.leb_le in H1, H2. lia. }
      cbn [default]. set (v := (10 * (10 * 0 + Z.of_N (c1 - 48)) + Z.of_N (c2 - 48))%Z).
      assert (Hv : (0 <= v <= 99)%Z) by (unfold v; lia).
      destruct (Z.ltb_spec 50 v); unfold num_to_str; cbv iota beta;
        match goal with |- context [(?z <? 0)%Z] =>
          replace (z <? 0)%Z with false by (symmetry; apply Z.ltb_ge; lia) end;
        eexists; (split; [reflexivity|]); right; (split; [reflexivity|]);
        eexists; (split; [|reflexivity]); lia.
    + cbn [default]. set (v := (10 * 0 + Z.of_N (c1 - 48))%Z).
      assert (Hv : (0 <= v <= 9)%Z) by (unfold v; lia).
      destruct (Z.ltb_spec 50 v); [lia|]. unfold num_to_str. cbv iota beta.
      replace (2000 + v <? 0)%Z with false by (symmetry; apply Z.ltb_ge; lia).
      eexists; (split; [reflexivity|]); right; (split; [reflexivity|]).
      eexists; (split; [|reflexivity]); lia.
  - eexists. split; [reflexivity|]. left. auto.
Qed.

Lemma six_at k (l : str) :
  (k + 6 <= length l)%nat ->
  exists c1 c2 m1 m2 d1 d2,
    substring k (k + 6) l = [c1; c2; m1; m2; d1; d2] /\ l !! k = Some c1 /\
    substring (k + 2) (k + 4) l = [m1; m2] /\ substring (k + 4) (k + 6) l = [d1; d2].
Proof.
  intros H. unfold substring.
  replace (k + 6 - k)%nat with 6%nat by lia.
  replace (k + 4 - (k + 2))%nat with 2%nat by lia.
  replace (k + 6 - (k + 4))%nat with 2%nat by lia.
  replace (drop (k + 2) l) with (drop 2 (drop k l)) by (rewrite drop_drop; reflexivity).
  replace (drop (k + 4) l) with (drop 4 (drop k l)) by (rewrite drop_drop; reflexivity).
  assert (L : (6 <= length (drop k l))%nat) by (rewrite length_drop; lia).
  replace (l !! k) with (drop k l !! 0%nat) by (rewrite lookup_drop; f_equal; lia).
  destruct (drop k l) as [|c1 [|c2 [|m1 [|m2 [|d1 [|d2 r]]]]]]; simpl in L; try lia.
  exists c1, c2, m1, m2, d1, d2. repeat split; reflexivity.
Qed.

(** X7. The dates of [parseMrzFull] (src/lib/mrz-parser.js, lines 132-201):
    birth and expiry date are the year, a dash, columns 3-4 of the field, a
    dash and columns 5-6, where the year is NaN when the field does not
    start with a digit and a year from 1951 to 2050 when it does. *)
Theorem parseMrzFull_dates (mrzRaw : str) (q : parsed) :
  parseMrzFull mrzRaw = Some q ->
  let l2 := line2 (raw q) in
  (exists c y, l2 !! 13%nat = Some c /\ year_text c y /\
     birthDate q = y ++ js "-" ++ substring 15 17 l2 ++ js "-" ++ substring 17 19 l2) /\
  (exists c y, l2 !! 21%nat = Some c /\ year_text c y /\
     expiryDate q = y ++ js "-" ++ substring 23 25 l2 ++ js "-" ++ substring 25 27 l2).
Proof.
  unfold parseMrzFull. destruct (normalizeMrz mrzRaw) as [n|] eqn:E; [|discriminate].
  destruct (normalizeMrz_Some _ _ E) as (_ & L2 & _ & H2 & _).
  intros [= <-]. cbn [raw birthDate expiryDate]. cbv zeta. split.
  - destruct (six_at 13 (line2 n) ltac:(lia)) as (c1 & c2 & m1 & m2 & d1 & d2 & Es & E1 & Em & Ed).
    cbn [Nat.add] in Es, Em, Ed. rewrite Es, Em, Ed.
    assert (Hc : mrz_char c1 = true)
      by (rewrite Forall_lookup in H2; exact (H2 _ _ E1)).
    destruct (formatMrzDate_mrz c1 c2 m1 m2 d1 d2 Hc) as (y & Ey & Hy).
    exists c1, y. auto.
  - destruct (six_at 21 (line2 n) ltac:(lia)) as (c1 & c2 & m1 & m2 & d1 & d2 & Es & E1 & Em & Ed).
    cbn [Nat.add] in Es, Em, Ed. rewrite Es, Em, Ed.
    assert (Hc : mrz_char c1 = true)
      by (rewrite Forall_lookup in H2; exact (H2 _ _ E1)).
    destruct (formatMrzDate_mrz c1 c2 m1 m2 d1 d2 Hc) as (y & Ey & Hy).
    exists c1, y. auto.
Qed.

(** X1 at a concrete input. *)
Lemma normalizeMrz_reads_the_cleaned_text_witness :
  normalizeMrz specimen_raw = Some (Lines specimen_line1 specimen_line2) /\
  (44 <= length specimen_line1)%nat /\
  unfill (specimen_line1 ++ specimen_line2) = unfill (take 88 (clean specimen_raw)).
Proof.
  assert (E : normalizeMrz specimen_raw = Some (Lines specimen_line1 specimen_line2))
    by (vm_compute; reflexivity).
  split; [exact E|].
  destruct (proj2 (proj2 (normalizeMrz_reads_the_cleaned_text specimen_raw)) _ E)
    as (L1 & _ & _ & _ & U).
  split; [exact L1|exact U].
Defined.

(** X2 at a concrete input. *)
Lemma normalizeMrz_round_trip_witness :
  length specimen_line1 = 44%nat /\ length specimen_line2 = 44%nat /\
  normalizeMrz (specimen_line1 ++ [13; NL] ++ specimen_line2)
    = Some (Lines specimen_line1 specimen_line2).
Proof.
  split; [reflexivity|]. split; [reflexivity|].
  apply normalizeMrz_round_trip; try reflexivity; vm_compute; repeat constructor.
Defined.

(** X3 at a concrete input. *)
Lemma mrzChecksum_ignores_what_is_not_alphanumeric_witness :
  Forall (fun c => alnum c = false) (js "<<<") /\
  mrzChecksum (js "L898902C" ++ js "<<<") = mrzChecksum (js "L898902C").
Proof.
  assert (H : Forall (fun c => alnum c = false) (js "<<<")) by (vm_compute; repeat constructor).
  split; [exact H|].
  exact (proj1 (proj2 (mrzChecksum_ignores_what_is_not_alphanumeric (js "L898902C"))) _ H).
Defined.

(** X4 at a concrete input. *)
Lemma mrzChecksum_detects_a_wrong_digit_witness :
  is_digit 50 = true /\ is_digit 55 = true /\
  mrzChecksum (js "L89890" ++ 50 :: js "C<") <> mrzChecksum (js "L89890" ++ 55 :: js "C<").
Proof.
  split; [reflexivity|]. split; [reflexivity|].
  apply mrzChecksum_detects_a_wrong_digit; [reflexivity|reflexivity|discriminate].
Defined.

(** X5 at a concrete input. *)
Lemma extractPassportNo_is_the_parsed_number_witness :
  extractPassportNo specimen_raw = Some (js "L898902C") /\
  (length (js "L898902C") <= 9)%nat /\ Forall (fun c => alnum c = true) (js "L898902C").
Proof.
  assert (E : extractPassportNo specimen_raw = Some (js "L898902C")) by (vm_compute; reflexivity).
  split; [exact E|].
  exact (proj2 (proj2 (extractPassportNo_is_the_parsed_number specimen_raw) _ E)).
Defined.

(** X6 at a concrete input. *)
Lemma parseMrzFull_fields_witness :
  exists q, parseMrzFull specimen_raw = Some q /\
    normalizeMrz specimen_raw = Some (raw q) /\
    Forall (fun c => alnum c = true) (passportNo q) /\
    Forall (fun c => name_char c = true) (givenNames q).
Proof.
  destruct (parseMrzFull specimen_raw) as [q|] eqn:E; [|vm_compute in E; discriminate E].
  exists q. split; [reflexivity|].
  destruct (proj2 (parseMrzFull_fields specimen_raw) q E)
    as (R & _ & _ & _ & _ & P & _ & _ & _ & _ & _ & _ & G & _).
  split; [exact R|]. split; [exact P|exact G].
Defined.

(** X7 at a concrete input. *)
Lemma parseMrzFull_dates_witness :
  exists q, parseMrzFull specimen_raw = Some q /\
    exists c y, line2 (raw q) !! 13%nat = Some c /\ year_text c y /\
      birthDate q = y ++ js "-" ++ substring 15 17 (line2 (raw q))
                      ++ js "-" ++ substring 17 19 (line2 (raw q)).
Proof.
  destruct (parseMrzFull specimen_raw) as [q|] eqn:E; [|vm_compute in E; discriminate E].
  exists q. split; [reflexivity|].
  exact (proj1 (parseMrzFull_dates specimen_raw q E)).
Defined.

End MrzParserProofs.

(* ===================================================================== *)
(** ** Properties of the orchestration                                    *)
(* ===================================================================== *)

Module MainProofs.
Import JS MrzParser Main Notions Examples MrzParserProofs.

Local Open Scope Z_scope.

(** *** The relations between worlds are preorders *)

Lemma footprint_refl w : footprint w w.
Proof.
  split; try reflexivity; [exists []|exists []]; rewrite app_nil_r; split; auto.
Qed.

Lemma footprint_trans w1 w2 w3 : footprint w1 w2 -> footprint w2 w3 -> footprint w1 w3.
Proof.
  intros [a1 a2 a3 a4 (cs & a5 & a6) (ms & a7 & a8)]
         [b1 b2 b3 b4 (cs' & b5 & b6) (ms' & b7 & b8)].
  split; try congruence; try lia.
  - exists (cs ++ cs'). rewrite b5, a5, app_assoc. split; [reflexivity|].
    apply Forall_app; split; assumption.
  - exists (ms ++ ms'). rewrite b7, a7, app_assoc. split; [reflexivity|].
    apply Forall_app; split; assumption.
Qed.

#[global] Instance footprint_preorder : PreOrder footprint.
Proof. split; [exact footprint_refl|exact footprint_trans]. Qed.

#[global] Instance track_preorder : PreOrder track.
Proof.
  split.
  - intros w. split; [apply footprint_refl|split; reflexivity].
  - intros w1 w2 w3 (a & a1 & a2) (b & b1 & b2).
    split; [eapply footprint_trans; eassumption|split; congruence].
Qed.

#[global] Instance quiet_preorder : PreOrder quiet.
Proof.
  split.
  - intros w. split; [reflexivity|repeat split; reflexivity].
  - intros w1 w2 w3 (a & a1 & a2 & a3) (b & b1 & b2 & b3).
    split; [etransitivity; eassumption|repeat split; congruence].
Qed.

Lemma quiet_track w w' : quiet w w' -> track w w'.
Proof. intros [H _]. exact H. Qed.

Lemma track_footprint w w' : track w w' -> footprint w w'.
Proof. intros [H _]. exact H. Qed.

#[global] Instance later_preorder : PreOrder later.
Proof.
  split.
  - intros w. exists (now w). split; [lia|]. destruct w; reflexivity.
  - intros w1 w2 w3 (t & H1 & ->) (t' & H2 & ->). exists t'. simpl in H2.
    split; [lia|reflexivity].
Qed.

Section Frames.

Context (R : World -> World -> Prop) `{!PreOrder R}.

Lemma preserves_ret {A} (a : A) : preserves R (ret a).
Proof. intros w. reflexivity. Qed.

Lemma preserves_get {A} (f : World -> A) : preserves R (get f).
Proof. intros w. reflexivity. Qed.

Lemma preserves_bind {A B} (m : M A) (k : A -> M B) :
  preserves R m -> (forall a, preserves R (k a)) -> preserves R (bind m k).
Proof.
  intros Hm Hk w. unfold bind. specialize (Hm w).
  destruct (m w) as [a w1|e w1|w1]; simpl in *; try assumption.
  etransitivity; [exact Hm|apply Hk].
Qed.

Lemma preserves_try_catch {A} (m : M A) (h : str -> M A) :
  preserves R m -> (forall e, preserves R (h e)) -> preserves R (try_catch m h).
Proof.
  intros Hm Hh w. unfold try_catch. specialize (Hm w).
  destruct (m w) as [a w1|e w1|w1]; simpl in *; try assumption.
  etransitivity; [exact Hm|apply Hh].
Qed.

End Frames.

(** *** The monad *)

Lemma bind_Ret_inv {A B} (m : M A) (k : A -> M B) w b w' :
  bind m k w = Ret b w' -> exists a w1, m w = Ret a w1 /\ k a w1 = Ret b w'.
Proof.
  unfold bind. destruct (m w) as [a w1|e w1|w1]; try discriminate.
  intros H. exists a, w1. split; [reflexivity|exact H].
Qed.

Lemma preserves_Ret R {A} (m : M A) w a w' : preserves R m -> m w = Ret a w' -> R w w'.
Proof. intros H E. specialize (H w). rewrite E in H. exact H. Qed.

Lemma returns_bind {A B} (m : M A) (k : A -> M B) :
  returns m -> (forall a, returns (k a)) -> returns (bind m k).
Proof.
  intros Hm Hk w. destruct (Hm w) as (a & w1 & E). unfold bind. rewrite E. apply Hk.
Qed.

Lemma bind_stuck {A B} (m : M A) (k : A -> M B) w w' :
  stuck (bind m k w) = Some w' ->
  stuck (m w) = Some w' \/ exists a w1, m w = Ret a w1 /\ stuck (k a w1) = Some w'.
Proof.
  unfold bind. destruct (m w) as [a w1|e w1|w1]; simpl; intros H; auto.
  right. eauto.
Qed.

Lemma stuck_final {A} (r : Res A) w : stuck r = Some w -> final r = w.
Proof. destruct r; simpl; congruence. Qed.

Lemma preserves_stuck R {A} (m : M A) w w' :
  preserves R m -> stuck (m w) = Some w' -> R w w'.
Proof. intros H E. specialize (H w). rewrite (stuck_final _ _ E) in H. exact H. Qed.

Ltac frame :=
  repeat match goal with
         | |- quiet _ _ => split; [|split; [|split]]
         | |- track _ _ => split; [|split]
         | |- footprint _ _ => split
         end;
  simpl; try reflexivity; try lia;
  try (exists []; rewrite app_nil_r; split; [reflexivity|constructor]).

Lemma sleep_quiet ms : 0 <= ms -> preserves quiet (sleep ms).
Proof. intros H w. unfold sleep, modify. frame. Qed.

Lemma Date_now_quiet : preserves quiet Date_now.
Proof. apply preserves_get. apply _. Qed.

Lemma existsSync_quiet p : preserves quiet (existsSync p).
Proof. apply preserves_get. apply _. Qed.

Lemma waitLoop_quiet fuel p start T I :
  0 <= I -> preserves quiet (waitLoop fuel p start T I).
Proof.
  intros HI. induction fuel as [|fuel IH]; simpl.
  - intros w. reflexivity.
  - apply preserves_bind; [apply _|apply Date_now_quiet|]. intros t.
    destruct (t - start <? T); [|apply existsSync_quiet].
    apply preserves_bind; [apply _|apply existsSync_quiet|]. intros [|].
    + apply preserves_ret. apply _.
    + apply preserves_bind; [apply _|apply sleep_quiet; assumption|]. intros _. exact IH.
Qed.

Lemma waitForFileExists_quiet p T I : 0 <= I -> preserves quiet (waitForFileExists p T I).
Proof.
  intros HI. unfold waitForFileExists.
  apply preserves_bind; [apply _|apply Date_now_quiet|]. intros t.
  apply waitLoop_quiet. assumption.
Qed.

Lemma waitLoop_returns fuel p start T I w :
  0 < I -> T - (now w - start) <= (Z.of_nat fuel - 1) * I -> (0 < fuel)%nat ->
  exists b w', waitLoop fuel p start T I w = Ret b w'.
Proof.
  intros HI. revert w. induction fuel as [|fuel IH]; intros w Hrem Hf; [lia|].
  simpl. unfold bind, Date_now, get.
  destruct (Z.ltb_spec (now w - start) T) as [Hlt|Hge].
  - unfold existsSync, get. destruct (exists_at w p); [eexists _, _; reflexivity|].
    unfold sleep, modify. apply IH.
    + simpl. nia.
    + destruct fuel; [nia|lia].
  - unfold existsSync, get. eexists _, _; reflexivity.
Qed.

Lemma waitForFileExists_returns p T I :
  0 < I -> 0 <= T -> returns (waitForFileExists p T I).
Proof.
  intros HI HT w. unfold waitForFileExists, bind, Date_now, get.
  apply waitLoop_returns; [assumption| |lia].
  rewrite Nat2Z.inj_succ, Z2Nat.id by (pose proof (Z.div_pos T I); lia).
  pose proof (Z.div_mod T I ltac:(lia)). pose proof (Z.mod_pos_bound T I HI). nia.
Qed.

Lemma sleep_later ms : 0 <= ms -> preserves later (sleep ms).
Proof. intros H w. exists (now w + ms). split; [lia|reflexivity]. Qed.

Lemma waitLoop_later fuel p start T I : 0 <= I -> preserves later (waitLoop fuel p start T I).
Proof.
  intros HI. induction fuel as [|fuel IH]; simpl.
  - intros w. reflexivity.
  - apply preserves_bind; [apply _|apply preserves_get; apply _|]. intros t.
    destruct (t - start <? T); [|apply preserves_get; apply _].
    apply preserves_bind; [apply _|apply preserves_get; apply _|]. intros [|].
    + apply preserves_ret. apply _.
    + apply preserves_bind; [apply _|apply sleep_later; assumption|]. intros _. exact IH.
Qed.

Lemma waitForFileExists_later p T I : 0 <= I -> preserves later (waitForFileExists p T I).
Proof.
  intros HI. unfold waitForFileExists.
  apply preserves_bind; [apply _|apply preserves_get; apply _|]. intros t.
  apply waitLoop_later. assumption.
Qed.

Lemma reaches_bind_l {A B} pre (m : M A) (k : A -> M B) w :
  reaches pre m w -> (forall a, preserves footprint (k a)) -> reaches pre (bind m k) w.
Proof.
  intros (cs & H) Hk. unfold reaches, bind.
  destruct (m w) as [a w1|e w1|w1]; simpl in *; try (exists cs; exact H).
  destruct (fp_calls _ _ (Hk a w1)) as (cs' & E & _).
  exists (cs ++ cs'). rewrite E, H, app_assoc. reflexivity.
Qed.

Lemma reaches_bind_r {A B} pre (m : M A) (k : A -> M B) w a w1 :
  m w = Ret a w1 -> reaches pre (k a) w1 -> reaches pre (bind m k) w.
Proof. intros E H. unfold reaches, bind. rewrite E. exact H. Qed.

Lemma exists_at_delete w p q :
  exists_at (set_files (delete p (files w)) w) q = if decide (p = q) then false else exists_at w q.
Proof.
  unfold exists_at. simpl. rewrite lookup_delete. destruct (decide (p = q)); reflexivity.
Qed.

Lemma unlink_if_exists_spec p w :
  exists w', try_catch (let* e := existsSync p in if e then unlinkSync p else ret tt)
                       (fun _ => ret tt) w = Ret tt w' /\
    (w' = w \/ w' = set_files (delete p (files w)) w) /\ exists_at w' p = false.
Proof.
  unfold try_catch, bind, existsSync, get, unlinkSync.
  destruct (exists_at w p) eqn:E.
  - rewrite E. eexists; split; [reflexivity|]. split; [right; reflexivity|].
    rewrite exists_at_delete. destruct (decide (p = p)); congruence.
  - eexists; split; [reflexivity|]. split; [left; reflexivity|exact E].
Qed.

(** *** [uniqueFilePath] finds a free name *)

Lemma numbered_inj dir base ext i j :
  numbered dir base ext i = numbered dir base ext j -> i = j.
Proof.
  unfold numbered, path_join. intros H.
  do 3 apply app_inv_head in H. apply app_inv_head in H.
  apply app_inv_tail in H. apply of_N_inj, H.
Qed.

Lemma uniqueLoop_returns fuel dir base ext cand i w :
  (exists k, (k < fuel)%nat /\
     exists_at w (match k with
                  | O => cand
                  | S k' => numbered dir base ext (i + N.of_nat k')
                  end) = false) ->
  exists p, uniqueLoop fuel dir base ext cand i w = Ret p w /\ exists_at w p = false.
Proof.
  revert cand i. induction fuel as [|fuel IH]; intros cand i (k & Hk & He); [lia|].
  simpl. unfold bind, existsSync, get. destruct (exists_at w cand) eqn:Ec.
  - apply IH. destruct k as [|k]; [congruence|]. exists k. split; [lia|].
    destruct k as [|k]; [rewrite N.add_0_r in He; exact He|].
    replace (i + 1 + N.of_nat k)%N with (i + N.of_nat (S k))%N by lia. exact He.
  - exists cand. split; [reflexivity|exact Ec].
Qed.

(** Among one more numbered name than there are files, one is free. *)
Lemma some_name_is_free dir base ext w :
  exists k, (k <= size (files w))%nat /\
    exists_at w (numbered dir base ext (1 + N.of_nat k)) = false.
Proof.
  destruct (decide (Forall (fun k => exists_at w (numbered dir base ext (1 + N.of_nat k)) = true)
                      (seq 0 (S (size (files w)))))) as [H|H].
  - exfalso.
    set (l := (fun k => numbered dir base ext (1 + N.of_nat k)) <$> seq 0 (S (size (files w)))).
    assert (Hl : NoDup l).
    { apply NoDup_fmap_2; [|apply NoDup_seq].
      intros a b E. apply numbered_inj in E. lia. }
    assert (Hd : forall p, p ∈ l -> p ∈ dom (files w)).
    { intros p Hp. apply list_elem_of_fmap in Hp as (k & -> & Hk).
      rewrite Forall_forall in H. specialize (H k Hk).
      unfold exists_at in H. apply elem_of_dom.
      destruct (files w !! _); [eauto|discriminate]. }
    assert (Hn : (length l <= size (dom (files w)))%nat).
    { rewrite <- (size_list_to_set (C := gset str) l Hl).
      apply subseteq_size. intros p Hp. apply Hd. set_solver. }
    rewrite size_dom in Hn. unfold l in Hn. rewrite length_fmap, length_seq in Hn. lia.
  - apply not_Forall_Exists in H; [|intros k; apply _].
    apply Exists_exists in H as (k & Hk & He). apply elem_of_seq in Hk.
    exists k. split; [lia|]. simpl in He.
    destruct (exists_at w _); [exfalso; apply He; reflexivity|reflexivity].
Qed.

(** The loop of lines 216-219 ends within the rounds the model gives it,
    on a name no file has. *)
Lemma uniqueFilePath_returns dir base ext w :
  exists p, uniqueFilePath dir base ext w = Ret p w /\ exists_at w p = false.
Proof.
  unfold uniqueFilePath, bind, get.
  destruct (some_name_is_free dir base ext w) as (k & Hk & He).
  apply uniqueLoop_returns. exists (S k). split; [lia|exact He].
Qed.

(** *** Computations that are never left pending *)

Lemma ends_ret {A} (a : A) : ends (ret a).
Proof. intros w. exact I. Qed.

Lemma ends_get {A} (f : World -> A) : ends (get f).
Proof. intros w. exact I. Qed.

Lemma ends_modify f : ends (modify f).
Proof. intros w. exact I. Qed.

Lemma ends_bind {A B} (m : M A) (k : A -> M B) :
  ends m -> (forall a, ends (k a)) -> ends (bind m k).
Proof.
  intros Hm Hk w. specialize (Hm w). unfold bind.
  destruct (m w) as [a w1|e w1|w1]; [apply Hk|exact I|exact Hm].
Qed.

Lemma ends_try_catch {A} (m : M A) (h : str -> M A) :
  ends m -> (forall e, ends (h e)) -> ends (try_catch m h).
Proof.
  intros Hm Hh w. specialize (Hm w). unfold try_catch.
  destruct (m w) as [a w1|e w1|w1]; [exact I|apply Hh|exact Hm].
Qed.

Lemma returns_ends {A} (m : M A) : returns m -> ends m.
Proof. intros H w. destruct (H w) as (a & w' & ->). exact I. Qed.

Lemma uniqueFilePath_ends dir base ext : ends (uniqueFilePath dir base ext).
Proof. intros w. destruct (uniqueFilePath_returns dir base ext w) as (p & -> & _). exact I. Qed.

Lemma renameSync_ends a b : ends (renameSync a b).
Proof. intros w. unfold renameSync. destruct (exists_at w a); exact I. Qed.

Lemma unlinkSync_ends a : ends (unlinkSync a).
Proof. intros w. unfold unlinkSync. destruct (exists_at w a); exact I. Qed.

Ltac ends :=
  repeat match goal with
         | |- ends (ret _) => apply ends_ret
         | |- ends (get _) => apply ends_get
         | |- ends Date_now => apply ends_get
         | |- ends (existsSync _) => apply ends_get
         | |- ends (modify _) => apply ends_modify
         | |- ends (sleep _) => apply ends_modify
         | |- ends (sendToRenderer _) => apply ends_modify
         | |- ends (writeUtf8BomFileSync _ _) => apply ends_modify
         | |- ends (uniqueFilePath _ _ _) => apply uniqueFilePath_ends
         | |- ends (renameSync _ _) => apply renameSync_ends
         | |- ends (unlinkSync _) => apply unlinkSync_ends
         | |- ends (bind _ _) => apply ends_bind; [|intros ?]
         | |- ends (try_catch _ _) => apply ends_try_catch; [|intros ?]
         | |- ends (if ?c then _ else _) => destruct c
         | |- ends (match ?c with _ => _ end) => destruct c
         end.

(** The silent failure of lines 377-384. *)
Lemma fail_unrecognized_spec bmp ir w :
  exists w', fail_unrecognized bmp ir w = Ret Unrecognized w' /\
    lastFailedAt w' = now w /\ now w' = now w /\ isScanning w' = false /\
    exists_at w' bmp = false /\ exists_at w' ir = false /\
    files w' ⊆ files w /\
    sent w' = sent w /\ written w' = written w /\ calls w' = calls w /\
    scanner w' = scanner w /\ scannerOpened w' = scannerOpened w /\
    scanLoopTimer w' = scanLoopTimer w.
Proof.
  unfold fail_unrecognized.
  unfold bind at 1. unfold Date_now, get.
  unfold bind at 1. unfold modify at 1.
  set (w1 := set_lastFailedAt (now w) w).
  destruct (unlink_if_exists_spec bmp w1) as (w2 & E2 & Hw2 & Hb).
  unfold bind at 1. rewrite E2.
  destruct (unlink_if_exists_spec ir w2) as (w3 & E3 & Hw3 & Hi).
  unfold bind at 1. rewrite E3.
  unfold bind, modify, ret.
  eexists; split; [reflexivity|].
  assert (Hb3 : exists_at w3 bmp = false).
  { destruct Hw3 as [->| ->]; [exact Hb|]. rewrite exists_at_delete.
    destruct (decide (ir = bmp)); [reflexivity|exact Hb]. }
  assert (Hsub : files w3 ⊆ files w).
  { transitivity (files w2).
    - destruct Hw3 as [->| ->]; [reflexivity|apply delete_subseteq].
    - destruct Hw2 as [->| ->]; [reflexivity|apply delete_subseteq]. }
  assert (Hrest : now w3 = now w /\ lastFailedAt w3 = now w /\ sent w3 = sent w /\
                  written w3 = written w /\ calls w3 = calls w /\ scanner w3 = scanner w /\
                  scannerOpened w3 = scannerOpened w /\ scanLoopTimer w3 = scanLoopTimer w).
  { destruct Hw3 as [->| ->], Hw2 as [->| ->]; repeat split; reflexivity. }
  destruct Hrest as (? & ? & ? & ? & ? & ? & ? & ?).
  simpl. unfold exists_at in *. simpl. repeat split; assumption.
Qed.


(** *** The event loop and the number tests *)

Lemma call_performScan_busy_matches s : busy_matches s -> busy_matches (call_performScan s).
Proof.
  unfold busy_matches, call_performScan. intros H.
  destruct (isScanning (world s)) eqn:E; simpl; [rewrite E; exact H|]. rewrite H. reflexivity.
Qed.

Lemma step_busy_matches s e : busy_matches s -> busy_matches (step s e).
Proof.
  intros H. destruct e; simpl; try exact H.
  - destruct (scanLoopTimer (world s) && tick_passes (world s));
      [apply call_performScan_busy_matches|]; exact H.
  - destruct (bool_decide (scanner (world s) = None) || negb (scannerOpened (world s)));
      [|apply call_performScan_busy_matches]; exact H.
  - unfold busy_matches in *. destruct (in_flight s) as [|n] eqn:E; [rewrite E; exact H|].
    destruct (isScanning (world s)) eqn:B; [|discriminate].
    injection H as ->. destruct o; simpl; try reflexivity. rewrite E, B. reflexivity.
  - unfold busy_matches in *. simpl. destruct (scanLoopTimer (world s)); exact H.
Qed.

Lemma run_busy_matches s es : busy_matches s -> busy_matches (run s es).
Proof.
  revert s. induction es as [|e es IH]; intros s H; [exact H|].
  simpl. apply IH, step_busy_matches, H.
Qed.

Lemma idle_busy_matches w : isScanning w = false -> busy_matches (idle w).
Proof. intros H. unfold busy_matches. simpl. rewrite H. reflexivity. Qed.

Lemma call_performScan_busy s :
  isScanning (world s) = true -> call_performScan s = s.
Proof. intros H. unfold call_performScan. rewrite H. reflexivity. Qed.

Lemma step_started_busy s e :
  isScanning (world s) = true -> started (step s e) = started s.
Proof.
  intros H. destruct e; simpl; try reflexivity.
  - destruct (_ && _); [rewrite call_performScan_busy by exact H|]; reflexivity.
  - destruct (_ || _); [|rewrite call_performScan_busy by exact H]; reflexivity.
  - destruct (in_flight s), o; reflexivity.
Qed.

Lemma isValidPassportMRZ_length s :
  isValidPassportMRZ s = true -> (60 <= length s)%nat.
Proof.
  unfold isValidPassportMRZ. destruct s as [|c s]; [discriminate|].
  intros H. apply andb_true_iff in H as [_ H]. apply Nat.leb_le in H.
  pose proof (length_remove is_space (c :: s)). lia.
Qed.

Lemma matches_spec pat s :
  matches pat s = true <-> Forall2 (fun p c => p c = true) pat s.
Proof.
  revert s. induction pat as [|p pat IH]; intros [|c s]; simpl.
  - split; [constructor|reflexivity].
  - split; [discriminate|inversion 1].
  - split; [discriminate|inversion 1].
  - rewrite andb_true_iff, IH. split.
    + intros [? ?]. constructor; assumption.
    + inversion 1; subst. split; assumption.
Qed.

Lemma matches_app p1 p2 s :
  matches (p1 ++ p2) s = true <->
  exists a b, s = a ++ b /\ matches p1 a = true /\ matches p2 b = true.
Proof.
  revert s. induction p1 as [|p p1 IH]; intros s; simpl.
  - split.
    + intros H. exists [], s. auto.
    + intros (a & b & -> & Ha & Hb). destruct a; [exact Hb|discriminate].
  - destruct s as [|c s].
    + split; [discriminate|]. intros ([|? ?] & b & E & Ha & _); discriminate.
    + rewrite andb_true_iff, IH. split.
      * intros (Hc & a & b & -> & Ha & Hb). exists (c :: a), b. simpl. rewrite Hc. auto.
      * intros ([|c' a] & b & E & Ha & Hb); [discriminate|].
        simpl in E. injection E as <- ->. apply andb_true_iff in Ha as [? ?].
        split; [assumption|]. exists a, b. auto.
Qed.

Lemma matches_digits n s :
  matches (digits n) s = true <-> length s = n /\ forallb is_digit s = true.
Proof.
  revert s. induction n as [|n IH]; intros [|c s]; simpl.
  - split; auto.
  - split; [discriminate|]. intros [? _]; discriminate.
  - split; [discriminate|]. intros [? _]; discriminate.
  - rewrite !andb_true_iff, IH. split.
    + intros (? & ? & ?). auto.
    + intros (? & ? & ?). split; [assumption|]. split; [lia|assumption].
Qed.

Lemma looksLikeKoreanRRN_unfold s :
  looksLikeKoreanRRN (Some s) =
    match s with
    | [] => false
    | _ => matches (digits 6 ++ [dash] ++ digits 7) (trim s) || matches (digits 13) (trim s)
    end.
Proof. reflexivity. Qed.

Lemma looksLikeKoreanRRN_shape idNo :
  looksLikeKoreanRRN idNo = true <->
  exists s, idNo = Some s /\ rrn_shape (trim s).
Proof.
  split.
  - destruct idNo as [s|]; [|discriminate]. rewrite looksLikeKoreanRRN_unfold.
    intros H. exists s. split; [reflexivity|].
    destruct s as [|c s]; [discriminate|]. apply orb_true_iff in H as [H|H].
    + apply matches_app in H as (a & r & E & Ha & H).
      apply matches_app in H as (d & b & -> & Hd & Hb).
      apply matches_digits in Ha as [La Ha], Hb as [Lb Hb].
      destruct d as [|x [|y d]]; cbn [matches] in Hd;
        [discriminate| |rewrite andb_false_r in Hd; discriminate].
      rewrite andb_true_r in Hd. apply N.eqb_eq in Hd as ->.
      exists a, b. split; [exact La|]. split; [exact Lb|]. split; [exact Ha|].
      split; [exact Hb|]. right. exact E.
    + apply (matches_digits 13) in H as [L H].
      exists (take 6 (trim (c :: s))), (drop 6 (trim (c :: s))).
      rewrite length_take, length_drop, L.
      split; [reflexivity|]. split; [reflexivity|]. split; [|split].
      * rewrite <- (take_drop 6 (trim (c :: s))), forallb_app in H.
        apply andb_true_iff in H as [H _]. exact H.
      * rewrite <- (take_drop 6 (trim (c :: s))), forallb_app in H.
        apply andb_true_iff in H as [_ H]. exact H.
      * left. symmetry. apply take_drop.
  - intros (s & -> & a & b & La & Lb & Ha & Hb & E). rewrite looksLikeKoreanRRN_unfold.
    destruct s as [|c s].
    { exfalso. change (trim []) with (@nil N) in E.
      destruct E as [E|E]; destruct a; discriminate. }
    apply orb_true_iff. destruct E as [E|E]; rewrite E.
    + right. apply (matches_digits 13). rewrite length_app, forallb_app, Ha, Hb. split; [lia|reflexivity].
    + left. apply matches_app. exists a, ([45%N] ++ b). split; [reflexivity|].
      split; [apply matches_digits; auto|].
      apply matches_app. exists [45%N], b. split; [reflexivity|]. split; [reflexivity|].
      apply matches_digits; auto.
Qed.



(** *** The scan, for any device and host *)

Section WithHost.

Variable host : Host.

#[local] Abbreviation performScan := (Main.performScan host).
#[local] Abbreviation attempt := (Main.attempt host).
#[local] Abbreviation try_block := (Main.try_block host).
#[local] Abbreviation after_scan := (Main.after_scan host).
#[local] Abbreviation examine := (Main.examine host).
#[local] Abbreviation save := (Main.save host).
#[local] Abbreviation save_files := (Main.save_files host).
#[local] Abbreviation tick := (Main.tick host).
#[local] Abbreviation manual_scan := (Main.manual_scan host).

Lemma issue_quiet {A} c (reply : Device -> nat -> Reply A) l :
  attempt_call (c, None) -> preserves quiet (issue host c reply None l).
Proof.
  intros Hc w. unfold issue. destruct (scanner w); [|reflexivity].
  assert (Hcalls : exists cs, calls w ++ [(c, None)] = calls w ++ cs /\ Forall attempt_call cs).
  { exists [(c, None)]. split; [reflexivity|]. constructor; [exact Hc|constructor]. }
  unfold settle. destruct (reply (device host) (length (calls w))) as [d v|d e|]; simpl;
    (split; [split; [split; simpl; try reflexivity; try lia;
                     try exact Hcalls; exists []; rewrite app_nil_r; split; [reflexivity|constructor]
                    |split; reflexivity]
            |repeat split; reflexivity]).
Qed.

Lemma mrz_loop_quiet n : preserves quiet (mrz_loop host n).
Proof.
  induction n as [|n IH]; simpl; [apply preserves_ret; apply _|].
  apply preserves_bind; [apply _|apply issue_quiet; split; exact I || reflexivity|].
  intros r. destruct (isValidPassportMRZ _); [apply preserves_ret; apply _|].
  apply preserves_bind; [apply _|apply sleep_quiet; lia|]. intros _. exact IH.
Qed.

Lemma ocr_loop_quiet n : preserves quiet (ocr_loop host n).
Proof.
  induction n as [|n IH]; simpl; [apply preserves_ret; apply _|].
  apply preserves_bind; [apply _|apply issue_quiet; split; exact I || reflexivity|]. intros license.
  apply preserves_bind; [apply _|apply issue_quiet; split; exact I || reflexivity|]. intros idCard.
  apply preserves_bind; [apply _|apply issue_quiet; split; exact I || reflexivity|]. intros alien.
  destruct (adopt _ _ _); [apply preserves_ret; apply _|].
  apply preserves_bind; [apply _|apply sleep_quiet; lia|]. intros _. exact IH.
Qed.

Lemma extract_quiet sr : preserves quiet (extract host sr).
Proof.
  unfold extract.
  apply preserves_bind; [apply _|apply Date_now_quiet|]. intros t.
  apply preserves_bind; [apply _| |].
  - destruct (type sr); try (apply preserves_ret; apply _).
    apply preserves_bind; [apply _|apply mrz_loop_quiet|].
    intros [c|]; apply preserves_ret; apply _.
  - intros x. destruct (documentData x); [apply preserves_ret; apply _|].
    destruct (type sr); try (apply preserves_ret; apply _).
    destruct (isPassportConfirmed x); [apply preserves_ret; apply _|].
    apply preserves_bind; [apply _|apply ocr_loop_quiet|].
    intros [[id d]|]; apply preserves_ret; apply _.
Qed.

Lemma adopt_accepted license idCard alien id d :
  adopt license idCard alien = Some (id, d) -> validator_accepts d = true.
Proof.
  unfold adopt.
  destruct (looksLikeKoreanRRN (id_idNo <$> idCard)) eqn:E1.
  { destruct idCard as [c|]; simpl; [|discriminate]. intros [= <- <-]. exact E1. }
  destruct (looksLikeDriverLicenseNo (dl_licenseNo <$> license)) eqn:E2.
  { destruct license as [l|]; simpl; [|discriminate]. intros [= <- <-]. exact E2. }
  destruct (looksLikeAlienRegNo (al_alienNo <$> alien)) eqn:E3; [|discriminate].
  destruct alien as [a|]; simpl; [|discriminate]. intros [= <- <-]. exact E3.
Qed.

Lemma mrz_loop_valid n w c w' :
  mrz_loop host n w = Ret (Some c) w' -> isValidPassportMRZ c = true.
Proof.
  revert w. induction n as [|n IH]; intros w; simpl; [discriminate|].
  intros H. apply bind_Ret_inv in H as (r & w1 & _ & H).
  destruct (isValidPassportMRZ (default [] r)) eqn:E.
  - injection H as <- _. exact E.
  - apply bind_Ret_inv in H as (_ & w2 & _ & H). eapply IH, H.
Qed.

Lemma ocr_loop_accepted n w id d w' :
  ocr_loop host n w = Ret (Some (id, d)) w' -> validator_accepts d = true.
Proof.
  revert w. induction n as [|n IH]; intros w; simpl; [discriminate|].
  intros H.
  apply bind_Ret_inv in H as (license & w1 & _ & H).
  apply bind_Ret_inv in H as (idCard & w2 & _ & H).
  apply bind_Ret_inv in H as (alien & w3 & _ & H).
  destruct (adopt license idCard alien) as [[id' d']|] eqn:E.
  - injection H as <- <- _. eapply adopt_accepted, E.
  - apply bind_Ret_inv in H as (_ & w4 & _ & H). eapply IH, H.
Qed.

(** What extraction leaves in its variables. *)
Lemma extract_invariant sr w x w' :
  extract host sr w = Ret x w' ->
  (mrzText x = [] \/ isValidPassportMRZ (mrzText x) = true) /\
  (forall d, documentData x = Some d ->
     match d with
     | PASSPORT _ => isValidPassportMRZ (mrzText x) = true
     | _ => validator_accepts d = true
     end).
Proof.
  unfold extract. intros H.
  apply bind_Ret_inv in H as (t & w1 & _ & H).
  apply bind_Ret_inv in H as (x1 & w2 & H1 & H).
  assert (Hx1 : (mrzText x1 = [] /\ documentData x1 = None /\ isPassportConfirmed x1 = false) \/
                (isValidPassportMRZ (mrzText x1) = true /\ isPassportConfirmed x1 = true /\
                 forall d, documentData x1 = Some d -> exists p, d = PASSPORT p)).
  { destruct (type sr).
    - apply bind_Ret_inv in H1 as ([c|] & w3 & Hl & H1); injection H1 as <- _.
      + right. simpl. split; [eapply mrz_loop_valid, Hl|]. split; [reflexivity|].
        intros d. destruct (parseMrzFull c) as [p|]; simpl; [|discriminate].
        intros [= <-]. eauto.
      + left. auto.
    - injection H1 as <- _. left. auto.
    - injection H1 as <- _. left. auto. }
  destruct Hx1 as [(Hm & Hd & Hc)|(Hm & Hc & Hd)].
  - rewrite Hd, Hc in H. destruct (type sr).
    + injection H as <- _. split; [left; exact Hm|]. rewrite Hd. discriminate.
    + apply bind_Ret_inv in H as ([[id d]|] & w3 & Hl & H); injection H as <- _.
      * simpl. split; [left; exact Hm|]. intros d' [= <-].
        pose proof (ocr_loop_accepted _ _ _ _ _ Hl) as Ha.
        destruct d; [discriminate|exact Ha..].
      * split; [left; exact Hm|]. rewrite Hd. discriminate.
    + injection H as <- _. split; [left; exact Hm|]. rewrite Hd. discriminate.
  - assert (x = x1) as ->.
    { rewrite Hc in H. destruct (documentData x1), (type sr); injection H as <- _; reflexivity. }
    split; [right; exact Hm|]. intros d Hd'. destruct (Hd d Hd') as (p & ->). exact Hm.
Qed.

Lemma uniqueLoop_track fuel dir base ext cand i :
  preserves track (uniqueLoop fuel dir base ext cand i).
Proof.
  revert cand i. induction fuel as [|fuel IH]; intros cand i; simpl.
  - intros w. reflexivity.
  - apply preserves_bind; [apply _|apply preserves_get; apply _|].
    intros [|]; [apply IH|apply preserves_ret; apply _].
Qed.

Lemma uniqueFilePath_track dir base ext : preserves track (uniqueFilePath dir base ext).
Proof.
  unfold uniqueFilePath. apply preserves_bind; [apply _|apply preserves_get; apply _|].
  intros n. apply uniqueLoop_track.
Qed.

Lemma renameSync_track src dst : preserves track (renameSync src dst).
Proof. intros w. unfold renameSync. destruct (exists_at w src); simpl; frame. Qed.

Lemma writeUtf8BomFileSync_track p c : preserves track (writeUtf8BomFileSync p c).
Proof. intros w. unfold writeUtf8BomFileSync, modify. simpl. frame. Qed.

Lemma rename_all_track base idx fs : preserves track (rename_all base idx fs).
Proof.
  revert idx. induction fs as [|f fs IH]; intros idx; simpl.
  - apply preserves_ret. apply _.
  - apply preserves_bind; [apply _|apply uniqueFilePath_track|]. intros dest.
    apply preserves_bind; [apply _|apply renameSync_track|]. intros _.
    apply preserves_bind; [apply _|apply IH|]. intros saved.
    apply preserves_ret. apply _.
Qed.

Lemma send_result_track m : preserves track (sendToRenderer (scan_result m)).
Proof.
  intros w. unfold sendToRenderer, modify. simpl.
  split; [|split; reflexivity]. split; simpl; try reflexivity; try lia.
  - exists []. rewrite app_nil_r. split; [reflexivity|constructor].
  - exists [scan_result m]. split; [reflexivity|]. constructor; [exact I|constructor].
Qed.

Lemma quiet_preserves_track {A} (m : M A) : preserves quiet m -> preserves track m.
Proof. intros H w. apply quiet_track, H. Qed.

Lemma save_files_track bmp ir dt x : preserves track (save_files bmp ir dt x).
Proof.
  unfold Main.save_files.
  apply preserves_bind; [apply _|apply preserves_get; apply _|]. intros t.
  apply preserves_bind; [apply _|apply preserves_get; apply _|]. intros hasBmp.
  apply preserves_bind; [apply _|apply preserves_get; apply _|]. intros hasIR.
  apply preserves_bind; [apply _|apply rename_all_track|]. intros saved.
  apply preserves_bind; [apply _|apply uniqueFilePath_track|]. intros txt.
  apply preserves_bind; [apply _|apply writeUtf8BomFileSync_track|]. intros _.
  apply preserves_bind; [apply _| |].
  { destruct (documentData x); [|apply preserves_ret; apply _].
    apply preserves_bind; [apply _|apply uniqueFilePath_track|]. intros json.
    apply writeUtf8BomFileSync_track. }
  intros _.
  apply preserves_bind; [apply _|apply send_result_track|]. intros _.
  apply quiet_preserves_track, sleep_quiet. lia.
Qed.

Lemma call_scanAuto_track base : preserves track (call_scanAuto host base).
Proof.
  intros w. unfold call_scanAuto.
  destruct (scanner w) eqn:Hs; unfold issue; simpl; rewrite Hs; [|simpl; frame].
  assert (Hcalls : exists cs, calls w ++ [(scanAuto base, None)] = calls w ++ cs
                              /\ Forall attempt_call cs).
  { exists [(scanAuto base, None)]. split; [reflexivity|].
    constructor; [split; [reflexivity|exact I]|constructor]. }
  unfold settle. simpl.
  destruct (dev_scanAuto (device host) (length (calls w))) as [d v|d e|]; simpl;
    (split; [split; simpl; try reflexivity; try lia; try exact Hcalls;
             exists []; rewrite app_nil_r; split; [reflexivity|constructor]
            |split; reflexivity]).
Qed.

Lemma examine_quiet stamp sr : preserves quiet (examine stamp sr).
Proof.
  unfold Main.examine.
  apply preserves_bind; [apply _|apply waitForFileExists_quiet; lia|]. intros _.
  apply preserves_bind; [apply _|apply waitForFileExists_quiet; lia|]. intros _.
  apply preserves_bind; [apply _|apply sleep_quiet; lia|]. intros _.
  apply preserves_bind; [apply _|apply issue_quiet; split; [reflexivity|exact I]|]. intros dt.
  apply preserves_bind; [apply _|apply extract_quiet|]. intros x.
  apply preserves_ret. apply _.
Qed.

Lemma save_Ret bmp ir dt x w o w' :
  save bmp ir dt x w = Ret o w' ->
  o = Saved /\ exists w1, save_files bmp ir dt x w = Ret tt w1 /\ w' = set_isScanning false w1.
Proof.
  unfold Main.save. intros H. apply bind_Ret_inv in H as ([] & w1 & E & H).
  unfold bind, modify, ret in H. injection H as <- <-. eauto.
Qed.

Lemma save_stuck bmp ir dt x w w' :
  stuck (save bmp ir dt x w) = Some w' -> track w w'.
Proof.
  unfold Main.save. intros H. apply bind_stuck in H as [H|(a & w1 & _ & H)].
  - eapply preserves_stuck; [|exact H]; apply save_files_track.
  - discriminate.
Qed.

(** How [after_scan] can end when it returns. *)
Lemma after_scan_Ret stamp sr w o w' :
  after_scan stamp sr w = Ret o w' ->
  (success sr = false /\ o = NoDocument /\ w' = set_isScanning false w) \/
  (success sr = true /\ exists dt x w1,
     examine stamp sr w = Ret (dt, x) w1 /\
     ((recognized x = true /\ o = Saved /\
       exists w2, save_files (stamp ++ js ".bmp") (stamp ++ js "_IR.bmp") dt x w1 = Ret tt w2
                  /\ w' = set_isScanning false w2) \/
      (recognized x = false /\
       fail_unrecognized (path_join SAVE_FOLDER (stamp ++ js ".bmp"))
                         (path_join SAVE_FOLDER (stamp ++ js "_IR.bmp")) w1
         = Ret o w'))).
Proof.
  unfold Main.after_scan. destruct (success sr).
  - intros H. right. split; [reflexivity|].
    apply bind_Ret_inv in H as ([dt x] & w1 & E & H). exists dt, x, w1.
    split; [exact E|]. simpl in H. destruct (recognized x).
    + left. apply save_Ret in H as (-> & w2 & E2 & ->). eauto 6.
    + right. auto.
  - intros H. left. unfold bind, modify, ret in H. injection H as <- <-. auto.
Qed.

Lemma after_scan_stuck stamp sr w w' :
  stuck (after_scan stamp sr w) = Some w' -> track w w'.
Proof.
  unfold Main.after_scan. destruct (success sr); [|discriminate].
  intros H. apply bind_stuck in H as [H|([dt x] & w1 & E & H)].
  - apply quiet_track. eapply preserves_stuck; [|exact H]; apply examine_quiet.
  - transitivity w1.
    + apply quiet_track. eapply preserves_Ret; [|exact E]; apply examine_quiet.
    + simpl in H. destruct (recognized x).
      * eapply save_stuck, H.
      * destruct (fail_unrecognized_spec
                    (path_join SAVE_FOLDER (stamp ++ js ".bmp"))
                    (path_join SAVE_FOLDER (stamp ++ js "_IR.bmp")) w1) as (w2 & E2 & _).
        rewrite E2 in H. discriminate.
Qed.

Lemma set_isScanning_footprint b w : footprint w (set_isScanning b w).
Proof. frame. Qed.

Lemma after_scan_footprint stamp sr : preserves footprint (after_scan stamp sr).
Proof.
  intros w. destruct (after_scan stamp sr w) as [o w'|e w'|w'] eqn:E; simpl.
  - apply after_scan_Ret in E as [(_ & _ & ->)|(_ & dt & x & w1 & Eb & [(_ & _ & w2 & Es & ->)|(_ & Ef)])].
    + apply set_isScanning_footprint.
    + transitivity w1.
      { apply track_footprint, quiet_track. eapply preserves_Ret; [|exact Eb]; apply examine_quiet. }
      transitivity w2; [|apply set_isScanning_footprint].
      apply track_footprint. eapply preserves_Ret; [|exact Es]; apply save_files_track.
    + transitivity w1.
      { apply track_footprint, quiet_track. eapply preserves_Ret; [|exact Eb]; apply examine_quiet. }
      destruct (fail_unrecognized_spec
                  (path_join SAVE_FOLDER (stamp ++ js ".bmp"))
                  (path_join SAVE_FOLDER (stamp ++ js "_IR.bmp")) w1)
        as (w2 & E2 & ? & ? & ? & ? & ? & ? & ? & ? & ? & ? & ? & ?).
      rewrite E2 in Ef. injection Ef as _ <-.
      split; try assumption; try lia.
      * exists []. rewrite app_nil_r. split; [assumption|constructor].
      * exists []. rewrite app_nil_r. split; [assumption|constructor].
  - apply track_footprint, (after_scan_stuck stamp sr). rewrite E. reflexivity.
  - apply track_footprint, (after_scan_stuck stamp sr). rewrite E. reflexivity.
Qed.

Lemma try_block_footprint : preserves footprint try_block.
Proof.
  unfold Main.try_block.
  apply preserves_bind; [apply _|apply preserves_get; apply _|]. intros t.
  apply preserves_bind; [apply _| |intros sr; apply after_scan_footprint].
  intros w. apply track_footprint, call_scanAuto_track.
Qed.

Lemma try_block_stuck w w' : stuck (try_block w) = Some w' -> track w w'.
Proof.
  unfold Main.try_block. intros H. apply bind_stuck in H as [H|(t & w1 & E & H)]; [discriminate|].
  unfold Date_now, get in E. injection E as <- <-.
  apply bind_stuck in H as [H|(sr & w2 & E & H)].
  - eapply preserves_stuck; [|exact H]; apply call_scanAuto_track.
  - transitivity w2; [eapply preserves_Ret; [|exact E]; apply call_scanAuto_track|].
    eapply after_scan_stuck, H.
Qed.

(** Every exit clears the busy flag; only the silent failure stamps the
    backoff. *)
Lemma try_block_Ret w o w' :
  try_block w = Ret o w' ->
  (o = NoDocument \/ o = Unrecognized \/ o = Saved) /\ isScanning w' = false /\
  lastFailedAt w' = (match o with Unrecognized => now w' | _ => lastFailedAt w end).
Proof.
  unfold Main.try_block. intros H. apply bind_Ret_inv in H as (t & w0 & E & H).
  unfold Date_now, get in E. injection E as <- <-.
  apply bind_Ret_inv in H as (sr & w1 & E & H).
  pose proof (preserves_Ret _ _ _ _ _ (call_scanAuto_track _) E) as (_ & L1 & _).
  apply after_scan_Ret in H
    as [(_ & -> & ->)|(_ & dt & x & w2 & Eb & [(_ & -> & w3 & Es & ->)|(_ & Ef)])].
  - simpl. auto.
  - pose proof (preserves_Ret _ _ _ _ _ (examine_quiet _ _) Eb) as ((_ & L2 & _) & _).
    pose proof (preserves_Ret _ _ _ _ _ (save_files_track _ _ _ _) Es) as (_ & L3 & _).
    simpl. split; [auto|]. split; [reflexivity|congruence].
  - destruct (fail_unrecognized_spec
                (path_join SAVE_FOLDER (scanStampOf host (now w) ++ js ".bmp"))
                (path_join SAVE_FOLDER (scanStampOf host (now w) ++ js "_IR.bmp")) w2)
      as (w3 & E3 & ? & ? & ? & _).
    rewrite E3 in Ef. injection Ef as <- <-. split; [auto|]. split; [assumption|congruence].
Qed.

Lemma attempt_footprint : preserves footprint attempt.
Proof.
  intros w. unfold Main.attempt.
  apply (preserves_try_catch footprint); [apply try_block_footprint|].
  intros e w1. unfold bind, modify, ret. simpl. apply set_isScanning_footprint.
Qed.

(** [performScan] never rejects; when it returns the busy flag is clear. *)
Lemma attempt_result w :
  (exists o w', attempt w = Ret o w' /\ o <> Busy /\ isScanning w' = false /\
     lastFailedAt w' = (match o with Unrecognized => now w' | _ => lastFailedAt w end)) \/
  (exists w', attempt w = Hang w' /\ isScanning w' = isScanning w /\
     lastFailedAt w' = lastFailedAt w).
Proof.
  unfold Main.attempt, try_catch.
  destruct (try_block w) as [o w'|e w'|w'] eqn:E.
  - left. exists o, w'. split; [reflexivity|].
    apply try_block_Ret in E as ([->|[->| ->]] & ? & ?); repeat split; auto; discriminate.
  - left. exists Failed, (set_isScanning false w'). split; [reflexivity|].
    assert (track w w') as (_ & L & _) by (apply try_block_stuck; rewrite E; reflexivity).
    repeat split; [discriminate|exact L].
  - right. exists w'. split; [reflexivity|].
    assert (track w w') as (_ & L & B) by (apply try_block_stuck; rewrite E; reflexivity).
    auto.
Qed.

Lemma performScan_busy w : isScanning w = true -> performScan w = Ret Busy w.
Proof. intros H. unfold Main.performScan, enter, bind, get. rewrite H. reflexivity. Qed.

Lemma tick_returns_early w : tick_passes w = false -> tick w = Ret None w.
Proof. intros H. unfold Main.tick, bind, get. rewrite H. reflexivity. Qed.

Lemma tick_passes_busy w : isScanning w = true -> tick_passes w = false.
Proof.
  intros H. unfold tick_passes. rewrite H, orb_true_r. reflexivity.
Qed.

Lemma tick_passes_backoff w :
  now w - lastFailedAt w < FAIL_BACKOFF_MS -> tick_passes w = false.
Proof.
  intros H. unfold tick_passes. apply Z.ltb_lt in H. rewrite H. apply andb_false_r.
Qed.

(** The waits of [examine] return and move the clock only. *)
Lemma waits_return stamp w :
  exists t, now w <= t /\
    (waitForFileExists (path_join SAVE_FOLDER (stamp ++ js ".bmp")) 8000 250 ;;
     waitForFileExists (path_join SAVE_FOLDER (stamp ++ js "_IR.bmp")) 1500 250 ;;
     sleep 600) w = Ret tt (set_now t w).
Proof.
  destruct (waitForFileExists_returns (path_join SAVE_FOLDER (stamp ++ js ".bmp"))
              8000 250 ltac:(lia) ltac:(lia) w) as (b1 & w1 & E1).
  pose proof (preserves_Ret later _ _ _ _ (waitForFileExists_later _ 8000 250 ltac:(lia)) E1)
    as (t1 & H1 & ->).
  destruct (waitForFileExists_returns (path_join SAVE_FOLDER (stamp ++ js "_IR.bmp"))
              1500 250 ltac:(lia) ltac:(lia) (set_now t1 w)) as (b2 & w2 & E2).
  pose proof (preserves_Ret later _ _ _ _ (waitForFileExists_later _ 1500 250 ltac:(lia)) E2)
    as (t2 & H2 & ->).
  exists (t2 + 600). simpl in H2. split; [lia|].
  unfold bind at 1. rewrite E1. unfold bind at 1. rewrite E2. reflexivity.
Qed.

Lemma examine_Ret stamp sr w dt x w' :
  examine stamp sr w = Ret (dt, x) w' -> exists w1 w2, extract host sr w1 = Ret x w2.
Proof.
  unfold Main.examine. intros H.
  apply bind_Ret_inv in H as (? & ? & _ & H).
  apply bind_Ret_inv in H as (? & ? & _ & H).
  apply bind_Ret_inv in H as (? & ? & _ & H).
  apply bind_Ret_inv in H as (? & w1 & _ & H).
  apply bind_Ret_inv in H as (x' & w2 & E & H).
  injection H as _ <- _. eauto.
Qed.

Lemma recognized_iff sr w x w' :
  extract host sr w = Ret x w' ->
  (recognized x = true <->
     ((10 < length (mrzText x))%nat /\ isValidPassportMRZ (mrzText x) = true) \/
     (exists d, documentData x = Some d /\ validator_accepts d = true)).
Proof.
  intros H. apply extract_invariant in H as [Hm Hd]. unfold recognized. split.
  - intros R. apply orb_true_iff in R as [R|R].
    + left. destruct (mrzText x) as [|c s] eqn:E; [discriminate|].
      apply Nat.ltb_lt in R. split; [exact R|]. destruct Hm as [Hm|Hm]; [discriminate|exact Hm].
    + apply bool_decide_eq_true in R as [d Ed]. specialize (Hd d Ed).
      destruct d; [left|right; eauto..].
      split; [|exact Hd]. apply isValidPassportMRZ_length in Hd. lia.
  - intros [[L _]|(d & Ed & _)]; apply orb_true_iff.
    + left. destruct (mrzText x); [simpl in L; lia|]. apply Nat.ltb_lt, L.
    + right. apply bool_decide_eq_true. eauto.
Qed.

(** What the silent failure leaves, seen from the start of [after_scan]. *)
Lemma after_scan_unrecognized stamp sr w w' :
  after_scan stamp sr w = Ret Unrecognized w' ->
  exists_at w' (path_join SAVE_FOLDER (stamp ++ js ".bmp")) = false /\
  exists_at w' (path_join SAVE_FOLDER (stamp ++ js "_IR.bmp")) = false /\
  files w' ⊆ files w /\ written w' = written w /\ sent w' = sent w /\
  isScanning w' = false /\ lastFailedAt w' = now w'.
Proof.
  intros H. apply after_scan_Ret in H
    as [(_ & ? & _)|(_ & dt & x & w1 & Eb & [(_ & ? & _)|(_ & Ef)])]; try discriminate.
  pose proof (preserves_Ret quiet _ _ _ _ (examine_quiet _ _) Eb) as (_ & F & S & W).
  destruct (fail_unrecognized_spec (path_join SAVE_FOLDER (stamp ++ js ".bmp"))
              (path_join SAVE_FOLDER (stamp ++ js "_IR.bmp")) w1)
    as (w2 & E2 & L & N & B & Xb & Xi & Sub & Se & Wr & _).
  rewrite E2 in Ef. injection Ef as <-.
  split; [exact Xb|]. split; [exact Xi|]. split; [rewrite <- F; exact Sub|].
  repeat split; congruence.
Qed.

Lemma save_footprint bmp ir dt x : preserves footprint (save bmp ir dt x).
Proof.
  unfold Main.save. apply preserves_bind; [apply _| |].
  - intros w. apply track_footprint, save_files_track.
  - intros _. apply preserves_bind; [apply _| |intros; apply preserves_ret; apply _].
    intros w. apply set_isScanning_footprint.
Qed.

Lemma fail_unrecognized_footprint bmp ir : preserves footprint (fail_unrecognized bmp ir).
Proof.
  intros w. destruct (fail_unrecognized_spec bmp ir w)
    as (w' & E & ? & ? & ? & ? & ? & ? & ? & ? & ? & ? & ? & ?).
  rewrite E. simpl. split; try assumption; try lia.
  - exists []. rewrite app_nil_r. split; [assumption|constructor].
  - exists []. rewrite app_nil_r. split; [assumption|constructor].
Qed.

(** A call that is issued shows in the trace, however it settles. *)
Lemma issue_reaches {A} c (reply : Device -> nat -> Reply A) dl l w g :
  scanner w = Some g -> reaches (calls w ++ [(c, dl)]) (issue host c reply dl l) w.
Proof.
  intros Hs. exists []. rewrite app_nil_r. unfold issue. rewrite Hs. unfold settle.
  destruct dl as [ms|], (reply (device host) (length (calls w))) as [d v|d e|]; simpl;
    try destruct (Z.max 0 d <? ms); reflexivity.
Qed.

Lemma issue_resolves {A} c (reply : Device -> nat -> Reply A) l w g d v :
  scanner w = Some g -> reply (device host) (length (calls w)) = Resolve d v ->
  issue host c reply None l w = Ret v (delay d (set_calls (calls w ++ [(c, None)]) w)).
Proof. intros Hs Hr. unfold issue. rewrite Hs, Hr. reflexivity. Qed.

Lemma issue_resolves_at {A} c (reply : Device -> nat -> Reply A) l w g n d v :
  scanner w = Some g -> length (calls w) = n -> reply (device host) n = Resolve d v ->
  issue host c reply None l w = Ret v (delay d (set_calls (calls w ++ [(c, None)]) w)).
Proof. intros Hs <- Hr. eapply issue_resolves; eassumption. Qed.

Lemma ocr_loop_footprint n : preserves footprint (ocr_loop host n).
Proof. intros w. apply track_footprint, quiet_track, ocr_loop_quiet. Qed.

Lemma examine_after_waits stamp sr w :
  exists t, now w <= t /\
    examine stamp sr w =
      (let* docType := issue host getDocumentType dev_getDocumentType None [] in
       let* x := extract host sr in ret (docType, x)) (set_now t w).
Proof.
  destruct (waits_return stamp w) as (t & Ht & Ew). exists t. split; [exact Ht|].
  unfold Main.examine. unfold bind at 1 in Ew. unfold bind at 1.
  destruct (waitForFileExists _ 8000 250 w) as [b1 w1|e1 w1|w1]; try discriminate.
  unfold bind at 1 in Ew. unfold bind at 1.
  destruct (waitForFileExists _ 1500 250 w1) as [b2 w2|e2 w2|w2]; try discriminate.
  unfold bind at 1. rewrite Ew. reflexivity.
Qed.

(** A card scan reaches the OCR loop whatever [getDocumentType] said. *)
Lemma card_scan_reaches stamp sr w g d dt pre :
  success sr = true -> type sr = card -> scanner w = Some g ->
  dev_getDocumentType (device host) (length (calls w)) = Resolve d dt ->
  (forall v, scanner v = Some g -> calls v = calls w ++ [(getDocumentType, None)] ->
             reaches pre (ocr_loop host 10) v) ->
  reaches pre (after_scan stamp sr) w.
Proof.
  intros Hs Ht Hg Hr Hloop. unfold Main.after_scan. rewrite Hs.
  apply reaches_bind_l.
  2:{ intros [dt' x]. simpl. destruct (recognized x);
        [apply save_footprint|apply fail_unrecognized_footprint]. }
  destruct (examine_after_waits stamp sr w) as (t & _ & Ew).
  unfold reaches. rewrite Ew. fold (reaches pre
    (let* docType := issue host getDocumentType dev_getDocumentType None [] in
     let* x := extract host sr in ret (docType, x)) (set_now t w)).
  eapply reaches_bind_r.
  { apply issue_resolves with (g := g); [exact Hg|exact Hr]. }
  apply reaches_bind_l; [|intros; apply preserves_ret; apply _].
  unfold extract. eapply reaches_bind_r; [reflexivity|]. rewrite Ht.
  eapply reaches_bind_r; [reflexivity|]. cbn [documentData isPassportConfirmed].
  apply reaches_bind_l; [|intros [[? ?]|]; apply preserves_ret; apply _].
  apply Hloop; [exact Hg|reflexivity].
Qed.

(** A call raced against a deadline settles within it. *)
Lemma issue_with_deadline {A} c (reply : Device -> nat -> Reply A) ms l w g :
  scanner w = Some g -> 0 <= ms ->
  exists t, 0 <= t <= ms /\
    let w' := set_now (now w + t) (set_calls (calls w ++ [(c, Some ms)]) w) in
    (exists v, issue host c reply (Some ms) l w = Ret v w') \/
    (exists e, issue host c reply (Some ms) l w = Throw e w').
Proof.
  intros Hs Hms. unfold issue. rewrite Hs. unfold settle, delay. simpl.
  destruct (reply (device host) (length (calls w))) as [d v|d e|].
  - destruct (Z.ltb_spec (Z.max 0 d) ms).
    + exists (Z.max 0 d). split; [lia|]. left. eauto.
    + exists ms. split; [lia|]. right. rewrite Z.max_r by lia. eauto.
  - destruct (Z.ltb_spec (Z.max 0 d) ms).
    + exists (Z.max 0 d). split; [lia|]. right. eauto.
    + exists ms. split; [lia|]. right. rewrite Z.max_r by lia. eauto.
  - exists ms. split; [lia|]. right. rewrite Z.max_r by lia. eauto.
Qed.

Lemma tryOpenDevice_spec w :
  exists ok w', tryOpenDevice host w = Ret ok w' /\
    now w <= now w' <= now w + 3000 /\
    calls w' = calls w ++ (match scanner w with Some _ => [(open, Some 3000)] | None => [] end) /\
    scanner w' = scanner w /\ scanLoopTimer w' = scanLoopTimer w /\
    isScanning w' = isScanning w /\ lastFailedAt w' = lastFailedAt w.
Proof.
  unfold tryOpenDevice. unfold bind at 1. unfold get at 1.
  destruct (scanner w) as [g|] eqn:Hs.
  - destruct (issue_with_deadline open dev_open 3000 (js "scanner.open") w g Hs ltac:(lia))
      as (t & Ht & [(v & E)|(e & E)]);
      unfold bind, try_catch; rewrite E; unfold modify, sendToRenderer, ret; simpl;
      eexists _, _; (split; [reflexivity|]); simpl; repeat split; auto; lia.
  - eexists _, _. split; [reflexivity|]. rewrite app_nil_r. repeat split; auto; lia.
Qed.

Lemma closeDevice_spec w :
  exists w', closeDevice host w = Ret tt w' /\
    now w <= now w' <= now w + 2000 /\
    calls w' = calls w ++ (match scanner w with Some _ => [(close, Some 2000)] | None => [] end) /\
    scanner w' = scanner w /\ scanLoopTimer w' = scanLoopTimer w /\
    isScanning w' = isScanning w /\ lastFailedAt w' = lastFailedAt w.
Proof.
  unfold closeDevice. unfold bind at 1. unfold get at 1.
  destruct (scanner w) as [g|] eqn:Hs.
  - destruct (issue_with_deadline close dev_close 2000 (js "scanner.close") w g Hs ltac:(lia))
      as (t & Ht & [([] & E)|(e & E)]);
      unfold bind, try_catch; rewrite E; unfold modify, sendToRenderer, ret; simpl;
      eexists; (split; [reflexivity|]); simpl; repeat split; auto; lia.
  - eexists. split; [reflexivity|]. rewrite app_nil_r. repeat split; auto; lia.
Qed.

Lemma performScan_footprint : preserves footprint performScan.
Proof.
  unfold Main.performScan. apply preserves_bind; [apply _| |].
  - unfold enter. apply preserves_bind; [apply _|apply preserves_get; apply _|].
    intros [|]; [apply preserves_ret; apply _|].
    apply preserves_bind; [apply _| |intros; apply preserves_ret; apply _].
    intros w. apply set_isScanning_footprint.
  - intros [|]; [apply attempt_footprint|apply preserves_ret; apply _].
Qed.

Lemma performScan_enters w :
  isScanning w = false -> performScan w = attempt (set_isScanning true w).
Proof. intros H. unfold Main.performScan, enter, bind, get. rewrite H. reflexivity. Qed.

Lemma guarded_issues {A} c (reply : Device -> nat -> Reply A) ms l (a0 : A) w g :
  scanner w = Some g -> 0 <= ms ->
  exists a w', try_catch (issue host c reply (Some ms) l) (fun _ => ret a0) w = Ret a w' /\
    calls w' = calls w ++ [(c, Some ms)] /\ scanner w' = Some g /\
    scanLoopTimer w' = scanLoopTimer w /\ now w <= now w'.
Proof.
  intros Hs Hms. unfold try_catch.
  destruct (issue_with_deadline c reply ms l w g Hs Hms) as (t & Ht & [(v & E)|(e & E)]);
    rewrite E; unfold ret; eexists _, _; (split; [reflexivity|]); simpl;
    repeat split; auto; lia.
Qed.

Lemma tryOpenDevice_opens w g :
  scanner w = Some g ->
  exists w', tryOpenDevice host w = Ret (opens host (length (calls w))) w' /\
    calls w' = calls w ++ [(open, Some 3000)] /\ scanner w' = Some g /\
    scanLoopTimer w' = scanLoopTimer w /\ now w <= now w'.
Proof.
  intros Hs. unfold tryOpenDevice, opens, bind, get, try_catch, issue, settle. rewrite !Hs.
  destruct (dev_open (device host) (length (calls w))) as [d [|]|d e|];
    try destruct (Z.ltb_spec (Z.max 0 d) 3000);
    unfold modify, sendToRenderer, ret, delay; simpl;
    eexists; (split; [reflexivity|]); simpl; repeat split; auto; lia.
Qed.

Lemma tail_recreates w g :
  scanner w = Some g ->
  exists ok w' cs,
    (try_catch
       (let* s := get scanner in
        match s with
        | Some _ => issue host destroy dev_destroy (Some 1500) (js "scanner.destroy")
        | None => ret tt
        end)
       (fun _ => ret tt) ;;
     new_ScannerClient ;;
     let* inited := try_catch (issue host init dev_init (Some 3000) (js "scanner.init"))
                              (fun _ => ret false) in
     if inited then try_catch (tryOpenDevice host) (fun _ => ret false)
     else
       modify (set_scannerOpened false) ;;
       sendToRenderer (scanner_status false (Some [68; 76; 76; 32; 47196; 46300; 32; 49892; 54056]%N)) ;;
       ret false) w = Ret ok w' /\
    calls w' = calls w ++ (destroy, Some 1500) :: (init, Some 3000) :: cs /\
    scanner w' = Some (S g) /\ scanLoopTimer w' = scanLoopTimer w /\ now w <= now w'.
Proof.
  intros Hs.
  destruct (guarded_issues destroy dev_destroy 1500 (js "scanner.destroy") tt w g Hs ltac:(lia))
    as ([] & w1 & E1 & C1 & S1 & T1 & N1).
  assert (E1' : try_catch
       (let* s := get scanner in
        match s with
        | Some _ => issue host destroy dev_destroy (Some 1500) (js "scanner.destroy")
        | None => ret tt
        end) (fun _ => ret tt) w = Ret tt w1).
  { unfold try_catch, bind, get in *. rewrite Hs. exact E1. }
  unfold bind at 1. rewrite E1'.
  unfold bind at 1. unfold new_ScannerClient at 1, modify at 1. rewrite S1.
  set (w2 := set_scanner _ w1).
  destruct (guarded_issues init dev_init 3000 (js "scanner.init") false w2 (S g) eq_refl ltac:(lia))
    as (inited & w3 & E3 & C3 & S3 & T3 & N3).
  unfold bind at 1. rewrite E3. simpl in C3, T3, N3. destruct inited.
  - destruct (tryOpenDevice_opens w3 (S g) S3) as (w4 & E4 & C4 & S4 & T4 & N4).
    unfold try_catch. rewrite E4. eexists _, w4, [(open, Some 3000)]. split; [reflexivity|].
    rewrite C4, C3, C1, <- !app_assoc. simpl. repeat split; auto; try congruence; lia.
  - unfold bind, modify, sendToRenderer, ret. eexists _, _, []. split; [reflexivity|]. simpl.
    rewrite C3, C1, <- !app_assoc. simpl. repeat split; auto; try congruence; lia.
Qed.

(** *** A scan on a device that settles every call *)

Section Responsive.

Hypothesis Hdev : responsive (device host).

Lemma issue_ends {A} c (reply : Device -> nat -> Reply A) o l :
  (forall n, reply (device host) n <> Never) -> ends (issue host c reply o l).
Proof.
  intros H w. unfold issue. destruct (scanner w); [|exact I].
  unfold settle. specialize (H (length (calls w))).
  destruct o as [ms|], (reply (device host) (length (calls w))) as [d v|d e|];
    try exact I; try (destruct (_ <? _); exact I). congruence.
Qed.

Lemma call_scanAuto_ends p : ends (call_scanAuto host p).
Proof.
  intros w. unfold call_scanAuto.
  destruct (scanner w); apply issue_ends, Hdev.
Qed.

Lemma mrz_loop_ends n : ends (mrz_loop host n).
Proof. induction n as [|n IH]; simpl; ends; [apply issue_ends, Hdev|exact IH]. Qed.

Lemma ocr_loop_ends n : ends (ocr_loop host n).
Proof. induction n as [|n IH]; simpl; ends; try (apply issue_ends, Hdev). exact IH. Qed.

Lemma extract_ends sr : ends (extract host sr).
Proof. unfold extract. ends; apply mrz_loop_ends || apply ocr_loop_ends. Qed.

Lemma examine_ends stamp sr : ends (examine stamp sr).
Proof.
  unfold Main.examine. ends; try (apply returns_ends, waitForFileExists_returns; lia).
  - apply issue_ends, Hdev.
  - apply extract_ends.
Qed.

Lemma rename_all_ends base idx l : ends (rename_all base idx l).
Proof. revert idx. induction l as [|f l IH]; intros idx; simpl; ends. apply IH. Qed.

Lemma save_ends bmp ir dt x : ends (save bmp ir dt x).
Proof. unfold Main.save, Main.save_files. ends. apply rename_all_ends. Qed.

Lemma fail_unrecognized_ends a b : ends (fail_unrecognized a b).
Proof. unfold fail_unrecognized. ends. Qed.

Lemma attempt_settles : ends attempt.
Proof.
  unfold Main.attempt, Main.try_block. ends.
  - apply call_scanAuto_ends.
  - unfold Main.after_scan. ends;
      [apply examine_ends|apply save_ends|apply fail_unrecognized_ends].
Qed.

(** With a device that settles every call, [performScan] returns, the
    busy flag clear. *)
Lemma performScan_returns w :
  exists o w', performScan w = Ret o w' /\ isScanning w' = isScanning w /\
               (isScanning w = false -> o <> Busy /\ isScanning w' = false).
Proof.
  destruct (isScanning w) eqn:B.
  - rewrite performScan_busy by exact B. exists Busy, w. split; [reflexivity|].
    split; [exact B|discriminate].
  - rewrite performScan_enters by exact B.
    pose proof (attempt_settles (set_isScanning true w)) as H.
    destruct (attempt_result (set_isScanning true w))
      as [(o & w' & E & Ho & Hb & _)|(w' & E & _)]; rewrite E in *; [|contradiction].
    exists o, w'. auto.
Qed.

End Responsive.

(** *** The claims about the scan *)

(** C1.  At most one scan attempt is in flight.  The interval callback
    returns at once, changing nothing, while an attempt runs or inside the
    backoff window (lines 168-169); [performScan] called with the busy flag
    set returns at once (line 263); called with the flag clear it sets the
    flag and either returns with the flag cleared again or is still pending
    with the flag set (lines 264, 283, 384, 485, 491), and it does return
    when the device settles every call of the scan.  Hence, for every
    sequence of timer ticks, manual requests, ends of attempts and the
    other events of the main process, never more than one attempt is in
    flight, the flag is set exactly while one is, no attempt starts while
    one is in flight, and only [performScan] (entered from a tick or a
    manual request, or ending) writes the flag. *)
Theorem one_attempt_in_flight :
  (forall w, isScanning w = true \/ now w - lastFailedAt w < FAIL_BACKOFF_MS ->
     tick w = Ret None w) /\
  (forall w, isScanning w = true -> performScan w = Ret Busy w) /\
  (forall w, isScanning w = false ->
     (exists o w', performScan w = Ret o w' /\ o <> Busy /\ isScanning w' = false) \/
     (exists w', performScan w = Hang w' /\ isScanning w' = true)) /\
  (responsive (device host) -> forall w, isScanning w = false ->
     exists o w', performScan w = Ret o w' /\ o <> Busy /\ isScanning w' = false) /\
  (forall w es, isScanning w = false ->
     let s := run (idle w) es in
     (in_flight s <= 1)%nat /\ (isScanning (world s) = true <-> in_flight s = 1%nat)) /\
  (forall w es e, isScanning w = false ->
     let s := run (idle w) es in
     in_flight s = 1%nat -> started (step s e) = started s) /\
  (forall s e,
     isScanning (world (step s e)) <> isScanning (world s) ->
     e = timer_fires \/ e = manual_scan_requested \/ exists o, e = attempt_ends o).
Proof.
  split; [|split; [|split; [|split; [|split; [|split]]]]].
  - intros w [H|H]; apply tick_returns_early;
      [apply tick_passes_busy|apply tick_passes_backoff]; exact H.
  - exact performScan_busy.
  - intros w H. rewrite performScan_enters by exact H.
    destruct (attempt_result (set_isScanning true w))
      as [(o & w' & E & Ho & B & _)|(w' & E & B & _)].
    + left. exists o, w'. auto.
    + right. exists w'. split; [exact E|]. rewrite B. reflexivity.
  - intros Hdev w H.
    destruct (performScan_returns Hdev w) as (o & w' & E & _ & Hb).
    destruct (Hb H) as [Ho Hb']. exists o, w'. auto.
  - intros w es H s.
    pose proof (run_busy_matches _ es (idle_busy_matches w H)) as B.
    fold s in B. unfold busy_matches in B.
    destruct (isScanning (world s)); rewrite B; split; try lia; try split; congruence.
  - intros w es e H s F.
    pose proof (run_busy_matches _ es (idle_busy_matches w H)) as B.
    fold s in B. unfold busy_matches in B.
    apply step_started_busy. destruct (isScanning (world s)); [reflexivity|lia].
  - intros s e H. destruct e; eauto; exfalso; apply H; simpl; try reflexivity.
    destruct (scanLoopTimer (world s)); reflexivity.
Qed.







End WithHost.

(** *** The claims at concrete inputs *)

(** C1 at a loop with ticks and manual requests around one scan, on a
    device that settles every call. *)
Lemma one_attempt_in_flight_witness :
  isScanning w_loop = false /\
  responsive (device (host_of unknown_card)) /\
  (in_flight (run (idle w_loop) some_events) <= 1)%nat /\
  (isScanning (world (run (idle w_loop) some_events)) = true
   <-> in_flight (run (idle w_loop) some_events) = 1%nat) /\
  tick (host_of unknown_card) w_busy = Ret None w_busy /\
  exists o w', performScan (host_of unknown_card) w_loop = Ret o w' /\
               o <> Busy /\ isScanning w' = false.
Proof.
  assert (R : responsive (device (host_of unknown_card)))
    by (split; intros n; discriminate).
  split; [reflexivity|]. split; [exact R|].
  pose proof (one_attempt_in_flight (host_of unknown_card)) as (T & _ & _ & P & I & _).
  destruct (I w_loop some_events eq_refl) as [I1 I2].
  split; [exact I1|]. split; [exact I2|].
  split; [apply T; left; reflexivity|].
  exact (P R w_loop eq_refl).
Defined.













(** *** The number tests and the adoption of an OCR result *)

Lemma matches_dash s : matches [dash] s = true <-> s = [45%N].
Proof.
  destruct s as [|x [|y s]]; cbn [matches]; unfold dash.
  - split; discriminate.
  - rewrite andb_true_r, N.eqb_eq. split; [intros ->; reflexivity|intros [= ->]; reflexivity].
  - rewrite andb_false_r. split; discriminate.
Qed.

Lemma looksLikeDriverLicenseNo_unfold s :
  looksLikeDriverLicenseNo (Some s) =
    match s with
    | [] => false
    | _ => matches (digits 2 ++ [dash] ++ digits 2 ++ [dash] ++ digits 6 ++ [dash] ++ digits 2)
                   (trim s)
    end.
Proof. reflexivity. Qed.

Lemma matches_licence s :
  matches (digits 2 ++ [dash] ++ digits 2 ++ [dash] ++ digits 6 ++ [dash] ++ digits 2) s = true
  <-> licence_shape s.
Proof.
  split.
  - intros H.
    apply matches_app in H as (a & r1 & -> & Ha & H).
    apply matches_app in H as (x1 & r2 & -> & Hx & H). apply matches_dash in Hx as ->.
    apply matches_app in H as (b & r3 & -> & Hb & H).
    apply matches_app in H as (x2 & r4 & -> & Hx & H). apply matches_dash in Hx as ->.
    apply matches_app in H as (c & r5 & -> & Hc & H).
    apply matches_app in H as (x3 & d & -> & Hx & Hd). apply matches_dash in Hx as ->.
    apply matches_digits in Ha as [? ?], Hb as [? ?], Hc as [? ?], Hd as [? ?].
    exists a, b, c, d. repeat split; assumption.
  - intros (a & b & c & d & La & Lb & Lc & Ld & Ha & Hb & Hc & Hd & ->).
    apply matches_app. exists a, ([45%N] ++ b ++ [45%N] ++ c ++ [45%N] ++ d).
    split; [reflexivity|]. split; [apply matches_digits; auto|].
    apply matches_app. eexists [45%N], _. split; [reflexivity|]. split; [reflexivity|].
    apply matches_app. eexists b, _. split; [reflexivity|]. split; [apply matches_digits; auto|].
    apply matches_app. eexists [45%N], _. split; [reflexivity|]. split; [reflexivity|].
    apply matches_app. eexists c, _. split; [reflexivity|]. split; [apply matches_digits; auto|].
    apply matches_app. eexists [45%N], _. split; [reflexivity|]. split; [reflexivity|].
    apply matches_digits; auto.
Qed.

Lemma licence_shape_nonempty s : licence_shape s -> s <> [].
Proof. intros (a & b & c & d & La & _ & _ & _ & _ & _ & _ & _ & ->). destruct a; discriminate. Qed.

Lemma trim_nil_inv s : trim s <> [] -> s <> [].
Proof. intros H ->. apply H. reflexivity. Qed.

Lemma looksLikeDriverLicenseNo_shape_iff x :
  looksLikeDriverLicenseNo x = true <-> exists s, x = Some s /\ licence_shape (trim s).
Proof.
  split.
  - destruct x as [s|]; [|discriminate]. rewrite looksLikeDriverLicenseNo_unfold.
    destruct s as [|c s]; [discriminate|]. intros H. exists (c :: s).
    split; [reflexivity|]. apply matches_licence, H.
  - intros (s & -> & H). rewrite looksLikeDriverLicenseNo_unfold.
    destruct s as [|c s]; [exfalso; exact (licence_shape_nonempty _ H eq_refl)|].
    apply matches_licence, H.
Qed.

(** X8. [looksLikeDriverLicenseNo] (src/main.js, lines 244-249) accepts exactly
    the values whose trimmed text is dd-dd-dddddd-dd: 15 characters, so a
    number short of a digit is rejected. *)
Theorem looksLikeDriverLicenseNo_shape (licenseNo : option str) :
  (looksLikeDriverLicenseNo licenseNo = true <->
   exists s, licenseNo = Some s /\ licence_shape (trim s)) /\
  (forall s, looksLikeDriverLicenseNo (Some s) = true -> length (trim s) = 15%nat) /\
  looksLikeDriverLicenseNo (Some (js "11-17-003817-30")) = true /\
  looksLikeDriverLicenseNo (Some (js "11-17-3817-3")) = false.
Proof.
  pose proof looksLikeDriverLicenseNo_shape_iff as Hiff.
  split; [apply Hiff|]. split; [|split; reflexivity].
  intros s H. apply Hiff in H as (s' & [= <-] & a & b & c & d & La & Lb & Lc & Ld & _ & _ & _ & _ & ->).
  rewrite !length_app, La, Lb, Lc, Ld. reflexivity.
Qed.

Lemma looksLikeAlienRegNo_unfold s :
  looksLikeAlienRegNo (Some s) =
    match s with
    | [] => false
    | _ => if matches (digits 6 ++ [dash; digit58] ++ digits 6) (trim s) then true
           else if matches (digits 13) (trim s)
                   && match at_ 6 (trim s) with Some c => digit58 c | None => false end
           then true else false
    end.
Proof. reflexivity. Qed.

Lemma digit58_is_digit e : digit58 e = true -> is_digit e = true.
Proof.
  unfold digit58, is_digit. intros H. apply andb_true_iff in H as [H1 H2].
  apply N.leb_le in H1, H2. apply andb_true_iff. split; apply N.leb_le; lia.
Qed.

Lemma matches_alien s :
  (matches (digits 6 ++ [dash; digit58] ++ digits 6) s
   || (matches (digits 13) s && match at_ 6 s with Some c => digit58 c | None => false end)) = true
  <-> alien_shape s.
Proof.
  split.
  - intros H. apply orb_true_iff in H as [H|H].
    + apply matches_app in H as (a & r & -> & Ha & H).
      apply (matches_app [dash; digit58]) in H as (x & b & -> & Hx & Hb).
      destruct x as [|x1 [|e [|z x]]]; cbn [matches] in Hx; try discriminate;
        [rewrite andb_false_r in Hx; discriminate| |rewrite !andb_false_r in Hx; discriminate].
      rewrite andb_true_r in Hx. apply andb_true_iff in Hx as [Hd He].
      apply N.eqb_eq in Hd as ->.
      apply matches_digits in Ha as [La Ha], Hb as [Lb Hb].
      exists a, e, b. repeat split; try assumption. right. reflexivity.
    + apply andb_true_iff in H as [H He]. apply (matches_digits 13) in H as [L H].
      unfold at_ in He. destruct (s !! 6%nat) as [e|] eqn:E6; [|discriminate].
      exists (take 6 s), e, (drop 7 s).
      assert (Es : s = take 6 s ++ e :: drop 7 s).
      { rewrite <- (take_drop 6 s) at 1. f_equal.
        rewrite (drop_S s e 6 E6). reflexivity. }
      rewrite Es, !forallb_app in H. cbn [forallb] in H.
      apply andb_true_iff in H as [Ha H]. apply andb_true_iff in H as [_ Hb].
      rewrite length_take, length_drop. repeat split; try assumption; try lia.
      left. exact Es.
  - intros (a & e & b & La & Lb & Ha & He & Hb & [->| ->]).
    + apply orb_true_iff. right. apply andb_true_iff. split.
      * apply (matches_digits 13). rewrite length_app, forallb_app. cbn [length forallb].
        rewrite Ha, Hb, (digit58_is_digit e He). split; [lia|reflexivity].
      * unfold at_, str. rewrite (list_lookup_middle a b e 6) by (symmetry; exact La). exact He.
    + apply orb_true_iff. left.
      apply matches_app. exists a, ([45%N] ++ e :: b). split; [reflexivity|].
      split; [apply matches_digits; auto|].
      apply (matches_app [dash; digit58]). exists [45%N; e], b. split; [reflexivity|].
      split; [cbn [matches]; rewrite He; reflexivity|apply matches_digits; auto].
Qed.

Lemma alien_shape_rrn s : alien_shape s -> rrn_shape s.
Proof.
  intros (a & e & b & La & Lb & Ha & He & Hb & E).
  exists a, (e :: b). cbn [length forallb]. rewrite Hb, (digit58_is_digit e He).
  repeat split; auto.
Qed.

Lemma looksLikeAlienRegNo_shape_iff alienNo :
  looksLikeAlienRegNo alienNo = true <-> exists s, alienNo = Some s /\ alien_shape (trim s).
Proof.
  { split.
    - destruct alienNo as [s|]; [|discriminate]. rewrite looksLikeAlienRegNo_unfold.
      destruct s as [|c s]; [discriminate|]. intros H. exists (c :: s).
      split; [reflexivity|]. apply matches_alien.
      destruct (matches (digits 6 ++ _ ++ _) _); [reflexivity|].
      destruct (_ && _); [reflexivity|discriminate].
    - intros (s & -> & H). rewrite looksLikeAlienRegNo_unfold.
      destruct s as [|c s].
      { exfalso. destruct H as (a & e & b & La & _ & _ & _ & _ & [E|E]);
          change (trim []) with (@nil N) in E; destruct a; discriminate. }
      apply matches_alien in H.
      destruct (matches (digits 6 ++ _ ++ _) _); [reflexivity|].
      destruct (_ && _); [reflexivity|discriminate]. }
Qed.

(** X9. [looksLikeAlienRegNo] (src/main.js, lines 251-260) accepts exactly the
    13-digit values, with or without a dash after the sixth digit, whose
    seventh digit is 5, 6, 7 or 8; whatever it accepts,
    [looksLikeKoreanRRN] accepts too. *)
Theorem looksLikeAlienRegNo_shape (alienNo : option str) :
  (looksLikeAlienRegNo alienNo = true <->
   exists s, alienNo = Some s /\ alien_shape (trim s)) /\
  (looksLikeAlienRegNo alienNo = true -> looksLikeKoreanRRN alienNo = true).
Proof.
  pose proof (looksLikeAlienRegNo_shape_iff alienNo) as Hiff.
  split; [exact Hiff|].
  intros H. apply Hiff in H as (s & -> & H).
  apply looksLikeKoreanRRN_shape. exists s. split; [reflexivity|]. apply alien_shape_rrn, H.
Qed.

Lemma remove_dash_digits a : forallb is_digit a = true -> remove dash a = a.
Proof.
  intros H. apply remove_id. apply Forall_forall. intros c Hc.
  rewrite forallb_forall in H. specialize (H c (proj1 (list_elem_of_In _ _) Hc)).
  unfold is_digit in H. unfold dash. apply andb_true_iff in H as [H1 H2].
  apply N.leb_le in H1, H2. apply N.eqb_neq. lia.
Qed.

Lemma rrn_document_id s :
  rrn_shape s ->
  substring 0 6 (remove dash s) = take 6 s /\
  length (take 6 s) = 6%nat /\ forallb is_digit (take 6 s) = true.
Proof.
  intros (a & b & La & Lb & Ha & Hb & E). unfold substring. rewrite Nat.sub_0_r. cbn [drop].
  assert (Ht : take 6 s = a).
  { destruct E as [-> | ->]; rewrite take_app_length' by (symmetry; exact La); reflexivity. }
  assert (Hr : remove dash s = a ++ b).
  { destruct E as [-> | ->]; rewrite !remove_app;
      rewrite (remove_dash_digits a Ha), (remove_dash_digits b Hb); reflexivity. }
  rewrite Hr, Ht, drop_0. rewrite take_app_length' by (symmetry; exact La). auto.
Qed.

Lemma licence_document_id s :
  licence_shape s ->
  length (remove dash s) = 12%nat /\ forallb is_digit (remove dash s) = true.
Proof.
  intros (a & b & c & d & La & Lb & Lc & Ld & Ha & Hb & Hc & Hd & ->).
  rewrite !remove_app.
  rewrite (remove_dash_digits a Ha), (remove_dash_digits b Hb),
    (remove_dash_digits c Hc), (remove_dash_digits d Hd).
  change (remove dash [45%N]) with (@nil N). cbn [app].
  rewrite !length_app, !forallb_app, La, Lb, Lc, Ld, Ha, Hb, Hc, Hd. split; reflexivity.
Qed.

(** X10. The adoption of an OCR result in [performScan] (src/main.js, lines
    346-366): the ID card comes first, then the driving licence, then the
    alien card, each only when its number has the right shape and the ones
    before it have not; a passport is never adopted here.  For a number
    without surrounding blanks the document id is its first six digits (ID
    and alien card) or its twelve digits (driving licence). *)
Theorem adopt_document_id license idCard alien id d :
  adopt license idCard alien = Some (id, d) ->
  match d with
  | PASSPORT _ => False
  | ID_CARD c =>
      idCard = Some c /\
      (trim (id_idNo c) = id_idNo c ->
       id = take 6 (id_idNo c) /\ length id = 6%nat /\ forallb is_digit id = true)
  | DRIVER_LICENSE l =>
      license = Some l /\ looksLikeKoreanRRN (id_idNo <$> idCard) = false /\
      (trim (dl_licenseNo l) = dl_licenseNo l ->
       length id = 12%nat /\ forallb is_digit id = true)
  | ALIEN_CARD a =>
      alien = Some a /\ looksLikeKoreanRRN (id_idNo <$> idCard) = false /\
      looksLikeDriverLicenseNo (dl_licenseNo <$> license) = false /\
      (trim (al_alienNo a) = al_alienNo a ->
       id = take 6 (al_alienNo a) /\ length id = 6%nat /\ forallb is_digit id = true)
  end.
Proof.
  unfold adopt.
  destruct (looksLikeKoreanRRN (id_idNo <$> idCard)) eqn:E1.
  { destruct idCard as [c|]; [|discriminate]. cbn [mbind option_bind]. intros [= <- <-].
    split; [reflexivity|]. intros Ht.
    apply looksLikeKoreanRRN_shape in E1 as (s & [= <-] & Hs). rewrite Ht in Hs.
    destruct (rrn_document_id _ Hs) as (-> & ? & ?). auto. }
  destruct (looksLikeDriverLicenseNo (dl_licenseNo <$> license)) eqn:E2.
  { destruct license as [l|]; [|discriminate]. cbn [mbind option_bind]. intros [= <- <-].
    split; [reflexivity|]. split; [reflexivity|]. intros Ht.
    apply (proj1 (looksLikeDriverLicenseNo_shape_iff _)) in E2 as (s & [= <-] & Hs).
    rewrite Ht in Hs. apply licence_document_id, Hs. }
  destruct (looksLikeAlienRegNo (al_alienNo <$> alien)) eqn:E3; [|discriminate].
  destruct alien as [a|]; [|discriminate]. cbn [mbind option_bind]. intros [= <- <-].
  split; [reflexivity|]. split; [reflexivity|]. split; [reflexivity|]. intros Ht.
  apply (proj1 (looksLikeAlienRegNo_shape_iff _)) in E3 as (s & [= <-] & Hs).
  rewrite Ht in Hs. apply alien_shape_rrn in Hs.
  destruct (rrn_document_id _ Hs) as (-> & ? & ?). auto.
Qed.

(** X8 at a concrete input. *)
Lemma looksLikeDriverLicenseNo_shape_witness :
  looksLikeDriverLicenseNo (Some (js " 11-17-003817-30 ")) = true /\
  length (trim (js " 11-17-003817-30 ")) = 15%nat.
Proof.
  split; [reflexivity|].
  exact (proj1 (proj2 (looksLikeDriverLicenseNo_shape None)) (js " 11-17-003817-30 ") eq_refl).
Defined.

(** X9 at a concrete input. *)
Lemma looksLikeAlienRegNo_shape_witness :
  looksLikeAlienRegNo (Some (js "900101-5123456")) = true /\
  looksLikeKoreanRRN (Some (js "900101-5123456")) = true.
Proof.
  split; [reflexivity|].
  exact (proj2 (looksLikeAlienRegNo_shape (Some (js "900101-5123456"))) eq_refl).
Defined.

(** X10 at a concrete input. *)
Lemma adopt_document_id_witness :
  adopt None (Some hong) None = Some (js "900101", ID_CARD hong) /\
  trim (id_idNo hong) = id_idNo hong /\
  js "900101" = take 6 (id_idNo hong) /\ length (js "900101") = 6%nat /\
  forallb is_digit (js "900101") = true.
Proof.
  split; [reflexivity|]. split; [reflexivity|].
  exact (proj2 (adopt_document_id None (Some hong) None (js "900101") (ID_CARD hong) eq_refl)
               eq_refl).
Defined.

(** *** Waiting for files, naming them, and saving a scan *)

Lemma set_now_now w : set_now (now w) w = w.
Proof. destruct w; reflexivity. Qed.

Lemma set_now_set_now t t' w : set_now t (set_now t' w) = set_now t w.
Proof. reflexivity. Qed.

Lemma exists_at_set_now t w p :
  exists_at (set_now t w) p = match files w !! p with Some t0 => t0 <=? t | None => false end.
Proof. reflexivity. Qed.

Lemma waitLoop_spec fuel p start T I w :
  0 < I -> T - (now w - start) <= (Z.of_nat fuel - 1) * I -> (0 < fuel)%nat ->
  now w - start < T + I ->
  exists b t, waitLoop fuel p start T I w = Ret b (set_now t w) /\
    now w <= t /\ t - start < T + I /\
    b = exists_at (set_now t w) p /\
    (b = false -> T <= t - start) /\
    (exists_at w p = true -> b = true /\ t = now w).
Proof.
  intros HI. revert w. induction fuel as [|fuel IH]; intros w Hrem Hf Hel; [lia|].
  cbn [waitLoop]. unfold bind, Date_now, get.
  destruct (Z.ltb_spec (now w - start) T) as [Hlt|Hge].
  - unfold existsSync, get. destruct (exists_at w p) eqn:Ex.
    + exists true, (now w). rewrite set_now_now. unfold ret.
      repeat split; auto; try lia; try discriminate.
    + unfold sleep, modify.
      destruct (IH (set_now (now w + I) w)) as (b & t & E & H1 & H2 & H3 & H4 & _).
      * simpl. nia.
      * destruct fuel; [simpl in Hrem; nia|lia].
      * simpl. lia.
      * simpl in H1. exists b, t. rewrite E. repeat split; auto; try lia; congruence.
  - unfold existsSync, get. exists (exists_at w p), (now w). rewrite set_now_now.
    repeat split; auto; try lia.
Qed.

(** X11. [waitForFileExists] (src/main.js, lines 202-209), called with a positive
    interval and a timeout that is not negative, always returns, less than
    the timeout plus one interval after the call, and tells whether the
    file exists at that time: it says no only once the timeout has passed,
    and it says yes at once when the file is already there. *)
Theorem waitForFileExists_spec (p : str) (T I : Z) (w : World) :
  0 < I -> 0 <= T ->
  exists b t, waitForFileExists p T I w = Ret b (set_now t w) /\
    now w <= t < now w + T + I /\
    b = exists_at (set_now t w) p /\
    (b = false -> now w + T <= t) /\
    (exists_at w p = true -> b = true /\ t = now w).
Proof.
  intros HI HT. unfold waitForFileExists, bind, Date_now, get.
  destruct (waitLoop_spec (S (Z.to_nat (T / I + 1))) p (now w) T I w HI)
    as (b & t & E & H1 & H2 & H3 & H4 & H5).
  - rewrite Nat2Z.inj_succ, Z2Nat.id by (pose proof (Z.div_pos T I); lia).
    pose proof (Z.div_mod T I ltac:(lia)). pose proof (Z.mod_pos_bound T I HI). nia.
  - lia.
  - lia.
  - exists b, t. split; [exact E|]. split; [lia|]. split; [exact H3|].
    split; [intros Hb; specialize (H4 Hb); lia|exact H5].
Qed.

Lemma uniqueLoop_first fuel dir base ext cand i w k :
  (k < fuel)%nat ->
  let name j := match j with O => cand | S j' => numbered dir base ext (i + N.of_nat j') end in
  exists_at w (name k) = false ->
  (forall j, (j < k)%nat -> exists_at w (name j) = true) ->
  uniqueLoop fuel dir base ext cand i w = Ret (name k) w.
Proof.
  revert cand i k. induction fuel as [|fuel IH]; intros cand i k Hk name Hfree Hbusy; [lia|].
  cbn [uniqueLoop]. unfold bind, existsSync, get.
  destruct k as [|k].
  - change (exists_at w cand = false) in Hfree. rewrite Hfree. reflexivity.
  - pose proof (Hbusy 0%nat ltac:(lia)) as H0. change (exists_at w cand = true) in H0.
    rewrite H0.
    specialize (IH (numbered dir base ext i) (i + 1)%N k ltac:(lia)). cbv zeta in IH.
    assert (Hn : forall j, match j with
                           | O => numbered dir base ext i
                           | S j' => numbered dir base ext (i + 1 + N.of_nat j')
                           end = name (S j)).
    { intros [|j]; unfold name; f_equal; lia. }
    rewrite <- (Hn k). apply IH.
    + rewrite Hn. exact Hfree.
    + intros j Hj. rewrite Hn. apply Hbusy. lia.
Qed.

Lemma least_false (P : nat -> bool) n :
  P n = false -> exists k, (k <= n)%nat /\ P k = false /\ forall j, (j < k)%nat -> P j = true.
Proof.
  induction n as [n IH] using lt_wf_ind. intros Hn.
  destruct (decide (Forall (fun j => P j = true) (seq 0 n))) as [H|H].
  - exists n. split; [lia|]. split; [exact Hn|]. intros j Hj.
    rewrite Forall_forall in H. apply H, elem_of_seq. lia.
  - apply not_Forall_Exists in H; [|intros j; apply _].
    apply Exists_exists in H as (j & Hj & Hf). apply elem_of_seq in Hj.
    destruct (IH j ltac:(lia)) as (k & Hk & Hk1 & Hk2).
    + simpl in Hf. destruct (P j); [exfalso; apply Hf; reflexivity|reflexivity].
    + exists k. split; [lia|]. auto.
Qed.

(** X12. [uniqueFilePath] (src/main.js, lines 211-221) returns the first free
    name of the sequence name.ext, name_1.ext, name_2.ext, ...: the name
    returned does not exist, every earlier one does, nothing is changed,
    and no more names are tried than there are files, plus two. *)
Theorem uniqueFilePath_first_free (dir base ext : str) (w : World) :
  exists k, uniqueFilePath dir base ext w = Ret (candidate dir base ext k) w /\
    exists_at w (candidate dir base ext k) = false /\
    (forall j, (j < k)%nat -> exists_at w (candidate dir base ext j) = true) /\
    (k <= S (size (files w)))%nat.
Proof.
  destruct (some_name_is_free dir base ext w) as (k0 & Hk0 & He0).
  destruct (least_false (fun k => exists_at w (candidate dir base ext k)) (S k0) He0)
    as (k & Hk & Hfree & Hbusy).
  exists k. split; [|split; [exact Hfree|split; [exact Hbusy|lia]]].
  unfold uniqueFilePath, bind, get.
  pose proof (uniqueLoop_first (S (S (size (files w)))) dir base ext
                (path_join dir (base ++ ext)) 1%N w k ltac:(lia)) as H.
  cbv zeta in H.
  assert (Hc : forall j, match j with
                         | O => path_join dir (base ++ ext)
                         | S j' => numbered dir base ext (1 + N.of_nat j')
                         end = candidate dir base ext j) by (intros [|j]; reflexivity).
  rewrite <- (Hc k). apply H; [rewrite Hc; exact Hfree|].
  intros j Hj. rewrite Hc. apply Hbusy, Hj.
Qed.

Lemma exists_at_insert w p q t :
  exists_at (set_files (<[p := t]> (files w)) w) q =
    if decide (p = q) then t <=? now w else exists_at w q.
Proof.
  unfold exists_at. simpl. destruct (decide (p = q)) as [->|Hn].
  - rewrite lookup_insert_eq. reflexivity.
  - rewrite lookup_insert_ne by exact Hn. reflexivity.
Qed.

(** What [rename_all] does to staged images that are all there. *)
Lemma rename_all_spec base idx fs w :
  Forall (fun f => exists_at w (path_join SAVE_FOLDER f) = true) fs ->
  NoDup fs ->
  exists saved w',
    rename_all base idx fs w = Ret saved w' /\
    now w' = now w /\ written w' = written w /\ sent w' = sent w /\ calls w' = calls w /\
    length saved = length fs /\
    (forall p, exists_at w p = true -> p ∉ path_join SAVE_FOLDER <$> fs ->
               files w' !! p = files w !! p).
Proof.
  revert idx w. induction fs as [|f fs IH]; intros idx w Hex Hnd.
  - exists [], w. repeat split; auto.
  - apply Forall_cons in Hex as [Hf Hex]. apply NoDup_cons in Hnd as [Hnf Hnd].
    cbn [rename_all]. cbv zeta.
    set (suffix := if includes (js "_IR") f then js "_IR"
                   else if (0 <? idx)%N then js "_" ++ of_N idx else []).
    destruct (uniqueFilePath_returns SAVE_FOLDER (base ++ suffix) (js ".bmp") w)
      as (dest & Ed & Hd).
    unfold bind at 1. rewrite Ed.
    unfold bind at 1. unfold renameSync at 1. rewrite Hf.
    set (w1 := set_files (<[dest := now w]> (delete (path_join SAVE_FOLDER f) (files w))) w).
    assert (Hkeep : forall p, exists_at w p = true -> p <> path_join SAVE_FOLDER f ->
                              files w1 !! p = files w !! p).
    { intros p Hp Hn. unfold w1. simpl.
      rewrite lookup_insert_ne by (intros ->; congruence).
      rewrite lookup_delete_ne by congruence. reflexivity. }
    assert (Hkeep' : forall p, exists_at w p = true -> p <> path_join SAVE_FOLDER f ->
                               exists_at w1 p = true).
    { intros p Hp Hn. unfold exists_at. rewrite (Hkeep p Hp Hn). exact Hp. }
    destruct (IH (idx + 1)%N w1) as (saved & w' & E & Hnow & Hwr & Hse & Hca & Hlen & Hk).
    + rewrite Forall_forall in Hex |- *. intros g Hg. apply Hkeep'; [apply Hex, Hg|].
      intros Heq. apply app_inv_head in Heq. injection Heq as Heq.
      subst g. contradiction.
    + exact Hnd.
    + unfold bind at 1. rewrite E. unfold ret.
      exists (dest :: saved), w'. split; [reflexivity|].
      repeat split; auto. { simpl. lia. }
      intros p Hp Hn. rewrite fmap_cons in Hn. apply not_elem_of_cons in Hn as [Hn1 Hn2].
      rewrite (Hk p (Hkeep' p Hp Hn1) Hn2). apply Hkeep; assumption.
Qed.

Section Saving.

Variable host : Host.

Lemma path_join_inj dir a b : path_join dir a = path_join dir b -> a = b.
Proof. unfold path_join. intros H. apply app_inv_head in H. injection H as H. exact H. Qed.

Lemma save_files_spec bmp ir dt x w :
  bmp <> ir ->
  exists w' m txt extra,
    save_files host bmp ir dt x w = Ret tt w' /\
    (forall p, exists_at w p = true ->
       p <> path_join SAVE_FOLDER bmp -> p <> path_join SAVE_FOLDER ir ->
       files w' !! p = files w !! p) /\
    sent w' = sent w ++ [scan_result m] /\
    msg_documentId m =
      (let documentId := trim (remove forbidden (documentId x)) in
       if (length documentId <? 2)%nat then js "UNKNOWN_" ++ of_N (Z.to_N (now w))
       else documentId) /\
    msg_mrz m = mrzText x /\ msg_parsed m = documentData x /\
    (length (msg_images m) =
       (if exists_at w (path_join SAVE_FOLDER bmp) then 1 else 0)
       + (if exists_at w (path_join SAVE_FOLDER ir) then 1 else 0))%nat /\
    written w' = written w ++ (txt, 65279%N :: textContent x) :: extra /\
    match documentData x with
    | Some d => exists json, extra = [(json, 65279%N :: stringify host d)]
    | None => extra = []
    end /\
    calls w' = calls w /\ now w' = now w + 1500.
Proof.
  intros Hne. unfold save_files. cbv zeta.
  unfold bind at 1, Date_now at 1, get at 1.
  unfold bind at 1, existsSync at 1, get at 1.
  unfold bind at 1, existsSync at 1, get at 1.
  set (base := (if (length (trim (remove forbidden (documentId x))) <? 2)%nat
                then js "UNKNOWN_" ++ of_N (Z.to_N (now w))
                else trim (remove forbidden (documentId x)))
               ++ js "_" ++ formatFileTimestamp host (now w) ++ js "_" ++ milliseconds host (now w)).
  set (newFiles := (if exists_at w (path_join SAVE_FOLDER bmp) then [bmp] else [])
                   ++ (if exists_at w (path_join SAVE_FOLDER ir) then [ir] else [])).
  destruct (rename_all_spec base 0%N newFiles w)
    as (saved & w1 & E1 & N1 & W1 & S1 & C1 & L1 & K1).
  { unfold newFiles.
    destruct (exists_at w (path_join SAVE_FOLDER bmp)) eqn:Eb,
             (exists_at w (path_join SAVE_FOLDER ir)) eqn:Ei; repeat constructor; assumption. }
  { unfold newFiles.
    destruct (exists_at w (path_join SAVE_FOLDER bmp)),
             (exists_at w (path_join SAVE_FOLDER ir)); simpl;
      repeat constructor; try apply not_elem_of_nil.
    apply not_elem_of_cons. split; [exact Hne|apply not_elem_of_nil]. }
  assert (K1' : forall p, exists_at w p = true ->
            p <> path_join SAVE_FOLDER bmp -> p <> path_join SAVE_FOLDER ir ->
            files w1 !! p = files w !! p /\ exists_at w1 p = true).
  { intros p Hp Hb Hi.
    assert (Hk : files w1 !! p = files w !! p).
    { apply K1; [exact Hp|]. unfold newFiles.
      destruct (exists_at w (path_join SAVE_FOLDER bmp)),
               (exists_at w (path_join SAVE_FOLDER ir)); simpl;
        rewrite ?not_elem_of_cons; repeat split; auto; apply not_elem_of_nil. }
    split; [exact Hk|]. unfold exists_at. rewrite Hk, N1. exact Hp. }
  unfold bind at 1. rewrite E1.
  destruct (uniqueFilePath_returns SAVE_FOLDER base (js ".txt") w1) as (txt & Et & Ft).
  unfold bind at 1. rewrite Et.
  unfold bind at 1. unfold writeUtf8BomFileSync at 1, modify at 1.
  set (w2 := set_written _ _).
  assert (K2 : forall p, exists_at w p = true ->
            p <> path_join SAVE_FOLDER bmp -> p <> path_join SAVE_FOLDER ir ->
            files w2 !! p = files w !! p /\ exists_at w2 p = true).
  { intros p Hp Hb Hi. destruct (K1' p Hp Hb Hi) as [Hk He].
    assert (Hl : files w2 !! p = files w1 !! p).
    { unfold w2. simpl. apply lookup_insert_ne. intros ->. congruence. }
    split; [congruence|]. unfold exists_at. rewrite Hl. exact He. }
  assert (Hjson : exists w3 extra,
            match documentData x with
            | Some d =>
                (let* jsonPath := uniqueFilePath SAVE_FOLDER base (js ".json") in
                 writeUtf8BomFileSync jsonPath (stringify host d))
            | None => ret tt
            end w2 = Ret tt w3 /\
            written w3 = written w2 ++ extra /\
            match documentData x with
            | Some d => exists json, extra = [(json, 65279%N :: stringify host d)]
            | None => extra = []
            end /\
            sent w3 = sent w2 /\ calls w3 = calls w2 /\ now w3 = now w2 /\
            forall p, exists_at w p = true ->
              p <> path_join SAVE_FOLDER bmp -> p <> path_join SAVE_FOLDER ir ->
              files w3 !! p = files w !! p).
  { destruct (documentData x) as [d|].
    - destruct (uniqueFilePath_returns SAVE_FOLDER base (js ".json") w2) as (json & Ej & Fj).
      unfold bind. rewrite Ej. unfold writeUtf8BomFileSync, modify.
      eexists _, _. split; [reflexivity|]. simpl.
      split; [reflexivity|]. split; [eauto|]. repeat split.
      intros p Hp Hb Hi. destruct (K2 p Hp Hb Hi) as [Hk He].
      rewrite lookup_insert_ne by (intros ->; congruence). exact Hk.
    - exists w2, []. unfold ret. rewrite app_nil_r. repeat split.
      intros p Hp Hb Hi. apply K2; assumption. }
  destruct Hjson as (w3 & extra & E3 & W3 & X3 & S3 & C3 & N3 & K3).
  unfold bind at 1. rewrite E3.
  unfold bind, sendToRenderer, sleep, modify.
  eexists _, _, txt, extra. split; [reflexivity|].
  cbn [msg_images msg_mrz msg_parsed msg_documentId sent written calls now files
       set_now set_sent].
  split; [exact K3|].
  split; [rewrite S3; unfold w2; cbn [sent set_written set_files]; rewrite S1; reflexivity|].
  split; [reflexivity|]. split; [reflexivity|]. split; [reflexivity|].
  split.
  { cbn [msg_images]. rewrite L1. unfold newFiles. rewrite length_app.
    destruct (exists_at w (path_join SAVE_FOLDER bmp)),
             (exists_at w (path_join SAVE_FOLDER ir)); reflexivity. }
  split; [rewrite W3; unfold w2; cbn [written set_written set_files];
          rewrite W1, <- app_assoc; reflexivity|].
  split; [exact X3|].
  split; [rewrite C3; unfold w2; cbn [calls set_written set_files]; exact C1|].
  rewrite N3. unfold w2. cbn [now set_written set_files]. rewrite N1. reflexivity.
Qed.


Lemma of_uint_digits d :
  Forall (fun c => is_digit c = true) (js (NilEmpty.string_of_uint d)).
Proof. induction d; simpl; constructor; solve [reflexivity|assumption]. Qed.

Lemma of_N_digits n : Forall (fun c => is_digit c = true) (of_N n).
Proof.
  unfold of_N, NilZero.string_of_uint.
  destruct (N.to_uint n); try apply of_uint_digits. repeat constructor.
Qed.

Lemma digit_not_forbidden c : is_digit c = true -> forbidden c = false.
Proof.
  unfold is_digit, forbidden, is_ctrl. intros H.
  apply andb_true_iff in H as [H1 H2]. apply N.leb_le in H1, H2.
  apply orb_false_iff. split; [apply orb_false_iff; split|].
  - apply N.leb_gt. lia.
  - apply N.eqb_neq. lia.
  - apply bool_decide_eq_false. rewrite !elem_of_cons, elem_of_nil. lia.
Qed.


End Saving.

Section Within.

Variable P : Call -> Prop.

Lemma within_silent {A} (m : M A) :
  (forall w, calls (final (m w)) = calls w) -> within P 0 m.
Proof.
  intros H w. exists []. rewrite app_nil_r. split; [apply H|]. split; [constructor|simpl; lia].
Qed.

Lemma within_weaken {A} n n' (m : M A) : (n <= n')%nat -> within P n m -> within P n' m.
Proof. intros Hn H w. destruct (H w) as (cs & E & F & L). exists cs. split; [|split]; auto; lia. Qed.

Lemma within_bind {A B} n k (m : M A) (f : A -> M B) :
  within P n m -> (forall a, within P k (f a)) -> within P (n + k) (bind m f).
Proof.
  intros Hm Hf w. destruct (Hm w) as (cs & E & F & L). unfold bind.
  destruct (m w) as [a w1|e w1|w1]; simpl in *;
    try (exists cs; split; [exact E|split; [exact F|lia]]).
  destruct (Hf a w1) as (cs' & E' & F' & L').
  exists (cs ++ cs'). rewrite E', E, app_assoc. split; [reflexivity|].
  split; [apply Forall_app; auto|rewrite length_app; lia].
Qed.

Lemma within_try_catch {A} n k (m : M A) (h : str -> M A) :
  within P n m -> (forall e, within P k (h e)) -> within P (n + k) (try_catch m h).
Proof.
  intros Hm Hh w. destruct (Hm w) as (cs & E & F & L). unfold try_catch.
  destruct (m w) as [a w1|e w1|w1]; simpl in *;
    try (exists cs; split; [exact E|split; [exact F|lia]]).
  destruct (Hh e w1) as (cs' & E' & F' & L').
  exists (cs ++ cs'). rewrite E', E, app_assoc. split; [reflexivity|].
  split; [apply Forall_app; auto|rewrite length_app; lia].
Qed.

Lemma within_seq0 {A B} n (m : M A) (f : A -> M B) :
  within P 0 m -> (forall a, within P n (f a)) -> within P n (bind m f).
Proof. intros Hm Hf. apply (within_bind 0 n); assumption. Qed.

Lemma within_ret {A} (a : A) : within P 0 (ret a).
Proof. apply within_silent. reflexivity. Qed.

Lemma within_get {A} (f : World -> A) : within P 0 (get f).
Proof. apply within_silent. reflexivity. Qed.

Lemma within_sleep ms : within P 0 (sleep ms).
Proof. apply within_silent. reflexivity. Qed.

Lemma within_waitLoop fuel p start T I : within P 0 (waitLoop fuel p start T I).
Proof.
  induction fuel as [|fuel IH]; cbn [waitLoop].
  - apply within_silent. reflexivity.
  - apply within_seq0; [apply within_get|]. intros t.
    destruct (t - start <? T); [|apply within_get].
    apply within_seq0; [apply within_get|]. intros [|]; [apply within_ret|].
    apply within_seq0; [apply within_sleep|]. intros _. exact IH.
Qed.

Lemma within_waitForFileExists p T I : within P 0 (waitForFileExists p T I).
Proof.
  unfold waitForFileExists. apply within_seq0; [apply within_get|].
  intros t. apply within_waitLoop.
Qed.

Lemma within_uniqueFilePath dir base ext : within P 0 (uniqueFilePath dir base ext).
Proof.
  apply within_silent. intros w.
  destruct (uniqueFilePath_returns dir base ext w) as (p & -> & _). reflexivity.
Qed.

Lemma within_renameSync a b : within P 0 (renameSync a b).
Proof. apply within_silent. intros w. unfold renameSync. destruct (exists_at w a); reflexivity. Qed.

Lemma within_unlinkSync a : within P 0 (unlinkSync a).
Proof. apply within_silent. intros w. unfold unlinkSync. destruct (exists_at w a); reflexivity. Qed.

Lemma within_rename_all base idx fs : within P 0 (rename_all base idx fs).
Proof.
  revert idx. induction fs as [|f fs IH]; intros idx; cbn [rename_all]; [apply within_ret|].
  cbv zeta. apply within_seq0; [apply within_uniqueFilePath|]. intros dest.
  apply within_seq0; [apply within_renameSync|]. intros _.
  apply within_seq0; [apply IH|]. intros saved. apply within_ret.
Qed.

Lemma within_fail_unrecognized a b : within P 0 (fail_unrecognized a b).
Proof.
  unfold fail_unrecognized.
  apply within_seq0; [apply within_get|]. intros t.
  apply within_seq0; [apply within_silent; reflexivity|]. intros _.
  apply within_seq0.
  { apply (within_try_catch 0 0); [|intros e; apply within_ret].
    apply within_seq0; [apply within_get|]. intros [|]; [apply within_unlinkSync|apply within_ret]. }
  intros _. apply within_seq0.
  { apply (within_try_catch 0 0); [|intros e; apply within_ret].
    apply within_seq0; [apply within_get|]. intros [|]; [apply within_unlinkSync|apply within_ret]. }
  intros _. apply within_seq0; [apply within_silent; reflexivity|]. intros _. apply within_ret.
Qed.

Variable host : Host.

Lemma within_save bmp ir dt x : within P 0 (save host bmp ir dt x).
Proof.
  unfold save, save_files. cbv zeta.
  apply within_seq0; [|intros _; apply within_seq0;
                        [apply within_silent; reflexivity|intros _; apply within_ret]].
  apply within_seq0; [apply within_get|]. intros t.
  apply within_seq0; [apply within_get|]. intros hasBmp.
  apply within_seq0; [apply within_get|]. intros hasIR.
  apply within_seq0; [apply within_rename_all|]. intros saved.
  apply within_seq0; [apply within_uniqueFilePath|]. intros txt.
  apply within_seq0; [apply within_silent; reflexivity|]. intros _.
  apply within_seq0.
  { destruct (documentData x); [|apply within_ret].
    apply within_seq0; [apply within_uniqueFilePath|]. intros json.
    apply within_silent; reflexivity. }
  intros _. apply within_seq0; [apply within_silent; reflexivity|]. intros _.
  apply within_sleep.
Qed.

Lemma within_issue {A} c (reply : Device -> nat -> Reply A) l :
  P c -> within P 1 (issue host c reply None l).
Proof.
  intros Hc w. unfold issue. destruct (scanner w).
  - exists [(c, None)]. unfold settle.
    destruct (reply (device host) (length (calls w))); simpl;
      (split; [reflexivity|]); (split; [repeat constructor; exact Hc|lia]).
  - exists []. simpl. rewrite app_nil_r. split; [reflexivity|]. split; [constructor|lia].
Qed.

End Within.

Section Extraction.

Variable host : Host.

Lemma within_mrz_loop n : within (eq readMRZ) n (mrz_loop host n).
Proof.
  induction n as [|n IH]; cbn [mrz_loop]; [apply within_ret|].
  apply (within_bind _ 1 n); [apply within_issue; reflexivity|]. intros r. cbv zeta.
  destruct (isValidPassportMRZ _); [apply (within_weaken _ 0); [lia|apply within_ret]|].
  apply within_seq0; [apply within_sleep|]. intros _. exact IH.
Qed.

Lemma within_ocr_loop n : within ocr_getter (3 * n) (ocr_loop host n).
Proof.
  induction n as [|n IH]; cbn [ocr_loop]; [apply within_ret|].
  apply (within_weaken _ (1 + (1 + (1 + 3 * n)))); [lia|].
  apply within_bind; [apply within_issue; left; reflexivity|]. intros license.
  apply within_bind; [apply within_issue; right; left; reflexivity|]. intros idCard.
  apply within_bind; [apply within_issue; right; right; reflexivity|]. intros alien.
  destruct (adopt _ _ _); [apply (within_weaken _ 0); [lia|apply within_ret]|].
  apply within_seq0; [apply within_sleep|]. intros _. exact IH.
Qed.

Lemma within_mono (P Q : Call -> Prop) n {A} (m : M A) :
  (forall c, P c -> Q c) -> within P n m -> within Q n m.
Proof.
  intros H Hm w. destruct (Hm w) as (cs & E & F & L). exists cs.
  split; [exact E|]. split; [|exact L].
  eapply Forall_impl; [exact F|]. intros c [Hc Hn]. auto.
Qed.

Lemma within_extract sr :
  within (extraction_call (type sr))
         (match type sr with passport => 10 | card => 30 | none => 0 end)
         (extract host sr).
Proof.
  unfold extract. cbv zeta.
  apply within_seq0; [apply within_get|]. intros t.
  destruct (type sr) eqn:Et.
  - (* passport *)
    apply (within_weaken _ (10 + 0)); [lia|]. apply within_bind.
    + apply (within_weaken _ (10 + 0)); [lia|]. apply within_bind.
      * eapply within_mono; [|apply within_mrz_loop]. intros c <-. right. reflexivity.
      * intros [c|]; apply within_ret.
    + intros x. destruct (documentData x); apply within_ret.
  - (* card *)
    apply within_seq0; [apply within_ret|]. intros x.
    destruct (documentData x); [apply (within_weaken _ 0); [lia|apply within_ret]|].
    destruct (isPassportConfirmed x); [apply (within_weaken _ 0); [lia|apply within_ret]|].
    apply (within_weaken _ (3 * 10 + 0)); [lia|]. apply within_bind.
    + eapply within_mono; [|apply within_ocr_loop]. intros c Hc. right. exact Hc.
    + intros [[id d]|]; apply within_ret.
  - (* none *)
    apply within_seq0; [apply within_ret|]. intros x.
    destruct (documentData x); apply within_ret.
Qed.


End Extraction.

(** X11 at a concrete input. *)
Lemma waitForFileExists_spec_witness :
  0 < 100 /\ 0 <= 3000 /\
  exists b t, waitForFileExists (js "a.bmp") 3000 100 w_open = Ret b (set_now t w_open) /\
    now w_open <= t < now w_open + 3000 + 100 /\
    b = exists_at (set_now t w_open) (js "a.bmp") /\
    (b = false -> now w_open + 3000 <= t) /\
    (exists_at w_open (js "a.bmp") = true -> b = true /\ t = now w_open).
Proof.
  split; [lia|]. split; [lia|]. apply waitForFileExists_spec; lia.
Defined.

(** X12 at a concrete input. *)
Lemma uniqueFilePath_first_free_witness :
  exists_at w_open (candidate SAVE_FOLDER (js "a") (js ".bmp") 0) = false /\
  exists k, uniqueFilePath SAVE_FOLDER (js "a") (js ".bmp") w_open
              = Ret (candidate SAVE_FOLDER (js "a") (js ".bmp") k) w_open /\
    exists_at w_open (candidate SAVE_FOLDER (js "a") (js ".bmp") k) = false /\
    (forall j, (j < k)%nat ->
       exists_at w_open (candidate SAVE_FOLDER (js "a") (js ".bmp") j) = true) /\
    (k <= S (size (files w_open)))%nat.
Proof.
  split; [reflexivity|]. apply uniqueFilePath_first_free.
Defined.




End MainProofs.

(* ===================================================================== *)
(** ** Properties of the scanner client                                   *)
(* ===================================================================== *)

Module ScannerClientProofs.
Import JS ScannerClient ScannerClientNotions ScannerClientExamples.

Lemma map_get_delete {V} k (m : MapN V) : map_get k (map_delete k m) = None.
Proof.
  unfold map_get, map_delete. induction m as [|[k' v] m IH]; [reflexivity|].
  cbn [List.filter fst]. destruct (N.eqb_spec k' k) as [->|Hn]; cbn [negb]; [exact IH|].
  cbn [List.find fst]. rewrite (proj2 (N.eqb_neq k' k) Hn). exact IH.
Qed.

Lemma map_get_None {V} k (m : MapN V) : map_get k m = None <-> k ∉ (fst <$> m).
Proof.
  unfold map_get. induction m as [|[k' v] m IH]; cbn [List.find fst fmap list_fmap].
  - split; [intros _; apply not_elem_of_nil|reflexivity].
  - destruct (N.eqb_spec k' k) as [->|Hn].
    + split; [discriminate|]. intros H. exfalso. apply H. left.
    + rewrite not_elem_of_cons. rewrite IH. split; [auto|tauto].
Qed.

Lemma map_set_fresh {V} k (v : V) (m : MapN V) :
  k ∉ (fst <$> m) -> map_set k v m = m ++ [(k, v)].
Proof.
  induction m as [|[k' v'] m IH]; [reflexivity|].
  cbn [fmap list_fmap fst]. rewrite not_elem_of_cons. intros [Hn Hm].
  cbn [map_set]. rewrite (proj2 (N.eqb_neq k' k)) by congruence.
  rewrite IH by exact Hm. reflexivity.
Qed.

Lemma map_get_split {V} k (e : V) (m : MapN V) :
  map_get k m = Some e -> NoDup (fst <$> m) ->
  exists m1 m2, m = m1 ++ (k, e) :: m2 /\ map_delete k m = m1 ++ m2.
Proof.
  unfold map_get, map_delete. induction m as [|[k' v] m IH]; [discriminate|].
  cbn [List.find List.filter fst fmap list_fmap]. intros H Hnd.
  apply NoDup_cons in Hnd as [Hk Hnd].
  destruct (N.eqb_spec k' k) as [->|Hn]; cbn [negb].
  - injection H as <-. exists [], m. split; [reflexivity|]. cbn [app].
    clear IH Hnd. induction m as [|[k'' v''] m IH]; [reflexivity|].
    cbn [fmap list_fmap fst] in Hk. rewrite not_elem_of_cons in Hk. destruct Hk as [Hk1 Hk2].
    cbn [List.filter fst]. rewrite (proj2 (N.eqb_neq k'' k)) by congruence. cbn [negb].
    f_equal. apply IH, Hk2.
  - destruct (IH H Hnd) as (m1 & m2 & -> & E). exists ((k', v) :: m1), m2.
    split; [reflexivity|]. cbn [app]. f_equal. exact E.
Qed.

Lemma fail_all_spec t c :
  let c' := fail_all t c in
  pending c' = [] /\ reqId c' = reqId c /\ made c' = made c /\ posted c' = posted c /\
  settled c' = settled c ++ ((fun e => (promise e.2, Rejected t)) <$> pending c) /\
  opened c' = opened c /\
  terminating c' = terminating c || existsb (fun e => is_destroy (method e.2)) (pending c).
Proof.
  unfold fail_all.
  set (c0 := {| reqId := reqId c; pending := []; opened := opened c;
                terminating := terminating c; made := made c; posted := posted c;
                settled := settled c |}).
  assert (H : forall (l : MapN Entry) c1,
    let c' := foldl (fun c e => continue e.2 (Rejected t) c) c1 l in
    pending c' = pending c1 /\ reqId c' = reqId c1 /\ made c' = made c1 /\
    posted c' = posted c1 /\
    settled c' = settled c1 ++ ((fun e => (promise e.2, Rejected t)) <$> l) /\
    opened c' = opened c1 /\
    terminating c' = terminating c1
                     || existsb (fun e => is_destroy (method e.2)) l).
  { induction l as [|e l IH]; intros c1.
    - simpl. rewrite app_nil_r, orb_false_r. repeat split; reflexivity.
    - cbn [foldl]. destruct (IH (continue e.2 (Rejected t) c1))
        as (H1 & H2 & H3 & H4 & H5 & H6 & H7).
      cbv zeta. rewrite H1, H2, H3, H4, H5, H6, H7.
      cbn [continue pending reqId made posted settled opened terminating
           fmap list_fmap existsb].
      rewrite <- app_assoc.
      split; [reflexivity|]. split; [reflexivity|]. split; [reflexivity|].
      split; [reflexivity|]. split; [reflexivity|]. split; [reflexivity|].
      destruct (method e.2); cbn [is_destroy orb]; rewrite ?orb_true_r; reflexivity. }
  apply (H (pending c) c0).
Qed.

Lemma methods_app es es' : methods (es ++ es') = methods es ++ methods es'.
Proof. unfold methods. apply omap_app. Qed.

Lemma inv_promise_lt es c k :
  inv es c -> k ∈ pending_promises c ++ settled_promises c -> (k < made c)%nat.
Proof.
  intros I H. rewrite (inv_account _ _ I) in H. apply elem_of_seq in H. lia.
Qed.

Lemma inv_NoDup es c :
  inv es c -> NoDup (pending_promises c ++ settled_promises c).
Proof. intros I. rewrite (inv_account _ _ I). apply NoDup_seq. Qed.

Lemma inv_keys_NoDup es c : inv es c -> NoDup (fst <$> pending c).
Proof.
  intros I. pose proof (inv_NoDup _ _ I) as Hnd. apply NoDup_app in Hnd as (Hnd & _ & _).
  pose proof (inv_keys _ _ I) as Hk. unfold pending_promises in Hnd.
  induction (pending c) as [|[k e] l IH]; [constructor|].
  cbn [fmap list_fmap fst snd] in *.
  apply Forall_cons in Hk as [Hk Hl]. apply NoDup_cons in Hnd as [Hn Hnd]. cbn [fst snd] in *.
  constructor; [|apply IH; assumption].
  intros Hin. apply Hn. apply list_elem_of_fmap in Hin as ([k' e'] & E & Hin). cbn [fst] in E. subst k'.
  rewrite Forall_forall in Hl. pose proof (Hl _ Hin) as Hk'. cbn [fst snd] in Hk'.
  apply list_elem_of_fmap. exists (k, e'). cbn [snd]. split; [lia|exact Hin].
Qed.

Lemma inv_fresh es c :
  inv es c -> reqId c ∉ (fst <$> pending c).
Proof.
  intros I Hin. apply list_elem_of_fmap in Hin as ([k e] & E & Hin). cbn [fst] in E.
  pose proof (inv_keys _ _ I) as Hk. rewrite Forall_forall in Hk.
  pose proof (Hk _ Hin) as Hk'. cbn [fst snd] in Hk'.
  assert (Hlt : (promise e < made c)%nat).
  { eapply inv_promise_lt; [exact I|]. apply elem_of_app. left.
    unfold pending_promises. apply list_elem_of_fmap. exists (k, e). auto. }
  rewrite (inv_reqId _ _ I) in E. lia.
Qed.

Lemma inv_new : inv [] new.
Proof.
  split; try reflexivity; try constructor.
  - discriminate.
  - intros (k & H & _). discriminate.
Qed.

Lemma inv_invoke es c m :
  N.of_nat (made c) + 1 < 2 ^ 53 ->
  inv es c -> inv (es ++ [invoked m]) (invoke m c).
Proof.
  intros Hb I. pose proof (inv_fresh _ _ I) as Hf.
  assert (Hp : pending (invoke m c)
               = pending c ++ [(reqId c, {| promise := made c; method := m |})])
    by (apply map_set_fresh, Hf).
  assert (Hm : methods (es ++ [invoked m]) = methods es ++ [m])
    by (rewrite methods_app; reflexivity).
  split.
  - cbn [invoke reqId made]. unfold succ_double. rewrite (inv_reqId _ _ I).
    rewrite (proj2 (N.ltb_lt _ _) Hb). lia.
  - cbn [invoke made]. rewrite Hm, length_app, (inv_made _ _ I). simpl. lia.
  - rewrite Hp. apply Forall_app. split; [apply (inv_keys _ _ I)|].
    constructor; [|constructor]. cbn [fst snd promise]. apply (inv_reqId _ _ I).
  - rewrite Hp, Hm. apply Forall_app. split.
    + eapply Forall_impl; [apply (inv_methods _ _ I)|]. intros e He. cbv beta in *.
      apply lookup_app_l_Some. exact He.
    + constructor; [|constructor]. cbn [snd promise method].
      rewrite (inv_made _ _ I). apply list_lookup_middle. reflexivity.
  - cbn [invoke posted]. rewrite Hm, imap_app, (inv_posted _ _ I). f_equal.
    cbn [imap]. rewrite (inv_reqId _ _ I), (inv_made _ _ I), Nat.add_0_r. reflexivity.
  - unfold pending_promises, settled_promises. rewrite Hp. cbn [invoke made settled].
    rewrite fmap_app. cbn [fmap list_fmap snd promise].
    rewrite seq_S. cbn [Nat.add].
    rewrite <- app_assoc, (Permutation_app_comm [made c]), app_assoc.
    apply Permutation_app; [apply (inv_account _ _ I)|reflexivity].
  - cbn [invoke terminating]. unfold settled_promises. cbn [invoke settled].
    rewrite (inv_term _ _ I), Hm. split; intros (k & Hk & Hin); exists k; split; try exact Hin.
    + apply lookup_app_l_Some. exact Hk.
    + assert (Hlt : (k < made c)%nat).
      { eapply inv_promise_lt; [exact I|]. apply elem_of_app. right. exact Hin. }
      rewrite lookup_app_l in Hk by (rewrite <- (inv_made _ _ I); exact Hlt). exact Hk.
Qed.

Lemma methods_other es e :
  match e with invoked _ => False | _ => True end ->
  methods (es ++ [e]) = methods es.
Proof.
  intros H. rewrite methods_app. destruct e; [contradiction|..]; apply app_nil_r.
Qed.

Lemma inv_continue_settle es c c' (l : list (N * Entry)) (f : Entry -> Settlement) :
  inv es c ->
  reqId c' = reqId c -> made c' = made c -> posted c' = posted c ->
  Forall (fun e => e.1 = N.of_nat (promise e.2) + 1) (pending c') ->
  Forall (fun e => methods es !! promise e.2 = Some (method e.2)) (pending c') ->
  Forall (fun e => methods es !! promise e.2 = Some (method e.2)) l ->
  pending_promises c ≡ₚ pending_promises c' ++ ((fun e => promise e.2) <$> l) ->
  settled c' = settled c ++ ((fun e => (promise e.2, f e.2)) <$> l) ->
  terminating c' = terminating c || existsb (fun e => is_destroy (method e.2)) l ->
  inv es c'.
Proof.
  intros I Hr Hm Hp Hk Hme Hl Hpp Hs Ht.
  assert (Hsp : settled_promises c' = settled_promises c ++ ((fun e => promise e.2) <$> l)).
  { unfold settled_promises. rewrite Hs, fmap_app. f_equal.
    rewrite <- list_fmap_compose. reflexivity. }
  split.
  - rewrite Hr, Hm. apply (inv_reqId _ _ I).
  - rewrite Hm. apply (inv_made _ _ I).
  - exact Hk.
  - exact Hme.
  - rewrite Hp. apply (inv_posted _ _ I).
  - rewrite Hm, <- (inv_account _ _ I), Hsp, Hpp.
    rewrite <- !app_assoc. apply Permutation_app; [reflexivity|]. apply Permutation_app_comm.
  - rewrite Ht, Hsp, orb_true_iff, (inv_term _ _ I). split.
    + intros [(k & Hk1 & Hk2)|He].
      * exists k. split; [exact Hk1|]. apply elem_of_app. left. exact Hk2.
      * apply existsb_exists in He as (e & Hin & Hd).
        apply list_elem_of_In in Hin.
        rewrite Forall_forall in Hl. pose proof (Hl _ Hin) as Hme'. cbv beta in Hme'.
        exists (promise e.2). split.
        -- rewrite Hme'. destruct (method e.2); try discriminate. reflexivity.
        -- apply elem_of_app. right. apply list_elem_of_fmap. exists e. auto.
    + intros (k & Hk1 & Hk2). apply elem_of_app in Hk2 as [Hk2|Hk2]; [left; eauto|].
      right. apply list_elem_of_fmap in Hk2 as (e & -> & Hin).
      apply existsb_exists. exists e. split; [apply list_elem_of_In, Hin|].
      rewrite Forall_forall in Hl. pose proof (Hl _ Hin) as Hme'. cbv beta in Hme'.
      rewrite Hk1 in Hme'. injection Hme' as <-. reflexivity.
Qed.

Lemma inv_same_methods es es' c : methods es' = methods es -> inv es c -> inv es' c.
Proof.
  intros E I. destruct I as [H1 H2 H3 H4 H5 H6 H7].
  split; rewrite ?E; assumption.
Qed.

Lemma inv_message es c msg : inv es c -> inv (es ++ [message msg]) (on_message msg c).
Proof.
  intros I0.
  assert (I : inv (es ++ [message msg]) c)
    by (apply (inv_same_methods es); [apply methods_other; exact Logic.I|exact I0]).
  clear I0. generalize dependent (es ++ [message msg]). clear es. intros es I.
  unfold on_message. destruct (msg_id msg) as [id|]; [|exact I].
  destruct (map_get id (pending c)) as [e|] eqn:Eg; [|exact I].
  destruct (map_get_split id e (pending c) Eg (inv_keys_NoDup _ _ I)) as (m1 & m2 & Ep & Ed).
  set (s := match msg_error msg with
            | Some text => Rejected (match text with [] => js "Worker error" | _ => text end)
            | None => Resolved msg
            end).
  pose proof (inv_keys _ _ I) as Hk. pose proof (inv_methods _ _ I) as Hme.
  rewrite Ep in Hk, Hme.
  apply Forall_app in Hk as [Hk1 Hk2]. apply Forall_cons in Hk2 as [_ Hk2].
  apply Forall_app in Hme as [Hm1 Hm2]. apply Forall_cons in Hm2 as [Hm0 Hm2].
  assert (Hcs : forall c0,
            reqId c0 = reqId c -> made c0 = made c -> posted c0 = posted c ->
            pending c0 = map_delete id (pending c) -> settled c0 = settled c ->
            terminating c0 = terminating c ->
            inv es (continue e s c0)).
  { intros c0 Hr Hm Hp Hpe Hs Ht.
    apply (inv_continue_settle es c _ [(id, e)] (fun _ => s) I);
      cbn [continue reqId made posted pending settled terminating fmap list_fmap snd existsb].
    - exact Hr.
    - exact Hm.
    - exact Hp.
    - rewrite Hpe, Ed. apply Forall_app. split; assumption.
    - rewrite Hpe, Ed. apply Forall_app. split; assumption.
    - constructor; [assumption|constructor].
    - unfold pending_promises. cbn [continue pending]. rewrite Hpe, Ed, Ep, !fmap_app.
      cbn [fmap list_fmap snd]. rewrite <- app_assoc.
      apply Permutation_app; [reflexivity|]. apply Permutation_cons_append.
    - rewrite Hs. reflexivity.
    - rewrite Ht. destruct (method e), (terminating c); reflexivity. }
  destruct (msg_error msg) as [text|]; apply Hcs; reflexivity.
Qed.

Lemma inv_fail_all es c t : inv es c -> inv es (fail_all t c).
Proof.
  intros I. destruct (fail_all_spec t c) as (Hp & Hr & Hm & Hpo & Hs & _ & Ht).
  apply (inv_continue_settle es c _ (pending c) (fun _ => Rejected t) I); try assumption.
  - rewrite Hp. constructor.
  - rewrite Hp. constructor.
  - apply (inv_methods _ _ I).
  - unfold pending_promises. rewrite Hp. reflexivity.
Qed.

Lemma length_methods es : (length (methods es) <= length es)%nat.
Proof.
  induction es as [|e es IH]; [reflexivity|].
  change (e :: es) with ([e] ++ es). rewrite methods_app, !length_app.
  destruct e; cbn [length methods omap list_omap] ; lia.
Qed.

Lemma inv_run es : N.of_nat (length es) + 1 < 2 ^ 53 -> inv es (run es).
Proof.
  induction es as [|e es IH] using rev_ind; intros Hb; [exact inv_new|].
  rewrite length_app in Hb. cbn [length] in Hb.
  change (2 ^ 53) with 9007199254740992 in *.
  specialize (IH ltac:(lia)).
  unfold run. rewrite foldl_app. cbn [foldl]. fold (run es).
  destruct e as [m|msg|t|code]; cbn [step].
  - apply inv_invoke; [|exact IH].
    rewrite (inv_made _ _ IH). pose proof (length_methods es). lia.
  - apply inv_message, IH.
  - apply (inv_same_methods es); [apply methods_other; exact I|].
    apply inv_fail_all, IH.
  - apply (inv_same_methods es); [apply methods_other; exact I|].
    unfold on_exit. destruct (code =? 0)%Z; [exact IH|apply inv_fail_all, IH].
Qed.

(** X16. The request bookkeeping of [ScannerClient] (scanner-client.js, lines
    218-267 of src/lib/mrz-parser.js): below 2^53 requests, the k-th call
    posts one message, with the id k+1 and the command of its method, so no
    two requests share an id; every promise made is either pending or
    settled, never both and never twice; and a pending entry is filed under
    the id that was posted for it. *)
Theorem every_request_is_accounted_for (es : list Event) :
  N.of_nat (length es) + 1 < 2 ^ 53 ->
  let c := run es in
  made c = length (methods es) /\
  posted c = imap (fun k m => (N.of_nat k + 1, cmd_of m)) (methods es) /\
  NoDup (fst <$> posted c) /\
  pending_promises c ++ settled_promises c ≡ₚ seq 0 (made c) /\
  Forall (fun e => e.1 = N.of_nat (promise e.2) + 1 /\
                   methods es !! promise e.2 = Some (method e.2)) (pending c).
Proof.
  intros Hb c. pose proof (inv_run es Hb) as I. fold c in I.
  split; [apply (inv_made _ _ I)|]. split; [apply (inv_posted _ _ I)|].
  split; [|split; [apply (inv_account _ _ I)|]].
  - rewrite (inv_posted _ _ I). generalize (methods es). intros ms.
    rewrite fmap_imap. unfold compose. cbn [fst].
    apply NoDup_alt. intros i j x Hi Hj.
    rewrite list_lookup_imap in Hi, Hj.
    destruct (ms !! i) eqn:Ei; [|discriminate]. destruct (ms !! j) eqn:Ej; [|discriminate].
    cbn in Hi, Hj. injection Hi as Hi. injection Hj as Hj. lia.
  - pose proof (inv_keys _ _ I) as H1. pose proof (inv_methods _ _ I) as H2.
    rewrite Forall_forall in *. intros e He. split; [apply H1|apply H2]; exact He.
Qed.

(** X17. The message listener of [ScannerClient] (scanner-client.js, lines
    227-245 of src/lib/mrz-parser.js): a second message with the id of one
    just handled changes nothing, and neither does, below 2^53 requests, a
    message whose id was never given out. *)
Theorem a_reply_settles_its_request_once (c : Client) (msg msg' : WorkerMsg) :
  (msg_id msg' = msg_id msg -> on_message msg' (on_message msg c) = on_message msg c) /\
  (forall es id, N.of_nat (length es) + 1 < 2 ^ 53 -> c = run es ->
     msg_id msg = Some id -> (id = 0 \/ reqId c <= id) -> on_message msg c = c).
Proof.
  split.
  - intros E. destruct (msg_id msg) as [id|] eqn:Ei.
    + assert (Hn : map_get id (pending (on_message msg c)) = None).
      { unfold on_message. rewrite Ei.
        destruct (map_get id (pending c)) as [e|] eqn:Eg; [|exact Eg].
        destruct (msg_error msg); cbn [continue pending]; apply map_get_delete. }
      generalize dependent (on_message msg c). intros c' Hn.
      unfold on_message. rewrite E, Hn. reflexivity.
    + generalize (on_message msg c). intros c'. unfold on_message. rewrite E. reflexivity.
  - intros es id Hb -> Hi Hid. pose proof (inv_run es Hb) as I.
    unfold on_message. rewrite Hi.
    assert (Hn : map_get id (pending (run es)) = None).
    { apply map_get_None. intros Hin.
      apply list_elem_of_fmap in Hin as ([k e] & Ek & Hin). cbn [fst] in Ek. subst k.
      pose proof (inv_keys _ _ I) as Hk. rewrite Forall_forall in Hk.
      pose proof (Hk _ Hin) as Hk'. cbn [fst snd] in Hk'.
      assert (Hlt : (promise e < made (run es))%nat).
      { eapply inv_promise_lt; [exact I|]. apply elem_of_app. left.
        unfold pending_promises. apply list_elem_of_fmap. exists (id, e). auto. }
      rewrite (inv_reqId _ _ I) in Hid. lia. }
    rewrite Hn. reflexivity.
Qed.

(** X18. Below 2^53 requests, [destroy] (scanner-client.js, lines 324-331 of
    src/lib/mrz-parser.js) terminates the worker only after its close
    request has settled, resolved or rejected: the worker has been
    terminated exactly when the promise of some [destroy] call has settled. *)
Theorem worker_is_terminated_once_destroy_has_closed (es : list Event) :
  N.of_nat (length es) + 1 < 2 ^ 53 ->
  (terminating (run es) = true <->
   exists k, methods es !! k = Some m_destroy /\ k ∈ settled_promises (run es)).
Proof. intros Hb. apply (inv_term _ _ (inv_run es Hb)). Qed.

(** X19. The error and exit listeners of [ScannerClient] (scanner-client.js,
    lines 247-258 of src/lib/mrz-parser.js), below 2^53 requests: a worker
    error, and an exit with a code other than 0, reject every pending
    request, in the order the requests were made, and leave none pending,
    so that every promise made so far is settled; an exit with code 0
    rejects nothing. *)
Theorem worker_failure_rejects_what_is_pending (es : list Event) (t : str) (code : Z) :
  N.of_nat (length es) + 1 < 2 ^ 53 ->
  let c := run es in
  let failed c' message :=
    pending c' = [] /\
    settled c' = settled c ++ ((fun e => (promise e.2, Rejected message)) <$> pending c) /\
    settled_promises c' ≡ₚ seq 0 (made c) /\ made c' = made c in
  failed (step c (worker_error t)) t /\
  (code <> 0%Z ->
   failed (step c (worker_exit code))
          (js "Scanner worker exited with code " ++ num_to_str (Some code))) /\
  step c (worker_exit 0) = c.
Proof.
  intros Hb c. pose proof (inv_run es Hb) as I. fold c in I.
  assert (H : forall message,
    pending (fail_all message c) = [] /\
    settled (fail_all message c)
      = settled c ++ ((fun e => (promise e.2, Rejected message)) <$> pending c) /\
    settled_promises (fail_all message c) ≡ₚ seq 0 (made c) /\
    made (fail_all message c) = made c).
  { intros message. destruct (fail_all_spec message c) as (Hp & _ & Hm & _ & Hs & _).
    split; [exact Hp|]. split; [exact Hs|]. split; [|exact Hm].
    rewrite <- (inv_account _ _ I). unfold settled_promises, pending_promises.
    rewrite Hs, fmap_app, <- list_fmap_compose. apply Permutation_app_comm. }
  cbv zeta. split; [apply H|]. split; [|reflexivity].
  intros Hc. cbn [step]. unfold on_exit.
  rewrite (proj2 (Z.eqb_neq code 0) Hc). apply H.
Qed.

(** X16 at a concrete input. *)
Lemma every_request_is_accounted_for_witness :
  N.of_nat (length client_events) + 1 < 2 ^ 53 /\
  made (run client_events) = length (methods client_events) /\
  NoDup (fst <$> posted (run client_events)) /\
  pending_promises (run client_events) ++ settled_promises (run client_events)
    ≡ₚ seq 0 (made (run client_events)).
Proof.
  assert (H : N.of_nat (length client_events) + 1 < 2 ^ 53) by (vm_compute; reflexivity).
  split; [exact H|].
  destruct (every_request_is_accounted_for client_events H) as (M & _ & D & P & _).
  split; [exact M|]. split; [exact D|exact P].
Defined.

(** X17 at a concrete input. *)
Lemma a_reply_settles_its_request_once_witness :
  on_message (answer 1) (on_message (answer 1) (run [invoked m_open]))
    = on_message (answer 1) (run [invoked m_open]) /\
  N.of_nat (length [invoked m_open]) + 1 < 2 ^ 53 /\
  on_message (answer 7) (run [invoked m_open]) = run [invoked m_open].
Proof.
  assert (H : N.of_nat (length [invoked m_open]) + 1 < 2 ^ 53) by (vm_compute; reflexivity).
  split; [|split; [exact H|]].
  - exact (proj1 (a_reply_settles_its_request_once (run [invoked m_open])
                    (answer 1) (answer 1)) eq_refl).
  - apply (proj2 (a_reply_settles_its_request_once (run [invoked m_open])
                    (answer 7) (answer 7)) [invoked m_open] 7 H eq_refl eq_refl).
    right. vm_compute. discriminate.
Defined.

(** X18 at a concrete input. *)
Lemma worker_is_terminated_once_destroy_has_closed_witness :
  N.of_nat (length client_events) + 1 < 2 ^ 53 /\
  terminating (run client_events) = true /\
  exists k, methods client_events !! k = Some m_destroy /\
            k ∈ settled_promises (run client_events).
Proof.
  assert (H : N.of_nat (length client_events) + 1 < 2 ^ 53) by (vm_compute; reflexivity).
  split; [exact H|]. split; [reflexivity|].
  exact (proj1 (worker_is_terminated_once_destroy_has_closed client_events H) eq_refl).
Defined.

(** X19 at a concrete input. *)
Lemma worker_failure_rejects_what_is_pending_witness :
  N.of_nat (length client_events) + 1 < 2 ^ 53 /\ 1%Z <> 0%Z /\
  pending (step (run client_events) (worker_exit 1)) = [] /\
  made (step (run client_events) (worker_exit 1)) = made (run client_events).
Proof.
  assert (H : N.of_nat (length client_events) + 1 < 2 ^ 53) by (vm_compute; reflexivity).
  assert (H1 : 1%Z <> 0%Z) by discriminate.
  split; [exact H|]. split; [exact H1|].
  destruct (proj1 (proj2 (worker_failure_rejects_what_is_pending client_events [] 1 H)) H1)
    as (P & _ & _ & M).
  split; [exact P|exact M].
Defined.

End ScannerClientProofs.

(* ===================================================================== *)
(** ** Properties of the USB monitor                                      *)
(* ===================================================================== *)

Module UsbMonitorProofs.
Import UsbMonitor UsbMonitorNotions UsbMonitorExamples.

Lemma alternating_new : alternating new.
Proof. split; [intros i e H; destruct i; discriminate|reflexivity|discriminate]. Qed.

Lemma alternating_step o m e : alternating m -> alternating (step o m e).
Proof.
  intros I. pose proof (alt_turn _ I) as Ha. pose proof (alt_last _ I) as Hl.
  pose proof (alt_poll _ I) as Hp.
  destruct e as [| |b]; cbn [step].
  - unfold start. destruct (isMonitoring m); [exact I|].
    split; cbn [emitted lastConnected pollInterval isMonitoring]; auto.
  - unfold stop. destruct (isMonitoring m); [|exact I].
    split; cbn [emitted lastConnected pollInterval isMonitoring]; auto; discriminate.
  - destruct (pollInterval m); [|exact I].
    unfold poll. destruct (bool_decide_reflect (b <> lastConnected m)) as [Hne|He]; [|exact I].
    split; cbn [emitted lastConnected pollInterval isMonitoring].
    + intros i e Hi. apply lookup_app_Some in Hi as [Hi|[Hlen Hi]]; [apply Ha, Hi|].
      destruct (i - length (emitted m))%nat eqn:Ed; [|destruct n; discriminate].
      injection Hi as <-. assert (i = length (emitted m)) as -> by lia.
      unfold turn. rewrite <- Nat.negb_odd, <- Hl.
      destruct b, (lastConnected m); try reflexivity; exfalso; apply Hne; reflexivity.
    + rewrite length_app. cbn [length]. rewrite Nat.add_1_r, Nat.odd_succ, <- Nat.negb_odd, <- Hl.
      destruct b, (lastConnected m); try reflexivity; exfalso; apply Hne; reflexivity.
    + auto.
Qed.

Lemma alternating_run o es : alternating (run o es).
Proof.
  unfold run. induction es as [|e es IH] using rev_ind; [exact alternating_new|].
  rewrite foldl_app. apply alternating_step, IH.
Qed.

Lemma length_emitted o es : (length (emitted (run o es)) <= length (readings es))%nat.
Proof.
  unfold run. induction es as [|e es IH] using rev_ind; [reflexivity|].
  rewrite foldl_app. unfold readings in *. rewrite omap_app, length_app.
  cbn [foldl]. destruct e as [| |b]; cbn [step omap list_omap length].
  - unfold start. destruct (isMonitoring _); cbn [emitted]; lia.
  - unfold stop. destruct (isMonitoring _); cbn [emitted]; lia.
  - destruct (pollInterval _); [|lia]. unfold poll.
    destruct (bool_decide _); cbn [emitted]; [rewrite length_app; cbn [length]|]; lia.
Qed.

(** X20. The polling path of [UsbMonitor] (usb-monitor.js, lines 732-768 and
    814-835 of src/lib/scanner.js): the events emitted alternate, starting
    with connected; [lastConnected] is the last state reported; no more
    events are emitted than the callback was consulted; and without a
    [checkDevice] callback nothing is ever emitted. *)
Theorem polling_reports_changes_only (o : Options) (es : list Event) :
  let m := run o es in
  (forall i e, emitted m !! i = Some e -> e = turn i) /\
  lastConnected m = Nat.odd (length (emitted m)) /\
  (length (emitted m) <= length (readings es))%nat /\
  (has_checkDevice o = false -> emitted m = []).
Proof.
  intros m. pose proof (alternating_run o es) as I. fold m in I.
  split; [exact (alt_turn _ I)|]. split; [exact (alt_last _ I)|].
  split; [apply length_emitted|].
  intros Ho. unfold m, run.
  assert (H : forall m0, pollInterval m0 = false -> emitted m0 = [] ->
                pollInterval (foldl (step o) m0 es) = false /\
                emitted (foldl (step o) m0 es) = []).
  { clear -Ho. induction es as [|e es IH]; intros m0 H1 H2; [auto|].
    cbn [foldl]. apply IH.
    - destruct e as [| |b]; cbn [step].
      + unfold start. destruct (isMonitoring m0); [exact H1|]. cbn.
        rewrite Ho. exact H1.
      + unfold stop. destruct (isMonitoring m0); [reflexivity|exact H1].
      + rewrite H1. exact H1.
    - destruct e as [| |b]; cbn [step].
      + unfold start. destruct (isMonitoring m0); exact H2.
      + unfold stop. destruct (isMonitoring m0); exact H2.
      + rewrite H1. exact H2. }
  apply H; reflexivity.
Qed.

(** X20 at a concrete input. *)
Lemma polling_reports_changes_only_witness :
  has_checkDevice no_callback = false /\
  emitted (run no_callback [started; interval_fires true; interval_fires false]) = [].
Proof.
  split; [reflexivity|].
  exact (proj2 (proj2 (proj2 (polling_reports_changes_only no_callback
           [started; interval_fires true; interval_fires false]))) eq_refl).
Defined.

End UsbMonitorProofs.

(* ===================================================================== *)
(** ** Properties of the DLL wrapper                                      *)
(* ===================================================================== *)

Module ScannerProofs.
Import JS Scanner ScannerNotions ScannerExamples.

(** *** [decodeCP949] *)

Lemma nullIndex_from_spec (buffer : list N) (i : Z) :
  (nullIndex_from i buffer = (-1)%Z /\ Forall (fun b => b <> 0) buffer) \/
  exists a b, buffer = a ++ 0 :: b /\ Forall (fun b => b <> 0) a /\
    nullIndex_from i buffer = (i + Z.of_nat (length a))%Z.
Proof.
  revert i. induction buffer as [|c rest IH]; intros i; cbn [nullIndex_from].
  - left. split; [reflexivity|constructor].
  - destruct (N.eqb_spec c 0) as [->|Hc].
    + right. exists [], rest. cbn. repeat split; [constructor|lia].
    + destruct (IH (i + 1)%Z) as [[E F]|(a & b & -> & F & E)].
      * left. split; [exact E|constructor; assumption].
      * right. exists (c :: a), b. cbn [app length]. repeat split.
        -- constructor; assumption.
        -- rewrite E. lia.
Qed.

Lemma remove_no (p : N -> bool) (s : str) : Forall (fun c => p c = false) (remove p s).
Proof.
  induction s as [|c s IH]; cbn [remove]; [constructor|].
  destruct (p c) eqn:E; [exact IH|constructor; assumption].
Qed.

Section Decode.

Variable iconv_decode : list N -> option str.

Lemma decodeCP949_plain (a : list N) :
  Forall (fun b => b <> 0) a ->
  decodeCP949 iconv_decode (Some a) =
    match a with
    | [] => []
    | _ => match iconv_decode a with
           | Some decoded => remove (N.eqb 0) (trim decoded)
           | None => []
           end
    end.
Proof.
  intros F. destruct a as [|c a]; [reflexivity|].
  unfold decodeCP949.
  destruct (nullIndex_from_spec (c :: a) 0) as [[E _]|(x & y & E & _ & _)].
  - rewrite E. reflexivity.
  - exfalso. rewrite E in F. apply Forall_app in F as [_ F].
    inversion F; subst. congruence.
Qed.

Lemma decodeCP949_cut (a b : list N) :
  Forall (fun b => b <> 0) a ->
  decodeCP949 iconv_decode (Some (a ++ 0 :: b)) = decodeCP949 iconv_decode (Some a).
Proof.
  intros F. rewrite (decodeCP949_plain a F).
  destruct a as [|c a]; [reflexivity|].
  unfold decodeCP949. cbn [app].
  change (c :: a ++ 0 :: b) with ((c :: a) ++ 0 :: b).
  destruct (nullIndex_from_spec ((c :: a) ++ 0 :: b) 0) as [[_ F']|(x & y & E & Fx & ->)].
  - exfalso. apply Forall_app in F' as [_ F']. inversion F'; subst. congruence.
  - assert (x = c :: a) as ->.
    { clear -E F Fx. revert x E Fx. generalize (c :: a) F. clear.
      induction l as [|d l IH]; intros F x E Fx.
      - destruct x as [|e x]; [reflexivity|].
        cbn in E. injection E as <- _. inversion Fx; subst. congruence.
      - destruct x as [|e x]; cbn in E.
        + injection E as -> _. inversion F; subst. congruence.
        + injection E as <- E. f_equal. inversion F; inversion Fx; subst.
          apply IH; auto. }
    cbn [length]. rewrite Z.add_0_l.
    replace (Z.of_nat (S (length a)) =? 0)%Z with false by (symmetry; apply Z.eqb_neq; lia).
    replace (0 <? Z.of_nat (S (length a)))%Z with true by (symmetry; apply Z.ltb_lt; lia).
    rewrite Nat2Z.id.
    replace (S (length a)) with (length (c :: a)) by reflexivity.
    rewrite take_app_length. reflexivity.
Qed.

End Decode.

(** X23. [decodeCP949] (src/lib/scanner.js, lines 15-50) stops at the first null
    byte: the bytes after it do not count, a buffer that starts with one
    gives the empty string, the result holds no null character, and the
    decoder is only ever given a non-empty run of non-null bytes. *)
Theorem decodeCP949_stops_at_the_first_null
    (iconv_decode : list N -> option str) (buffer : option (list N)) :
  Forall (fun c => c <> 0) (decodeCP949 iconv_decode buffer) /\
  (forall a b, Forall (fun x => x <> 0) a ->
     decodeCP949 iconv_decode (Some (a ++ 0 :: b)) = decodeCP949 iconv_decode (Some a)) /\
  (forall b, decodeCP949 iconv_decode (Some (0 :: b)) = []) /\
  (forall other : list N -> option str,
     (forall data, data <> [] -> Forall (fun x => x <> 0) data ->
        other data = iconv_decode data) ->
     decodeCP949 other buffer = decodeCP949 iconv_decode buffer).
Proof.
  split; [|split; [|split]].
  - assert (forall s, Forall (fun c : N => c <> 0) (remove (N.eqb 0) s)) as R.
    { intros s. eapply Forall_impl; [apply remove_no|].
      cbv beta. intros c Hc. apply N.eqb_neq in Hc. congruence. }
    unfold decodeCP949. destruct buffer as [[|c buffer]|]; try constructor.
    destruct (_ =? 0)%Z; [constructor|].
    destruct (if (0 <? _)%Z then _ else _); [constructor|].
    destruct (iconv_decode _); [apply R|constructor].
  - intros a b F. apply decodeCP949_cut, F.
  - intros b. reflexivity.
  - intros other H. destruct buffer as [buffer|]; [|reflexivity].
    destruct (nullIndex_from_spec buffer 0) as [[_ F]|(a & b & -> & F & _)].
    + rewrite !decodeCP949_plain by exact F.
      destruct buffer as [|c buffer]; [reflexivity|].
      rewrite H; [reflexivity|discriminate|exact F].
    + rewrite !decodeCP949_cut by exact F.
      rewrite !decodeCP949_plain by exact F.
      destruct a as [|c a]; [reflexivity|].
      rewrite H; [reflexivity|discriminate|exact F].
Qed.

(** X23 at a concrete input. *)
Lemma decodeCP949_stops_at_the_first_null_witness :
  Forall (fun x => x <> 0) [75; 73; 77] /\
  decodeCP949 ascii_only (Some ([75; 73; 77] ++ 0 :: [88; 0; 89]))
    = decodeCP949 ascii_only (Some [75; 73; 77]).
Proof.
  assert (H : Forall (fun x : N => x <> 0) [75; 73; 77]) by (repeat constructor; discriminate).
  split; [exact H|].
  exact (proj1 (proj2 (decodeCP949_stops_at_the_first_null ascii_only None)) _ [88; 0; 89] H).
Defined.

(** *** [scanAuto] *)

Lemma native_trace {A} d (f : Dll -> option (nat -> Native A)) c s :
  isOpen (native d f c s).2 = isOpen s /\
  trace (native d f c s).2 =
    trace s ++ match (if loaded d then f d else None) with Some _ => [c] | None => [] end.
Proof.
  unfold native. destruct (if loaded d then f d else None); cbn.
  - split; reflexivity.
  - rewrite app_nil_r. split; reflexivity.
Qed.

Ltac no_scan O :=
  cbn; rewrite ?O; repeat split; try congruence;
  eexists; split; [reflexivity|]; repeat split; try congruence;
  intros c Hc Hs; repeat (apply elem_of_cons in Hc as [->|Hc]; [discriminate Hs|]);
  inversion Hc.

(** X21. [scanAuto] (src/lib/scanner.js, lines 343-445) leaves [isOpen] alone and
    succeeds exactly when it reports a type other than none, with card
    type 0 for a card and none for a passport.  A closed device is not
    touched.  A scan function of the DLL is called only after the sensors
    were read, the cover is closed and the left and middle sensors are
    covered: ScanCard when the right sensor is free and Scan when it is
    covered, after DefaultSetting.  Success means that this scan call
    returned 0. *)
Theorem scanAuto_scans_only_a_detected_document (d : Dll) (p : str) (s : State) :
  let r := (scanAuto d p s).1 in
  let s' := (scanAuto d p s).2 in
  isOpen s' = isOpen s /\
  (success r = true <-> type r <> none) /\
  cardType r = match type r with card => Some 0 | _ => None end /\
  exists new,
    trace s' = trace s ++ new /\
    (isOpen s = false -> new = []) /\
    (forall c, c ∈ new -> is_scan c = true ->
       exists f b,
         loaded d = true /\ GetSensorValueExt d = Some f /\
         f (length (trace s)) = Returns b /\
         sb_result b <> 0 /\ sb_cover b = 0 /\ sb_left b <> 0 /\ sb_mid b <> 0 /\
         c = (if sb_right b =? 0 then call_ScanCard p 0 else call_Scan p 0) /\
         new = [call_GetSensorValueExt]
                 ++ match DefaultSetting d with
                    | Some _ => [call_DefaultSetting]
                    | None => []
                    end ++ [c]) /\
    (success r = true ->
       exists c g,
         last new = Some c /\ is_scan c = true /\ type r = kind_of c /\
         scan_function d c = Some g /\
         g (length (trace s) + length new - 1)%nat = Returns 0).
Proof.
  cbv zeta. unfold scanAuto.
  destruct (isOpen s) eqn:O; cbn [negb].
  2:{ cbn. rewrite O. repeat split; try congruence.
      exists []. rewrite app_nil_r. repeat split; try congruence.
      intros c Hc. inversion Hc. }
  unfold detectDocumentType, getSensorValue, native.
  destruct (loaded d) eqn:L.
  2:{ cbn. rewrite O. repeat split; try congruence.
      exists []. rewrite app_nil_r. repeat split; try congruence.
      intros c Hc. inversion Hc. }
  destruct (GetSensorValueExt d) as [f|] eqn:G.
  2:{ cbn. rewrite O. repeat split; try congruence.
      exists []. rewrite app_nil_r. repeat split; try congruence.
      intros c Hc. inversion Hc. }
  destruct (f (length (trace s))) as [b|] eqn:F; [|no_scan O].
  destruct (N.eqb_spec (sb_result b) 0) as [R|R]; [no_scan O|].
  cbn [cover left mid right].
  destruct (N.eqb_spec (sb_cover b) 0) as [C|C]; cbn [negb]; [|no_scan O].
  destruct (N.eqb_spec (sb_left b) 0) as [Le|Le]; cbn [negb andb]; [no_scan O|].
  destruct (N.eqb_spec (sb_mid b) 0) as [Mi|Mi]; cbn [negb andb]; [no_scan O|].
  destruct (N.eqb_spec (sb_right b) 0) as [Ri|Ri]; cbn [negb andb];
    cbn [det_cover hasDocument det_type orb negb isOpen trace].
  - (* a card *)
    destruct (DefaultSetting d) as [ds|] eqn:D; cbn [isOpen trace];
    destruct (ScanCard d) as [sc|] eqn:S; cbn [isOpen trace fst snd].
    all: try (destruct (sc _) as [res|] eqn:Sr; [destruct (N.eqb_spec res 0) as [Z|Z]|]).
    all: cbn [fst snd success type cardType failed isOpen trace].
    all: rewrite <- ?app_assoc; cbn [app].
    all: (split; [congruence|]); (split; [split; congruence|]); (split; [reflexivity|]).
    all: eexists; (split; [reflexivity|]); (split; [congruence|]).
    all: split; [intros c Hc Hs;
      repeat (apply elem_of_cons in Hc as [->|Hc]; [try discriminate Hs|]);
      try (inversion Hc; fail);
      exists f, b; rewrite ?Ri, ?D; repeat split; auto;
      try (destruct (N.eqb_spec (sb_right b) 0); [contradiction|reflexivity])|].
    all: try (intros ?; discriminate).
    all: intros _; eexists _, sc; cbn [last]; repeat split; auto.
    all: subst res; rewrite <- Sr; f_equal; cbn; rewrite ?length_app; cbn; lia.
  - destruct (DefaultSetting d) as [ds|] eqn:D; cbn [isOpen trace];
    destruct (Scan d) as [sc|] eqn:S; cbn [isOpen trace fst snd].
    all: try (destruct (sc _) as [res|] eqn:Sr; [destruct (N.eqb_spec res 0) as [Z|Z]|]).
    all: cbn [fst snd success type cardType failed isOpen trace].
    all: rewrite <- ?app_assoc; cbn [app].
    all: (split; [congruence|]); (split; [split; congruence|]); (split; [reflexivity|]).
    all: eexists; (split; [reflexivity|]); (split; [congruence|]).
    all: split; [intros c Hc Hs;
      repeat (apply elem_of_cons in Hc as [->|Hc]; [try discriminate Hs|]);
      try (inversion Hc; fail);
      exists f, b; rewrite ?Ri, ?D; repeat split; auto;
      try (destruct (N.eqb_spec (sb_right b) 0); [contradiction|reflexivity])|].
    all: try (intros ?; discriminate).
    all: intros _; eexists _, sc; cbn [last]; repeat split; auto.
    all: subst res; rewrite <- Sr; f_equal; cbn; rewrite ?length_app; cbn; lia.
Qed.

Lemma opened_from_app d i b tr tr' :
  opened_from d i b (tr ++ tr') = opened_from d (i + length tr) (opened_from d i b tr) tr'.
Proof.
  revert i b. induction tr as [|c tr IH]; intros i b; cbn [app opened_from length].
  - rewrite Nat.add_0_r. reflexivity.
  - rewrite IH. f_equal. lia.
Qed.

Lemma guarded_new d : guarded d new.
Proof.
  split; [reflexivity|]. intros pre c post H. destruct pre; discriminate H.
Qed.

Lemma guarded_snoc d s c b :
  guarded d s ->
  b = default (isOpen s) (effect d (length (trace s)) c) ->
  (is_scan c = true -> isOpen s = true) ->
  guarded d {| isOpen := b; trace := trace s ++ [c] |}.
Proof.
  intros [Ho Hs] -> Hc. split; cbn [isOpen trace].
  - unfold opened_by. rewrite opened_from_app. cbn [opened_from Nat.add].
    fold (opened_by d (trace s)). rewrite <- Ho. reflexivity.
  - intros pre c' post E Hc'.
    assert (Hp : post = [] \/ exists post' x, post = post' ++ [x]).
    { destruct post as [|y post] using rev_ind; [left; reflexivity|right; eauto]. }
    destruct Hp as [->|(post' & x & ->)].
    + apply app_inj_tail in E as [<- <-]. rewrite <- Ho. apply Hc, Hc'.
    + change (pre ++ c' :: post' ++ [x]) with (pre ++ (c' :: post') ++ [x]) in E.
      rewrite app_assoc in E. apply app_inj_tail in E as [E _].
      eapply Hs; [exact E|exact Hc'].
Qed.

Lemma guarded_native {A} d (f : Dll -> option (nat -> Native A)) c s r s' :
  native d f c s = (r, s') ->
  guarded d s ->
  (forall i, effect d i c = None) ->
  (is_scan c = true -> isOpen s = true) ->
  guarded d s' /\ isOpen s' = isOpen s.
Proof.
  unfold native. intros E G He Hc.
  destruct (if loaded d then f d else None) as [g|]; injection E as _ <-.
  - split; [|reflexivity]. apply guarded_snoc; [exact G| |exact Hc].
    rewrite He. reflexivity.
  - split; [exact G|reflexivity].
Qed.

Lemma guarded_getSensorValue d s r s' :
  getSensorValue d s = (r, s') -> guarded d s -> guarded d s' /\ isOpen s' = isOpen s.
Proof.
  unfold getSensorValue. intros E G.
  destruct (if loaded d then GetSensorValueExt d else None); [|injection E as _ <-; auto].
  destruct (native d GetSensorValueExt call_GetSensorValueExt s) as [x s1] eqn:E1.
  apply guarded_native in E1 as [G1 O1]; [|exact G|reflexivity|discriminate].
  destruct x as [b|]; [destruct (sb_result b =? 0)|]; injection E as _ <-; auto.
Qed.

Lemma guarded_detectDocumentType d s r s' :
  detectDocumentType d s = (r, s') -> guarded d s -> guarded d s' /\ isOpen s' = isOpen s.
Proof.
  unfold detectDocumentType. intros E G.
  destruct (getSensorValue d s) as [x s1] eqn:E1.
  apply guarded_getSensorValue in E1 as [G1 O1]; [|exact G].
  destruct x as [sensors|]; [|injection E as _ <-; auto].
  destruct (cover sensors); [injection E as _ <-; auto|].
  destruct (left sensors && mid sensors); [destruct (right sensors)|];
    injection E as _ <-; auto.
Qed.

Lemma guarded_scan_call {A} d (f : Dll -> option (nat -> Native A)) c s r s' :
  native d f c s = (r, s') -> guarded d s -> isOpen s = true ->
  (forall i, effect d i c = None) ->
  guarded d s'.
Proof.
  intros E G O He. eapply guarded_native in E as [G' _]; eauto.
Qed.

Lemma guarded_scanAuto d p s : guarded d s -> guarded d (scanAuto d p s).2.
Proof.
  intros G. unfold scanAuto.
  destruct (isOpen s) eqn:O; cbn [negb]; [|exact G].
  destruct (detectDocumentType d s) as [detection s1] eqn:E1.
  apply guarded_detectDocumentType in E1 as [G1 O1]; [|exact G]. rewrite O in O1.
  destruct (det_cover detection || negb (hasDocument detection)); [exact G1|].
  destruct (native d DefaultSetting call_DefaultSetting s1) as [x s2] eqn:E2.
  apply guarded_native in E2 as [G2 O2]; [|exact G1|reflexivity|discriminate].
  rewrite O1 in O2.
  destruct (det_type detection).
  - destruct (native d Scan (call_Scan p 0) s2) as [y s3] eqn:E3.
    apply guarded_scan_call in E3; [|exact G2|exact O2|reflexivity].
    destruct y as [res|]; [destruct (res =? 0)|]; exact E3.
  - destruct (native d ScanCard (call_ScanCard p 0) s2) as [y s3] eqn:E3.
    apply guarded_scan_call in E3; [|exact G2|exact O2|reflexivity].
    destruct y as [res|]; [destruct (res =? 0)|]; exact E3.
  - destruct (native d Scan (call_Scan p 0) s2) as [y s3] eqn:E3.
    apply guarded_scan_call in E3; [|exact G2|exact O2|reflexivity].
    destruct y as [res|]; [destruct (res =? 0)|]; exact E3.
Qed.

Lemma guarded_open d s : guarded d s -> guarded d (open d s).2.
Proof.
  intros G. unfold open. destruct (loaded d) eqn:L; cbn [negb]; [|exact G].
  unfold native at 1. rewrite L.
  destruct (DeviceOpen d) as [f|] eqn:B; [|exact G].
  destruct (f (length (trace s))) as [result|] eqn:R.
  - assert (G1 : forall b, b = negb (result =? 0) && negb (result =? 199) ->
                 guarded d (set_isOpen b {| isOpen := isOpen s;
                                            trace := trace s ++ [call_DeviceOpen] |})).
    { intros b ->. unfold set_isOpen. cbn [trace].
      apply guarded_snoc; [exact G| |discriminate].
      cbn [effect]. rewrite B, R. reflexivity. }
    destruct (negb (result =? 0) && negb (result =? 199)) eqn:A.
    + specialize (G1 true eq_refl). cbv zeta.
      destruct (native d SetDpi (call_SetDpi 3) _) as [x s2] eqn:E2.
      apply guarded_native in E2 as [G2 O2]; [|exact G1|reflexivity|discriminate].
      destruct x as [x|]; [|exact G2].
      destruct (native d SetBits (call_SetBits 32) s2) as [y s3] eqn:E3.
      apply guarded_native in E3 as [G3 O3]; [|exact G2|reflexivity|discriminate].
      destruct y; exact G3.
    + exact (G1 false eq_refl).
  - cbn [snd]. apply guarded_snoc; [exact G| |discriminate].
    cbn [effect]. rewrite B, R. reflexivity.
Qed.

Lemma guarded_close d s : guarded d s -> guarded d (close d s).
Proof.
  intros G. unfold close. destruct (isOpen s) eqn:O; cbn [negb]; [|exact G].
  unfold native. destruct (loaded d) eqn:L; [|exact G].
  destruct (DeviceClose d) as [f|] eqn:B; [|exact G].
  destruct (f (length (trace s))) as [result|] eqn:R.
  - unfold set_isOpen. cbn [trace]. apply guarded_snoc; [exact G| |discriminate].
    cbn [effect]. rewrite B, R. reflexivity.
  - apply guarded_snoc; [exact G| |discriminate].
    cbn [effect]. rewrite B, R, O. reflexivity.
Qed.

Lemma guarded_step d s m : guarded d s -> guarded d (step d s m).
Proof.
  intros G. destruct m as [| | |p|p|p n| | |p]; cbn [step].
  - apply guarded_open, G.
  - apply guarded_close, G.
  - unfold resetState. destruct (loaded d); cbn [negb]; [|exact G].
    destruct (native d DefaultSetting call_DefaultSetting s) as [x s1] eqn:E.
    apply guarded_native in E as [G1 _]; [exact G1|exact G|reflexivity|discriminate].
  - unfold scan. destruct (isOpen s) eqn:O; cbn [negb]; [|exact G].
    destruct (native d Scan (call_Scan p 0) s) as [y s1] eqn:E.
    apply guarded_scan_call in E; [|exact G|exact O|reflexivity].
    destruct y; exact E.
  - unfold scanCard. destruct (isOpen s) eqn:O; cbn [negb]; [|exact G].
    destruct (native d ScanCard (call_ScanCard p 0) s) as [y s1] eqn:E.
    apply guarded_scan_call in E; [|exact G|exact O|reflexivity].
    destruct y; exact E.
  - unfold scanCardWithType. destruct (isOpen s) eqn:O; cbn [negb]; [|exact G].
    destruct (native d ScanCard (call_ScanCard p n) s) as [y s1] eqn:E.
    apply guarded_scan_call in E; [|exact G|exact O|reflexivity]. exact E.
  - destruct (getSensorValue d s) as [x s1] eqn:E.
    apply guarded_getSensorValue in E as [G1 _]; [exact G1|exact G].
  - destruct (detectDocumentType d s) as [x s1] eqn:E.
    apply guarded_detectDocumentType in E as [G1 _]; [exact G1|exact G].
  - apply guarded_scanAuto, G.
Qed.

Lemma guarded_run d ms : guarded d (run d ms).
Proof.
  unfold run. induction ms as [|m ms IH] using rev_ind; [apply guarded_new|].
  rewrite foldl_app. apply guarded_step, IH.
Qed.

Lemma unloaded_native {A} d (f : Dll -> option (nat -> Native A)) c s :
  loaded d = false -> native d f c s = (Raises, s).
Proof. intros L. unfold native. rewrite L. reflexivity. Qed.

Lemma unloaded_step d s m : loaded d = false -> step d s m = s.
Proof.
  intros L. destruct m as [| | |p|p|p n| | |p]; cbn [step].
  - unfold open. rewrite L. reflexivity.
  - unfold close. rewrite unloaded_native by exact L. destruct (isOpen s); reflexivity.
  - unfold resetState. rewrite L. reflexivity.
  - unfold scan. rewrite unloaded_native by exact L. destruct (isOpen s); reflexivity.
  - unfold scanCard. rewrite unloaded_native by exact L. destruct (isOpen s); reflexivity.
  - unfold scanCardWithType. rewrite unloaded_native by exact L.
    destruct (isOpen s); reflexivity.
  - unfold getSensorValue. rewrite L. reflexivity.
  - unfold detectDocumentType, getSensorValue. rewrite L. reflexivity.
  - unfold scanAuto, detectDocumentType, getSensorValue. rewrite L.
    destruct (isOpen s); reflexivity.
Qed.

(** X22. The open flag of [Scanner] (src/lib/scanner.js, lines 218-445):
    whatever of open, close, resetState, the scan methods and the sensor
    methods are called, [isOpen] tells what the DLL was last told
    by a DeviceOpen or DeviceClose call that returned (open for a code
    other than 0x00 and 0xC7); a scan function of the DLL is only ever
    called while the device is open in this sense; and while the DLL is not
    loaded no native call is made at all. *)
Theorem scans_only_an_open_device (d : Dll) (ms : list Method) :
  let s := run d ms in
  isOpen s = opened_by d (trace s) /\
  (forall pre c post, trace s = pre ++ c :: post -> is_scan c = true ->
     opened_by d pre = true) /\
  (loaded d = false -> trace s = [] /\ isOpen s = false).
Proof.
  intros s. destruct (guarded_run d ms) as [Ho Hs]. fold s in Ho, Hs.
  split; [exact Ho|]. split; [exact Hs|].
  intros L. unfold s, run. clear s Ho Hs.
  assert (H : forall s0, foldl (step d) s0 ms = s0).
  { induction ms as [|m ms IH]; intros s0; [reflexivity|].
    cbn [foldl]. rewrite unloaded_step by exact L. apply IH. }
  rewrite H. split; reflexivity.
Qed.

(** X21 at a concrete input. *)
Lemma scanAuto_scans_only_a_detected_document_witness :
  success (scanAuto card_on_glass (js "a") device_open).1 = true /\
  type (scanAuto card_on_glass (js "a") device_open).1 <> none.
Proof.
  split; [reflexivity|].
  exact (proj1 (proj1 (proj2 (scanAuto_scans_only_a_detected_document
           card_on_glass (js "a") device_open))) eq_refl).
Defined.

(** X22 at a concrete input. *)
Lemma scans_only_an_open_device_witness :
  loaded not_loaded = false /\
  trace (run not_loaded [m_open; m_scanAuto (js "a"); m_scan (js "a")]) = [] /\
  trace (run card_on_glass [m_open; m_scanAuto (js "a")])
    = [call_DeviceOpen; call_SetDpi 3; call_SetBits 32; call_GetSensorValueExt;
       call_DefaultSetting] ++ call_ScanCard (js "a") 0 :: [] /\
  opened_by card_on_glass
    [call_DeviceOpen; call_SetDpi 3; call_SetBits 32; call_GetSensorValueExt;
     call_DefaultSetting] = true.
Proof.
  split; [reflexivity|]. split; [|split; [reflexivity|]].
  - exact (proj1 (proj2 (proj2 (scans_only_an_open_device not_loaded
             [m_open; m_scanAuto (js "a"); m_scan (js "a")])) eq_refl)).
  - exact (proj1 (proj2 (scans_only_an_open_device card_on_glass
             [m_open; m_scanAuto (js "a")])) _ _ [] eq_refl eq_refl).
Defined.

End ScannerProofs.
